(** * Look-at-the-data: the dataset store, its change log and its metrics

    A shallow embedding of [main.go]: the [DataManager] with its import,
    item update, metadata aggregation and metrics code, and of the
    prototype [part_000] it grew from, followed by the properties the
    specification states about them and by further properties of the
    code.

    Conventions of the embedding.
    - Go's [int] is a 64-bit signed integer: a [Z] wrapped by [wrap64]
      after each addition.
    - Go's [float64] is Rocq's primitive binary64 [float]; [float64 z] is
      the conversion [float64(z)] of an integer, rounding to nearest even.
    - Go's [string] is a byte string: [string]; comparison with [<] is
      bytewise lexicographic, that is [String.ltb].  [strings.TrimSpace]
      is modelled on the UTF-8 bytes for all of Unicode's white space;
      [strings.ToLower] is modelled for ASCII text, and for other text
      taken from the parameter [unicode_ToLower].
    - Go's [map[string]V] is a [gmap string V].  The order in which a
      [range] loop visits a map is not specified by the language: the
      functions that range over a map take that order from [range], about
      which the theorems assume only that it enumerates the entries of
      the map.
    - A panic stops the function where it is raised; the writes done
      through pointers before it stay.  Functions that can panic return an
      [Outcome] carrying the state reached.
    - [time.Now()] reads a clock kept next to the manager in [World];
      each reading advances it.
    - [main.go] calls [reflect] and [math] without importing them; the
      calls are embedded as they are written, with the meaning they have
      in the Go library. *)

From Stdlib Require Import ZArith Floats Lia Ascii String.
From stdpp Require Import gmap strings list fin_maps sorting pretty.

Local Open Scope string_scope.
Local Open Scope list_scope.
Local Open Scope Z_scope.

(** ** Machine integers and floats *)

Definition max_int : Z := 2 ^ 63 - 1.

Definition wrap64 (z : Z) : Z := (z + 2 ^ 63) mod 2 ^ 64 - 2 ^ 63.

Definition int_add (a b : Z) : Z := wrap64 (a + b).

(** [len(s)] of a slice. *)
Definition len {A} (s : list A) : Z := Z.of_nat (length s).

(** [float64(z)]: the binary64 nearest to the integer, ties to even. *)
Definition float64 (z : Z) : float :=
  SF2Prim (binary_normalize prec emax z 0 false).

(** The constant [0.3] of [detectSignificantBias], as the compiler rounds it. *)
Definition bias_threshold : float := 0x1.3333333333333p-2%float.

(** ** Strings *)

(** Go strings are byte strings holding UTF-8.

    [strings.ToLower] on text that is all ASCII lowers the letters A to
    Z.  On other text it maps every rune through the case tables of the
    Unicode version the library was built with, which are not part of
    this program: that part is left to the function [unicode_ToLower]
    the model takes as a parameter. *)
Definition lower_ascii (c : ascii) : ascii :=
  let n := nat_of_ascii c in
  if ((65 <=? n) && (n <=? 90))%nat then ascii_of_nat (n + 32) else c.

Fixpoint isASCII (s : string) : bool :=
  match s with
  | EmptyString => true
  | String c s' => (nat_of_ascii c <? 128)%nat && isASCII s'
  end.

Fixpoint ToLower_ascii (s : string) : string :=
  match s with
  | EmptyString => EmptyString
  | String c s' => String (lower_ascii c) (ToLower_ascii s')
  end.

Definition ToLower (unicode_ToLower : string -> string) (s : string) : string :=
  if isASCII s then ToLower_ascii s else unicode_ToLower s.

(** [strings.TrimSpace] removes the leading and the trailing white
    space, as [unicode.IsSpace] defines it: the runes U+0009 to U+000D,
    U+0020, U+0085, U+00A0, U+1680, U+2000 to U+200A, U+2028, U+2029,
    U+202F, U+205F and U+3000.  A rune is white space exactly when its
    bytes are the UTF-8 encoding of one of these: one, two or three
    bytes, tested here byte by byte.  Bytes that are not valid UTF-8
    decode to U+FFFD, which is not white space. *)
Definition isSpace (c : ascii) : bool :=
  let n := nat_of_ascii c in
  (((9 <=? n) && (n <=? 13)) || (n =? 32))%nat.

Definition isSpace2 (a b : ascii) : bool :=
  let b := nat_of_ascii b in
  ((nat_of_ascii a =? 194) && ((b =? 133) || (b =? 160)))%nat.

Definition isSpace3 (a b c : ascii) : bool :=
  let a := nat_of_ascii a in
  let b := nat_of_ascii b in
  let c := nat_of_ascii c in
  (((a =? 225) && (b =? 154) && (c =? 128))
   || ((a =? 226) && (b =? 128)
       && (((128 <=? c) && (c <=? 138)) || (c =? 168) || (c =? 169)
           || (c =? 175)))
   || ((a =? 226) && (b =? 129) && (c =? 159))
   || ((a =? 227) && (b =? 128) && (c =? 128)))%nat.

Fixpoint TrimLeft (s : string) : string :=
  match s with
  | EmptyString => EmptyString
  | String a s1 =>
      if isSpace a then TrimLeft s1
      else
        match s1 with
        | String b s2 =>
            if isSpace2 a b then TrimLeft s2
            else
              match s2 with
              | String c s3 => if isSpace3 a b c then TrimLeft s3 else s
              | EmptyString => s
              end
        | EmptyString => s
        end
  end.

(** [s] is one white-space rune. *)
Definition isSpaceRune (s : string) : bool :=
  match s with
  | String a EmptyString => isSpace a
  | String a (String b EmptyString) => isSpace2 a b
  | String a (String b (String c EmptyString)) => isSpace3 a b c
  | _ => false
  end.

(** The tail once trimmed ends in no white space; what is left to test
    is whether the byte in front completes a white-space rune that is
    all there is. *)
Fixpoint TrimRight (s : string) : string :=
  match s with
  | EmptyString => EmptyString
  | String c s' =>
      let r := String c (TrimRight s') in
      if isSpaceRune r then EmptyString else r
  end.

Definition TrimSpace (s : string) : string := TrimRight (TrimLeft s).

(** Two white-space runes that are not ASCII, in UTF-8: the no-break
    space U+00A0 and the em space U+2003. *)
Definition no_break_space : string := String "194" (String "160" "").
Definition em_space : string := String "226" (String "128" (String "131" "")).

(** [strings.Split(s, sep)] for a one-byte separator. *)
Fixpoint Split (s : string) (sep : ascii) : list string :=
  match s with
  | EmptyString => [EmptyString]
  | String c s' =>
      if Ascii.eqb c sep then EmptyString :: Split s' sep
      else match Split s' sep with
           | [] => [String c EmptyString]
           | w :: ws => String c w :: ws
           end
  end.

Definition HasPrefix (s p : string) : bool := String.prefix p s.

(** ** Data structures *)

Definition Time : Type := Z.

Record ChangeRecord := {
  Timestamp : Time;
  User : string;
  Field : string;
  OldValue : string;
  NewValue : string
}.

Record DataItem := {
  ID : Z;
  Text : string;
  Category : string;
  Tags : list string;
  Label : string;
  Confidence : float;
  UserVerified : bool;
  ModelPreds : gmap string float;
  LastUpdated : Time;
  Version : Z;
  VerifiedBy : string;
  ReviewStatus : string;
  History : list ChangeRecord
}.

(** The fields [Version] and [Tags] of [DatasetMetadata] are [MetaVersion]
    and [MetaTags] here, field names being global in Rocq. *)
Record DatasetMetadata := {
  Name : string;
  MetaVersion : Z;
  LastModified : Time;
  TotalItems : Z;
  VerifiedItems : Z;
  Labels : list string;
  Categories : list string;
  MetaTags : list string
}.

Record MetricsData := {
  Accuracy : float;
  F1Score : float;
  DatasetSize : Z;
  VerifiedPct : float;
  LabelDistribution : gmap string Z;
  QualityScore : float;
  BiasMetrics : gmap string float
}.

Record DataManager := {
  Dataset : list DataItem;
  Metadata : DatasetMetadata;
  Metrics : MetricsData;
  BackupPath : string;
  CurrentUser : string
}.

(** Field assignments [item.F = v]. *)
Definition set_Text (v : string) (it : DataItem) : DataItem :=
  {| ID := ID it; Text := v; Category := Category it; Tags := Tags it;
     Label := Label it; Confidence := Confidence it;
     UserVerified := UserVerified it; ModelPreds := ModelPreds it;
     LastUpdated := LastUpdated it; Version := Version it;
     VerifiedBy := VerifiedBy it; ReviewStatus := ReviewStatus it;
     History := History it |}.

Definition set_Category (v : string) (it : DataItem) : DataItem :=
  {| ID := ID it; Text := Text it; Category := v; Tags := Tags it;
     Label := Label it; Confidence := Confidence it;
     UserVerified := UserVerified it; ModelPreds := ModelPreds it;
     LastUpdated := LastUpdated it; Version := Version it;
     VerifiedBy := VerifiedBy it; ReviewStatus := ReviewStatus it;
     History := History it |}.

Definition set_Tags (v : list string) (it : DataItem) : DataItem :=
  {| ID := ID it; Text := Text it; Category := Category it; Tags := v;
     Label := Label it; Confidence := Confidence it;
     UserVerified := UserVerified it; ModelPreds := ModelPreds it;
     LastUpdated := LastUpdated it; Version := Version it;
     VerifiedBy := VerifiedBy it; ReviewStatus := ReviewStatus it;
     History := History it |}.

Definition set_Label (v : string) (it : DataItem) : DataItem :=
  {| ID := ID it; Text := Text it; Category := Category it; Tags := Tags it;
     Label := v; Confidence := Confidence it;
     UserVerified := UserVerified it; ModelPreds := ModelPreds it;
     LastUpdated := LastUpdated it; Version := Version it;
     VerifiedBy := VerifiedBy it; ReviewStatus := ReviewStatus it;
     History := History it |}.

Definition set_LastUpdated (v : Time) (it : DataItem) : DataItem :=
  {| ID := ID it; Text := Text it; Category := Category it; Tags := Tags it;
     Label := Label it; Confidence := Confidence it;
     UserVerified := UserVerified it; ModelPreds := ModelPreds it;
     LastUpdated := v; Version := Version it;
     VerifiedBy := VerifiedBy it; ReviewStatus := ReviewStatus it;
     History := History it |}.

Definition set_Version (v : Z) (it : DataItem) : DataItem :=
  {| ID := ID it; Text := Text it; Category := Category it; Tags := Tags it;
     Label := Label it; Confidence := Confidence it;
     UserVerified := UserVerified it; ModelPreds := ModelPreds it;
     LastUpdated := LastUpdated it; Version := v;
     VerifiedBy := VerifiedBy it; ReviewStatus := ReviewStatus it;
     History := History it |}.

Definition set_History (v : list ChangeRecord) (it : DataItem) : DataItem :=
  {| ID := ID it; Text := Text it; Category := Category it; Tags := Tags it;
     Label := Label it; Confidence := Confidence it;
     UserVerified := UserVerified it; ModelPreds := ModelPreds it;
     LastUpdated := LastUpdated it; Version := Version it;
     VerifiedBy := VerifiedBy it; ReviewStatus := ReviewStatus it;
     History := v |}.

(** The manager and the clock that [time.Now()] reads. *)
Record World := {
  dm : DataManager;
  clock : Time
}.

(** [time.Now()]: the reading, and the clock after it. *)
Definition time_Now (t : Time) : Time * Time := (t, t + 1).

(** Dynamic values, for [interface{}] and [reflect.Value.Interface()]. *)
Inductive GoValue :=
| VString (s : string)
| VStrings (l : list string)
| VInt (z : Z)
| VFloat (f : float)
| VBool (b : bool)
| VPreds (m : gmap string float)
| VTime (t : Time)
| VHistory (h : list ChangeRecord)
| VNil.

Inductive Panic :=
| IndexOutOfRange
| TypeAssertion
| ReflectZeroValue.

Inductive Outcome (A : Type) :=
| Returned (a : A) (w : World)
| Panicked (p : Panic) (w : World).
Arguments Returned {A} a w.
Arguments Panicked {A} p w.

(** [s[i]] of a slice: [None] where Go panics with index out of range. *)
Definition slice_get {A} (s : list A) (i : Z) : option A :=
  if i <? 0 then None else s !! Z.to_nat i.

Definition set_Dataset (ds : list DataItem) (d : DataManager) : DataManager :=
  {| Dataset := ds; Metadata := Metadata d; Metrics := Metrics d;
     BackupPath := BackupPath d; CurrentUser := CurrentUser d |}.

(** What [csvReader.Read()] finds next in the input: a record with its
    fields, or text that is not well-formed CSV.  The end of the list is
    [io.EOF]. *)
Inductive csv_line :=
| Record_ (fields : list string)
| SyntaxError.

Inductive CsvError := ErrEOF | ErrSyntax | ErrFieldCount.

(** The errors [ImportCSV] returns, with the reader's error they wrap. *)
Inductive Error :=
| ErrHeaders (cause : CsvError)
| ErrRow (cause : CsvError).

(** The zero [MetricsData] and [DatasetMetadata] of a fresh manager. *)
Definition zero_Metrics : MetricsData :=
  {| Accuracy := 0; F1Score := 0; DatasetSize := 0; VerifiedPct := 0;
     LabelDistribution := ∅; QualityScore := 0; BiasMetrics := ∅ |}.

Definition NewDataManager (t : Time) : World :=
  let '(now, t') := time_Now t in
  {| dm := {| Dataset := [];
              Metadata := {| Name := ""; MetaVersion := 1; LastModified := now;
                             TotalItems := 0; VerifiedItems := 0; Labels := [];
                             Categories := []; MetaTags := [] |};
              Metrics := zero_Metrics;
              BackupPath := "backups/";
              CurrentUser := "" |};
     clock := t' |}.

(** ** Library functions the code calls *)

(** [sort.Slice(keys, less)]: the slice sorted by [less].  For the short
    slices of this program the library runs an insertion sort; where all
    keys are distinct and [less] is a strict total order, every sorting
    algorithm gives the same slice. *)
Fixpoint sort_insert {A} (less : A -> A -> bool) (x : A) (l : list A) : list A :=
  match l with
  | [] => [x]
  | y :: l' => if less x y then x :: y :: l' else y :: sort_insert less x l'
  end.

Definition sort_Slice {A} (less : A -> A -> bool) (l : list A) : list A :=
  foldl (fun acc x => sort_insert less x acc) [] l.

(** [fmt.Sprintf("%v", v)] for the kinds of value whose rendering is plain
    text; the rendering of floats, maps, times and change records is left
    to [opaque]. *)
Definition Sprint (opaque : GoValue -> string) (v : GoValue) : string :=
  match v with
  | VString s => s
  | VStrings l => "[" +:+ String.concat " " l +:+ "]"
  | VInt z => pretty z
  | VBool b => if b then "true" else "false"
  | VNil => "<nil>"
  | _ => opaque v
  end.

(** [reflect.ValueOf(item).FieldByName(name)]: the field of that exact
    name, or the zero [Value] ([None]) when the struct has none. *)
Definition FieldByName (it : DataItem) (name : string) : option GoValue :=
  if String.eqb name "ID" then Some (VInt (ID it))
  else if String.eqb name "Text" then Some (VString (Text it))
  else if String.eqb name "Category" then Some (VString (Category it))
  else if String.eqb name "Tags" then Some (VStrings (Tags it))
  else if String.eqb name "Label" then Some (VString (Label it))
  else if String.eqb name "Confidence" then Some (VFloat (Confidence it))
  else if String.eqb name "UserVerified" then Some (VBool (UserVerified it))
  else if String.eqb name "ModelPreds" then Some (VPreds (ModelPreds it))
  else if String.eqb name "LastUpdated" then Some (VTime (LastUpdated it))
  else if String.eqb name "Version" then Some (VInt (Version it))
  else if String.eqb name "VerifiedBy" then Some (VString (VerifiedBy it))
  else if String.eqb name "ReviewStatus" then Some (VString (ReviewStatus it))
  else if String.eqb name "History" then Some (VHistory (History it))
  else None.

(** [m[k]++] and [m[k] += x] on maps whose missing keys read as zero. *)
Definition incr (k : string) (m : gmap string Z) : gmap string Z :=
  <[k := int_add (default 0 (m !! k)) 1]> m.

Definition add_float (k : string) (x : float) (m : gmap string float)
  : gmap string float :=
  <[k := (default 0 (m !! k) + x)%float]> m.

(** ** Metrics *)

Definition minMax (values : list float) : float * float :=
  match values with
  | [] => (0%float, 0%float)
  | v0 :: _ =>
      foldl (fun '(mn, mx) v =>
               let mn := if (v <? mn)%float then v else mn in
               let mx := if (mx <? v)%float then v else mx in
               (mn, mx))
            (v0, v0) values
  end.

Definition msg_imbalance : string :=
  "Significant imbalance in label distribution".
Definition msg_lengths : string :=
  "Large variation in text lengths between classes".

(** The order in which a [range] loop visits the entries of a map. *)
Definition Range : Type := forall V, gmap string V -> list (string * V).

Section Core.

Variable range : Range.

(** The rendering by [fmt] of the values [Sprint] leaves open. *)
Variable opaque : GoValue -> string.

(** [strings.ToLower] on text that is not all ASCII. *)
Variable unicode_ToLower : string -> string.

Definition mapKeys {V} (m : gmap string V) : list string :=
  let keys := foldl (fun keys '(k, _) => keys ++ [k]) [] (range _ m) in
  sort_Slice String.ltb keys.

Definition calculateDistributionScore (counts : gmap string Z) : float :=
  if Z.of_nat (size counts) =? 0 then 0%float
  else
    let total := foldl (fun total '(_, count) => int_add total count) 0 (range _ counts) in
    let expected := (float64 total / float64 (Z.of_nat (size counts)))%float in
    let deviation :=
      foldl (fun deviation '(_, count) =>
               let diff := (float64 count - expected)%float in
               (deviation + diff * diff)%float)
            0%float (range _ counts) in
    let deviation := (deviation / float64 (Z.of_nat (size counts)))%float in
    let maxDeviation := (expected * expected)%float in
    ((1 - deviation / maxDeviation) * 100)%float.

Definition calculateBiasMetrics (dataset : list DataItem) : gmap string float :=
  let '(labelCounts, textLengths) :=
    foldl (fun '(lc, tl) item =>
             (incr (Label item) lc,
              add_float (Label item) (float64 (Z.of_nat (String.length (Text item)))) tl))
          (∅, ∅) dataset in
  let total := len dataset in
  let expectedPct := (1 / float64 (Z.of_nat (size labelCounts)))%float in
  let '(distributionBias, metrics) :=
    foldl (fun '(bias, metrics) '(label, count) =>
             let actualPct := (float64 count / float64 total)%float in
             let bias := (bias + abs (actualPct - expectedPct))%float in
             let metrics :=
               if 0 <? count then
                 let avgLength :=
                   (default 0%float (textLengths !! label) / float64 count)%float in
                 <["text_length_" +:+ label := avgLength]> metrics
               else metrics in
             (bias, metrics))
          (0%float, ∅) (range _ labelCounts) in
  <["distribution_bias" :=
      (distributionBias / float64 (Z.of_nat (size labelCounts)))%float]> metrics.

Definition detectSignificantBias (metrics : gmap string float) : string :=
  if (bias_threshold <? default 0 (metrics !! "distribution_bias"))%float
  then msg_imbalance
  else
    let lengths :=
      foldl (fun lengths '(key, value) =>
               if HasPrefix key "text_length_" then lengths ++ [value] else lengths)
            [] (range _ metrics) in
    if (1 <? len lengths) &&
       (let '(mn, mx) := minMax lengths in (2 <? mx / mn)%float)
    then msg_lengths
    else "".

(** *** Metadata and metrics of the manager *)

Definition UpdateMetrics (labelCounts : gmap string Z) (d : DataManager)
  : DataManager :=
  let verifiedPct :=
    (float64 (VerifiedItems (Metadata d)) / float64 (TotalItems (Metadata d))
     * 100)%float in
  let distributionScore := calculateDistributionScore labelCounts in
  {| Dataset := Dataset d;
     Metadata := Metadata d;
     Metrics :=
       {| Accuracy := Accuracy (Metrics d);
          F1Score := F1Score (Metrics d);
          DatasetSize := len (Dataset d);
          VerifiedPct := verifiedPct;
          LabelDistribution := labelCounts;
          QualityScore := ((verifiedPct + distributionScore) / 2)%float;
          BiasMetrics := calculateBiasMetrics (Dataset d) |};
     BackupPath := BackupPath d;
     CurrentUser := CurrentUser d |}.

(** One turn of the loop of [UpdateMetadata] over the items. *)
Definition scan_item
    (acc : Z * gmap string Z * gmap string bool * gmap string bool)
    (item : DataItem) :=
  let '(verified, labelCounts, categories, tags) := acc in
  (if UserVerified item then int_add verified 1 else verified,
   incr (Label item) labelCounts,
   <[Category item := true]> categories,
   foldl (fun tags tag => <[tag := true]> tags) tags (Tags item)).

Definition UpdateMetadata (w : World) : World :=
  let '(now, t) := time_Now (clock w) in
  let d := dm w in
  let '(verified, labelCounts, categories, tags) :=
    foldl scan_item (0, ∅, ∅, ∅) (Dataset d) in
  let md :=
    {| Name := Name (Metadata d);
       MetaVersion := MetaVersion (Metadata d);
       LastModified := now;
       TotalItems := len (Dataset d);
       VerifiedItems := verified;
       Labels := mapKeys labelCounts;
       Categories := mapKeys categories;
       MetaTags := mapKeys tags |} in
  {| dm := UpdateMetrics labelCounts
             {| Dataset := Dataset d; Metadata := md; Metrics := Metrics d;
                BackupPath := BackupPath d; CurrentUser := CurrentUser d |};
     clock := t |}.

(** *** Import *)

(** [headerMap]: the lower-cased, trimmed header names with their
    column; a later column of the same name replaces an earlier one. *)
Definition build_headerMap (headers : list string) : gmap string Z :=
  snd (foldl (fun '(i, m) header =>
                (i + 1, <[ToLower unicode_ToLower (TrimSpace header) := i]> m))
             (0, ∅) headers).

(** One turn of the loop over [headerMap] that fills the new item;
    [None] when [record[idx]] is out of range. *)
Definition set_field (record : list string) (item : option DataItem)
    (entry : string * Z) : option DataItem :=
  let '(header, idx) := entry in
  item ← item;
  if String.eqb header "text" then
    v ← slice_get record idx; Some (set_Text v item)
  else if String.eqb header "category" then
    v ← slice_get record idx; Some (set_Category v item)
  else if String.eqb header "label" then
    v ← slice_get record idx; Some (set_Label v item)
  else if String.eqb header "tags" then
    v ← slice_get record idx; Some (set_Tags (Split v ",") item)
  else Some item.

Definition new_item (id : Z) (now : Time) : DataItem :=
  {| ID := id; Text := ""; Category := ""; Tags := []; Label := "";
     Confidence := 0; UserVerified := false; ModelPreds := ∅;
     LastUpdated := now; Version := 0; VerifiedBy := ""; ReviewStatus := "";
     History := [] |}.

(** The loop over the data rows.  [fields] is the number of fields of
    the header, which [csv.Reader] requires of every later record. *)
Fixpoint import_rows (fields : nat) (headerMap : gmap string Z)
    (rows : list csv_line) (w : World) : Outcome (option Error) :=
  match rows with
  | [] => Returned None w
  | SyntaxError :: _ => Returned (Some (ErrRow ErrSyntax)) w
  | Record_ record :: rest =>
      if negb (length record =? fields)%nat
      then Returned (Some (ErrRow ErrFieldCount)) w
      else
        let '(now, t) := time_Now (clock w) in
        let item := new_item (int_add (len (Dataset (dm w))) 1) now in
        match foldl (set_field record) (Some item) (range _ headerMap) with
        | None => Panicked IndexOutOfRange {| dm := dm w; clock := t |}
        | Some item =>
            import_rows fields headerMap rest
              {| dm := set_Dataset (Dataset (dm w) ++ [item]) (dm w);
                 clock := t |}
        end
  end.

Definition ImportCSV (reader : list csv_line) (w : World)
  : Outcome (option Error) :=
  match reader with
  | [] => Returned (Some (ErrHeaders ErrEOF)) w
  | SyntaxError :: _ => Returned (Some (ErrHeaders ErrSyntax)) w
  | Record_ headers :: rows =>
      match import_rows (length headers) (build_headerMap headers) rows w with
      | Returned None w' => Returned None (UpdateMetadata w')
      | out => out
      end
  end.

(** *** Item update *)

(** The [switch] of [UpdateItem]; [None] when the type assertion on the
    new value panics. *)
Definition assign_field (field : string) (value : GoValue) (item : DataItem)
  : option DataItem :=
  if String.eqb field "label" then
    match value with VString s => Some (set_Label s item) | _ => None end
  else if String.eqb field "tags" then
    match value with VStrings l => Some (set_Tags l item) | _ => None end
  else if String.eqb field "category" then
    match value with VString s => Some (set_Category s item) | _ => None end
  else Some item.

(** The loop of [UpdateItem] over the updates, in the order [updates]
    gives them: the panic that stopped it if any, the item as the loop
    left it, and the clock. *)
Fixpoint apply_updates (user : string) (oldItem : DataItem)
    (updates : list (string * GoValue)) (item : DataItem) (t : Time)
  : option Panic * DataItem * Time :=
  match updates with
  | [] => (None, item, t)
  | (field, value) :: rest =>
      match assign_field field value item with
      | None => (Some TypeAssertion, item, t)
      | Some item =>
          let '(now, t) := time_Now t in
          match FieldByName oldItem field with
          | None => (Some ReflectZeroValue, item, t)
          | Some old =>
              let record :=
                {| Timestamp := now; User := user; Field := field;
                   OldValue := Sprint opaque old;
                   NewValue := Sprint opaque value |} in
              apply_updates user oldItem rest
                (set_History (History item ++ [record]) item) t
          end
      end
  end.

Definition UpdateItem (index : Z) (updates : gmap string GoValue) (w : World)
  : Outcome unit :=
  match slice_get (Dataset (dm w)) index with
  | None => Panicked IndexOutOfRange w
  | Some oldItem =>
      let '(p, item, t) :=
        apply_updates (CurrentUser (dm w)) oldItem (range _ updates)
          oldItem (clock w) in
      match p with
      | Some p =>
          Panicked p
            {| dm := set_Dataset (<[Z.to_nat index := item]> (Dataset (dm w))) (dm w);
               clock := t |}
      | None =>
          let '(now, t) := time_Now t in
          let item := set_LastUpdated now item in
          let item := set_Version (int_add (Version item) 1) item in
          Returned tt
            (UpdateMetadata
               {| dm := set_Dataset (<[Z.to_nat index := item]> (Dataset (dm w))) (dm w);
                  clock := t |})
      end
  end.

End Core.

(** * The prototype of the review window

    [part_000] is an earlier, single-file version of the program: the
    items live in the package variable [dataset], and the closures of
    [main] share the index [currentIndex] of the item on display.  Of
    [updateDisplay] the model keeps the read [dataset[index]], which
    panics out of range, and [calculateMetrics]; what it writes to the
    widgets is not modelled.  [setLabel] and [flagForReview] panic, if
    they do, before their first write: there [None] stands for the
    panic.  A handler of the review tab can panic after it has moved
    the index: its [Result] carries the state the panic leaves. *)
Module Prototype.

Record DataItem := {
  ID : Z;
  Text : string;
  Category : string;
  Tags : list string;
  Label : string;
  Confidence : float;
  UserVerified : bool;
  ModelPreds : gmap string float;
  LastUpdated : Time
}.

Record MetricsData := {
  Accuracy : float;
  F1Score : float;
  DatasetSize : Z;
  VerifiedPct : float
}.

(** The package variable [dataset], the variable [currentIndex] of
    [main], and the clock [time.Now()] reads. *)
Record State := {
  dataset : list DataItem;
  currentIndex : Z;
  clock : Time
}.

(** The dataset the package starts with, [time.Now()] reading [t], and
    the index [main] starts at. *)
Definition initial (t : Time) : State :=
  {| dataset :=
       [{| ID := 1;
           Text := "First example item with some interesting properties";
           Category := "Training";
           Tags := ["unverified"; "batch1"];
           Label := "positive";
           Confidence := 0x1.b333333333333p-1%float;
           UserVerified := false;
           ModelPreds :=
             {[ "positive" := 0x1.b333333333333p-1%float;
                "negative" := 0x1.3333333333333p-3%float ]};
           LastUpdated := t |}];
     currentIndex := 0;
     clock := t + 1 |}.

Definition setLabel (index : Z) (label : string) (s : State) : option State :=
  item ← slice_get (dataset s) index;
  let '(now, t) := time_Now (clock s) in
  let item :=
    {| ID := ID item; Text := Text item; Category := Category item;
       Tags := Tags item; Label := label; Confidence := Confidence item;
       UserVerified := true; ModelPreds := ModelPreds item;
       LastUpdated := now |} in
  Some {| dataset := <[Z.to_nat index := item]> (dataset s);
          currentIndex := currentIndex s; clock := t |}.

Definition flagForReview (index : Z) (s : State) : option State :=
  item ← slice_get (dataset s) index;
  let '(now, t) := time_Now (clock s) in
  let item :=
    {| ID := ID item; Text := Text item; Category := Category item;
       Tags := Tags item ++ ["needs_review"]; Label := Label item;
       Confidence := Confidence item; UserVerified := UserVerified item;
       ModelPreds := ModelPreds item; LastUpdated := now |} in
  Some {| dataset := <[Z.to_nat index := item]> (dataset s);
          currentIndex := currentIndex s; clock := t |}.

(** The constants [0.85] and [0.83] are written as the compiler rounds
    them. *)
Definition calculateMetrics (s : State) : MetricsData :=
  let verified :=
    foldl (fun verified item =>
             if UserVerified item then int_add verified 1 else verified)
          0 (dataset s) in
  {| Accuracy := 0x1.b333333333333p-1%float;
     F1Score := 0x1.a8f5c28f5c28fp-1%float;
     DatasetSize := len (dataset s);
     VerifiedPct :=
       (float64 verified / float64 (len (dataset s)) * 100)%float |}.

(** How a handler ends, with the state it leaves: what was written
    before a panic stays written. *)
Inductive Result :=
| Returns (s : State)
| Panics (s : State).

(** [updateDisplay(index)], as far as the state goes: it reads
    [dataset[index]] and writes nothing. *)
Definition updateDisplay (index : Z) (s : State) : Result :=
  match slice_get (dataset s) index with
  | Some _ => Returns s
  | None => Panics s
  end.

Definition set_currentIndex (i : Z) (s : State) : State :=
  {| dataset := dataset s; currentIndex := i; clock := clock s |}.

(** The three navigation buttons: each writes [currentIndex] and then
    calls [updateDisplay].  [rand.Intn(n)] panics for [n <= 0] and
    otherwise returns a number of [[0, n)]: [r mod n], for the number
    [r] the generator draws. *)
Definition Intn (n r : Z) : option Z :=
  if n <=? 0 then None else Some (r mod n).

Definition prevButton (s : State) : Result :=
  if 0 <? currentIndex s then
    let s := set_currentIndex (wrap64 (currentIndex s - 1)) s in
    updateDisplay (currentIndex s) s
  else Returns s.

Definition nextButton (s : State) : Result :=
  if currentIndex s <? wrap64 (len (dataset s) - 1) then
    let s := set_currentIndex (int_add (currentIndex s) 1) s in
    updateDisplay (currentIndex s) s
  else Returns s.

Definition randomButton (r : Z) (s : State) : Result :=
  match Intn (len (dataset s)) r with
  | None => Panics s
  | Some i =>
      let s := set_currentIndex i s in
      updateDisplay (currentIndex s) s
  end.

(** What the user can do in the review tab: the navigation buttons, the
    label buttons and the flag button, the last two on the item on
    display. *)
Inductive Event :=
| Previous
| Next
| Random (r : Z)
| QuickLabel (label : string)
| FlagForReview.

Definition handle (e : Event) (s : State) : Result :=
  match e with
  | Previous => prevButton s
  | Next => nextButton s
  | Random r => randomButton r s
  | QuickLabel label =>
      match setLabel (currentIndex s) label s with
      | Some s' => Returns s'
      | None => Panics s
      end
  | FlagForReview =>
      match flagForReview (currentIndex s) s with
      | Some s' => Returns s'
      | None => Panics s
      end
  end.

(** The events one after the other, up to the first panic. *)
Fixpoint run (events : list Event) (s : State) : Result :=
  match events with
  | [] => Returns s
  | e :: events =>
      match handle e s with
      | Returns s => run events s
      | Panics s => Panics s
      end
  end.


(** The number of verified items, and the items as nothing in the
    review tab changes them. *)
Definition verified_count (ds : list DataItem) : Z :=
  Z.of_nat (length (List.filter UserVerified ds)).

Definition same_example (a b : DataItem) : Prop :=
  ID a = ID b /\ Text a = Text b /\ Category a = Category b /\
  Confidence a = Confidence b /\ ModelPreds a = ModelPreds b.

(** The index on display is one of the dataset, whose length is an
    [int]. *)
Definition in_range (s : State) : Prop :=
  0 <= currentIndex s < len (dataset s) /\ len (dataset s) <= max_int.

End Prototype.

(** * Vocabulary of the properties *)

(** [range] enumerates each map: every entry once, in some order. *)
Definition enumerates (range : Range) : Prop :=
  forall V (m : gmap string V), range V m ≡ₚ map_to_list m.

(** The strict order of Go's [<] on strings. *)
Definition string_lt (a b : string) : Prop := String.ltb a b = true.

(** The number of items with [UserVerified] set. *)
Definition verified_count (ds : list DataItem) : Z :=
  Z.of_nat (length (List.filter UserVerified ds)).

(** The sum of the counts of a label distribution, in [Z]. *)
Definition sum_counts (m : gmap string Z) : Z :=
  map_fold (fun _ c s => c + s) 0 m.

(** The four accumulators of the loop of [UpdateMetadata], taken one at
    a time. *)
Definition scan_verified (v : Z) (it : DataItem) : Z :=
  if UserVerified it then int_add v 1 else v.
Definition scan_label (lc : gmap string Z) (it : DataItem) : gmap string Z :=
  incr (Label it) lc.
Definition scan_category (c : gmap string bool) (it : DataItem) : gmap string bool :=
  <[Category it := true]> c.
Definition scan_tags (t : gmap string bool) (it : DataItem) : gmap string bool :=
  foldl (fun tags tag => <[tag := true]> tags) t (Tags it).

(** The states in which [Metadata] and [Metrics] have just been
    recomputed: those [UpdateMetadata] yields, which are also those a
    successful import and a completed item update return. *)
Inductive recomputed (range : Range) (opaque : GoValue -> string)
  : World -> Prop :=
| recomputed_UpdateMetadata w :
    recomputed range opaque (UpdateMetadata range w)
| recomputed_ImportCSV lower reader w w' :
    ImportCSV range lower reader w = Returned None w' ->
    recomputed range opaque w'
| recomputed_UpdateItem index updates w w' :
    UpdateItem range opaque index updates w = Returned tt w' ->
    recomputed range opaque w'.

(** The counts of the metadata and of the metrics agree with the items:
    the verified count, the total, and the label distribution, which has
    an entry for the label of each item, whatever that label is, and
    whose counts sum to the total. *)
Definition counts_consistent (d : DataManager) : Prop :=
  VerifiedItems (Metadata d) = verified_count (Dataset d) /\
  sum_counts (LabelDistribution (Metrics d)) = TotalItems (Metadata d) /\
  TotalItems (Metadata d) = len (Dataset d) /\
  (forall l, is_Some (LabelDistribution (Metrics d) !! l) <->
             exists it, it ∈ Dataset d /\ Label it = l).

(** [l] is the ascending sequence, without repetition, of the strings
    that satisfy [P]. *)
Definition sorted_set_of (l : list string) (P : string -> Prop) : Prop :=
  StronglySorted string_lt l /\ NoDup l /\ forall s, s ∈ l <-> P s.

(** A data row [csv.Reader] accepts after a header of [fields] fields,
    and one it reports an error for. *)
Definition well_formed_row (fields : nat) (line : csv_line) : Prop :=
  exists record, line = Record_ record /\ length record = fields.

Definition malformed_row (fields : nat) (line : csv_line) : Prop :=
  line = SyntaxError \/
  exists record, line = Record_ record /\ length record <> fields.

(** The field names [UpdateItem] assigns. *)
Definition recognized (field : string) : bool :=
  String.eqb field "label" || String.eqb field "tags"
  || String.eqb field "category".

(** The names of the fields of the [DataItem] struct. *)
Definition field_names : list string :=
  ["ID"; "Text"; "Category"; "Tags"; "Label"; "Confidence"; "UserVerified";
   "ModelPreds"; "LastUpdated"; "Version"; "VerifiedBy"; "ReviewStatus";
   "History"].

(** [field] is the name of a field of the struct. *)
Definition struct_field (field : string) : bool :=
  existsb (String.eqb field) field_names.

(** What an update leaves alone in an item: everything but its history,
    version and time stamp. *)
Definition same_values (a b : DataItem) : Prop :=
  ID a = ID b /\ Text a = Text b /\ Category a = Category b /\
  Tags a = Tags b /\ Label a = Label b /\ Confidence a = Confidence b /\
  UserVerified a = UserVerified b /\ ModelPreds a = ModelPreds b /\
  VerifiedBy a = VerifiedBy b /\ ReviewStatus a = ReviewStatus b.

(** What the audit trail of an item consists of. *)
Definition same_trail (a b : DataItem) : Prop :=
  History a = History b /\ Version a = Version b /\
  LastUpdated a = LastUpdated b.

(** The distribution-balance score as the specification words it, to be
    compared with [calculateDistributionScore]: the mean count, the
    population variance of the counts around it, and the score.  The
    counts come in the order the map yields them, on which the sums of
    a [float64] computation depend. *)
Definition sum_list (counts : list Z) : Z := foldr Z.add 0 counts.

Definition fsum (xs : list float) : float := foldl PrimFloat.add 0%float xs.

Definition mean_count (counts : list Z) : float :=
  (float64 (sum_list counts) / float64 (len counts))%float.

Definition population_variance (expected : float) (counts : list Z) : float :=
  (fsum ((fun c => (float64 c - expected) * (float64 c - expected))%float
           <$> counts)
   / float64 (len counts))%float.

Definition balance_score (counts : list Z) : float :=
  match counts with
  | [] => 0%float
  | _ =>
      let expected := mean_count counts in
      ((1 - population_variance expected counts / (expected * expected))
       * 100)%float
  end.

(** Scenario A of the specification: a header and two rows. *)
Definition scenario_A : list csv_line :=
  [Record_ ["text"; "label"]; Record_ ["a"; "pos"]; Record_ ["b"; "neg"]].

(** The per-label average lengths among the entries of a bias map, in
    the order given. *)
Definition text_lengths (entries : list (string * float)) : list float :=
  snd <$> List.filter (fun e => HasPrefix e.1 "text_length_") entries.

(** The loop of [calculateBiasMetrics] over the items. *)
Definition bias_scan (acc : gmap string Z * gmap string float) (item : DataItem) :=
  (incr (Label item) acc.1,
   add_float (Label item) (float64 (Z.of_nat (String.length (Text item)))) acc.2).

(** The state an operation leaves, however it ended. *)
Definition outcome_world {A} (o : Outcome A) : World :=
  match o with
  | Returned _ w => w
  | Panicked _ w => w
  end.

(** The cell of a record under the column called [name], if the header
    has such a column. *)
Definition column (headerMap : gmap string Z) (record : list string)
    (name : string) : option string :=
  idx ← headerMap !! name; slice_get record idx.

(** What the loop over [headerMap] makes of a fresh item. *)
Definition import_item (range : Range) (headerMap : gmap string Z)
    (record : list string) (id : Z) (now : Time) : option DataItem :=
  foldl (set_field record) (Some (new_item id now)) (range Z headerMap).

(** [items] are the items the loop of [ImportCSV] builds from [records],
    the store holding [n] items and the clock reading [t] before. *)
Fixpoint imported (range : Range) (headerMap : gmap string Z) (n : Z) (t : Time)
    (records : list (list string)) (items : list DataItem) : Prop :=
  match records, items with
  | [], [] => True
  | record :: records, item :: items =>
      import_item range headerMap record (int_add n 1) t = Some item /\
      imported range headerMap (n + 1) (t + 1) records items
  | _, _ => False
  end.

(** The part of an item a header decides, and the part a cell gives. *)
Definition observe (header : string) (it : DataItem) : list string :=
  if String.eqb header "text" then [Text it]
  else if String.eqb header "category" then [Category it]
  else if String.eqb header "label" then [Label it]
  else if String.eqb header "tags" then Tags it
  else [].

Definition cell_value (header : string) (v : string) : list string :=
  if String.eqb header "tags" then Split v "," else [v].

Definition is_column (header : string) : bool :=
  String.eqb header "text" || String.eqb header "category"
  || String.eqb header "label" || String.eqb header "tags".

(** What [set_field] never touches. *)
Definition same_record (a b : DataItem) : Prop :=
  ID a = ID b /\ Confidence a = Confidence b /\
  UserVerified a = UserVerified b /\ ModelPreds a = ModelPreds b /\
  LastUpdated a = LastUpdated b /\ Version a = Version b /\
  VerifiedBy a = VerifiedBy b /\ ReviewStatus a = ReviewStatus b /\
  History a = History b.

(** The name under which [ImportCSV] files a header. *)
Definition normalize (lower : string -> string) (header : string) : string :=
  ToLower lower (TrimSpace header).

(** Column [i] is the last one of [headers] whose normalised name is [k]. *)
Definition last_column (lower : string -> string) (headers : list string)
    (k : string) (i : Z) : Prop :=
  exists n, i = Z.of_nat n /\
    (normalize lower <$> headers) !! n = Some k /\
    forall j, (n < j)%nat -> (normalize lower <$> headers) !! j <> Some k.

(** The number of items labelled [l]. *)
Definition label_count (l : string) (ds : list DataItem) : Z :=
  Z.of_nat (length (List.filter (fun it => String.eqb (Label it) l) ds)).

(** What no update ever changes in an item. *)
Definition same_identity (a b : DataItem) : Prop :=
  ID a = ID b /\ Text a = Text b /\ Confidence a = Confidence b /\
  UserVerified a = UserVerified b /\ ModelPreds a = ModelPreds b /\
  VerifiedBy a = VerifiedBy b /\ ReviewStatus a = ReviewStatus b.

(** The states the program can be in: a fresh manager, and what imports,
    item updates and recomputations make of such a state, however they
    end and in whatever order they visit their maps. *)
Inductive reachable (opaque : GoValue -> string) : World -> Prop :=
| reachable_new t : reachable opaque (NewDataManager t)
| reachable_ImportCSV range lower reader w :
    reachable opaque w ->
    reachable opaque (outcome_world (ImportCSV range lower reader w))
| reachable_UpdateItem range index updates w :
    reachable opaque w ->
    reachable opaque (outcome_world (UpdateItem range opaque index updates w))
| reachable_UpdateMetadata range w :
    reachable opaque w -> reachable opaque (UpdateMetadata range w).

(** An item at position [k] as the program can have made it: numbered by
    its position, never verified, never scored, and with a history whose
    records carry no user. *)
Definition unreviewed (k : nat) (it : DataItem) : Prop :=
  ID it = int_add (Z.of_nat k) 1 /\
  UserVerified it = false /\
  Confidence it = 0%float /\
  ModelPreds it = ∅ /\
  VerifiedBy it = "" /\ ReviewStatus it = "" /\
  Forall (fun r => User r = "") (History it).

Definition store_invariant (d : DataManager) : Prop :=
  (forall k it, Dataset d !! k = Some it -> unreviewed k it) /\
  VerifiedItems (Metadata d) = 0 /\
  0 <= TotalItems (Metadata d) <= len (Dataset d) /\
  0 <= DatasetSize (Metrics d) <= len (Dataset d) /\
  Name (Metadata d) = "" /\ MetaVersion (Metadata d) = 1 /\
  Accuracy (Metrics d) = 0%float /\ F1Score (Metrics d) = 0%float /\
  BackupPath d = "backups/" /\ CurrentUser d = "".

(** The items of the store, and what of the manager is not derived from
    them. *)
Definition items_invariant (d : DataManager) : Prop :=
  (forall k it, Dataset d !! k = Some it -> unreviewed k it) /\
  Name (Metadata d) = "" /\ MetaVersion (Metadata d) = 1 /\
  Accuracy (Metrics d) = 0%float /\ F1Score (Metrics d) = 0%float /\
  BackupPath d = "backups/" /\ CurrentUser d = "".

(** The lengths of the texts labelled [l] as [float64], in the order of
    the items, and their sum as the loop of [calculateBiasMetrics]
    accumulates it. *)
Definition label_lengths (l : string) (ds : list DataItem) : list float :=
  (fun it => float64 (Z.of_nat (String.length (Text it))))
    <$> List.filter (fun it => String.eqb (Label it) l) ds.

Definition total_length (l : string) (ds : list DataItem) : float :=
  fsum (label_lengths l ds).

(** The loop of [calculateBiasMetrics] over the label counts. *)
Definition bias_loop (textLengths : gmap string float) (total : Z)
    (expectedPct : float) (acc : float * gmap string float)
    (entries : list (string * Z)) : float * gmap string float :=
  foldl (fun '(bias, metrics) '(label, count) =>
           let actualPct := (float64 count / float64 total)%float in
           let bias := (bias + abs (actualPct - expectedPct))%float in
           let metrics :=
             if 0 <? count then
               let avgLength :=
                 (default 0%float (textLengths !! label) / float64 count)%float in
               <["text_length_" +:+ label := avgLength]> metrics
             else metrics in
           (bias, metrics))
        acc entries.

(** What an event keeps of the state: the number of items, what each
    item is an example of, its tags as a prefix of the new ones, and
    its verification once given. *)
Definition Prototype_kept (s s' : Prototype.State) : Prop :=
  length (Prototype.dataset s') = length (Prototype.dataset s) /\
  Prototype.clock s <= Prototype.clock s' /\
  forall k old,
    Prototype.dataset s !! k = Some old ->
    exists new,
      Prototype.dataset s' !! k = Some new /\
      Prototype.same_example new old /\
      Prototype.Tags old `prefix_of` Prototype.Tags new /\
      (Prototype.UserVerified old = true -> Prototype.UserVerified new = true).

(** The names visited before the first one that is no field of the
    struct. *)
Fixpoint struct_prefix (fields : list string) : list string :=
  match fields with
  | [] => []
  | f :: fs => if struct_field f then f :: struct_prefix fs else []
  end.

(** A change record for the entry [(field, value)] of an update of
    [oldItem] by [user]: what it says the value was and has become. *)
Definition records_update (opaque : GoValue -> string) (user : string)
    (oldItem : DataItem) (updates : list (string * GoValue))
    (r : ChangeRecord) : Prop :=
  User r = user /\
  exists value old,
    (Field r, value) ∈ updates /\
    FieldByName oldItem (Field r) = Some old /\
    OldValue r = Sprint opaque old /\
    NewValue r = Sprint opaque value.

(** [mn] is a least and [mx] a greatest element of [l] in the order of
    [float64]. *)
Definition is_minimum (mn : float) (l : list float) : Prop :=
  mn ∈ l /\ forall v, v ∈ l -> (mn <=? v)%float = true.

Definition is_maximum (mx : float) (l : list float) : Prop :=
  mx ∈ l /\ forall v, v ∈ l -> (v <=? mx)%float = true.

(** A float that is neither NaN nor negative: [+0], a positive number
    or [+infinity]. *)
Definition nonneg_float (x : float) : Prop :=
  match Prim2SF x with
  | S754_zero false | S754_infinity false | S754_finite false _ _ => True
  | _ => False
  end.

(** The sign a rounded result carries: it is never NaN. *)
Definition has_sign (sx : bool) (x : spec_float) : Prop :=
  match x with
  | S754_nan => False
  | S754_zero s | S754_infinity s | S754_finite s _ _ => s = sx
  end.

(** The average text length of the items labelled [l], as the bias map
    holds it. *)
Definition average_length (l : string) (ds : list DataItem) : float :=
  (total_length l ds / float64 (label_count l ds))%float.

(** * Properties *)

Lemma enumerates_map_to_list : enumerates (fun V m => map_to_list m).
Proof. intros V m. reflexivity. Qed.

(** ** Machine integers *)

Lemma wrap64_small z : - 2 ^ 63 <= z <= max_int -> wrap64 z = z.
Proof.
  unfold wrap64, max_int. intros H.
  rewrite Z.mod_small by lia. lia.
Qed.

(** ** Sorting *)

Lemma ltb_false_le a b : String.ltb a b = false -> String.le b a.
Proof.
  unfold String.le, String.ltb, String.leb.
  rewrite (String.compare_antisym a b).
  destruct (String.compare b a); simpl; intros; done.
Qed.

Lemma ltb_true_le a b : String.ltb a b = true -> String.le a b.
Proof.
  unfold String.le, String.ltb, String.leb.
  destruct (String.compare a b); simpl; intros; done.
Qed.

Lemma le_ne_lt a b : String.le a b -> a <> b -> string_lt a b.
Proof.
  unfold String.le, string_lt, String.ltb, String.leb.
  destruct (String.compare a b) eqn:E; simpl; intros; try done.
  apply String.compare_eq_iff in E. done.
Qed.

Lemma sort_insert_perm x (l : list string) :
  sort_insert String.ltb x l ≡ₚ x :: l.
Proof.
  induction l as [|y l IH]; simpl; [done|].
  destruct (String.ltb x y); [done|].
  rewrite IH. apply perm_swap.
Qed.

Lemma sort_insert_sorted x l :
  Sorted String.le l -> Sorted String.le (sort_insert String.ltb x l).
Proof.
  induction 1 as [|y l Hs IH Hhd]; simpl.
  - repeat constructor.
  - destruct (String.ltb x y) eqn:E.
    + constructor; [by constructor|]. constructor. by apply ltb_true_le.
    + constructor; [done|].
      apply ltb_false_le in E.
      destruct Hhd as [|z l Hyz]; simpl.
      * by constructor.
      * destruct (String.ltb x z); by constructor.
Qed.

Lemma sort_Slice_acc (l acc : list string) :
  Sorted String.le acc ->
  let r := foldl (fun acc x => sort_insert String.ltb x acc) acc l in
  Sorted String.le r /\ r ≡ₚ acc ++ l.
Proof.
  revert acc. induction l as [|x l IH]; intros acc Hacc; simpl.
  - by rewrite app_nil_r.
  - destruct (IH (sort_insert String.ltb x acc)) as [Hs Hp].
    { by apply sort_insert_sorted. }
    split; [done|].
    rewrite Hp, sort_insert_perm. simpl. apply Permutation_middle.
Qed.

Lemma sort_Slice_perm (l : list string) : sort_Slice String.ltb l ≡ₚ l.
Proof. apply (sort_Slice_acc l []). constructor. Qed.

Lemma sort_Slice_sorted (l : list string) :
  Sorted String.le (sort_Slice String.ltb l).
Proof. apply (sort_Slice_acc l []). constructor. Qed.

(** A sorted slice without repetition ascends strictly. *)
Lemma sorted_strict (l : list string) :
  Sorted String.le l -> NoDup l -> StronglySorted string_lt l.
Proof.
  intros Hs%Sorted_StronglySorted Hn; [|apply _].
  induction Hs as [|x l Hs IH Hall]; [constructor|].
  apply NoDup_cons in Hn as [Hx Hn].
  constructor; [by apply IH|].
  rewrite Forall_forall in Hall |- *. intros y Hy.
  apply le_ne_lt; [by apply Hall|]. intros ->. done.
Qed.

(** The keys [mapKeys] collects are the first components of the entries
    visited. *)
Lemma collect_keys {V} (l : list (string * V)) (acc : list string) :
  foldl (fun keys '(k, _) => keys ++ [k]) acc l = acc ++ l.*1.
Proof.
  revert acc. induction l as [|[k v] l IH]; intros acc; simpl.
  - by rewrite app_nil_r.
  - rewrite IH. by rewrite <- app_assoc.
Qed.

Section MapKeys.
Variable range : Range.
Hypothesis range_enum : enumerates range.

Lemma mapKeys_perm {V} (m : gmap string V) :
  mapKeys range m ≡ₚ (map_to_list m).*1.
Proof.
  unfold mapKeys. rewrite sort_Slice_perm, collect_keys. simpl.
  by rewrite (range_enum V m).
Qed.

Lemma mapKeys_NoDup {V} (m : gmap string V) : NoDup (mapKeys range m).
Proof. rewrite mapKeys_perm. apply NoDup_fst_map_to_list. Qed.

Lemma mapKeys_elem {V} (m : gmap string V) k :
  k ∈ mapKeys range m <-> is_Some (m !! k).
Proof.
  rewrite mapKeys_perm, list_elem_of_fmap. split.
  - intros [[k' v] [-> H%elem_of_map_to_list]]. eauto.
  - intros [v H]. exists (k, v). split; [done|]. by apply elem_of_map_to_list.
Qed.

Lemma mapKeys_sorted {V} (m : gmap string V) :
  StronglySorted string_lt (mapKeys range m).
Proof.
  apply sorted_strict; [apply sort_Slice_sorted | apply mapKeys_NoDup].
Qed.
End MapKeys.

(** ** The loop of [UpdateMetadata] *)

Lemma scan_split ds v lc c t :
  foldl scan_item (v, lc, c, t) ds =
  (foldl scan_verified v ds, foldl scan_label lc ds,
   foldl scan_category c ds, foldl scan_tags t ds).
Proof.
  revert v lc c t. induction ds as [|it ds IH]; intros; simpl; [done|].
  by rewrite IH.
Qed.

Lemma verified_count_le ds : 0 <= verified_count ds <= len ds.
Proof.
  unfold verified_count, len. split; [lia|].
  apply Nat2Z.inj_le, List.filter_length_le.
Qed.

Lemma verified_count_cons it ds :
  verified_count (it :: ds) =
  (if UserVerified it then 1 else 0) + verified_count ds.
Proof.
  unfold verified_count. simpl. destruct (UserVerified it); simpl; lia.
Qed.

Lemma len_cons {A} (x : A) l : len (x :: l) = 1 + len l.
Proof. unfold len. simpl. lia. Qed.

Lemma len_nonneg {A} (l : list A) : 0 <= len l.
Proof. unfold len. lia. Qed.

Lemma scan_verified_fold ds v :
  0 <= v -> v + len ds <= max_int ->
  foldl scan_verified v ds = v + verified_count ds.
Proof.
  revert v. induction ds as [|it ds IH]; intros v Hv Hlen; simpl.
  - unfold verified_count. simpl. lia.
  - rewrite len_cons in Hlen. rewrite verified_count_cons.
    pose proof (verified_count_le ds).
    unfold scan_verified at 2. destruct (UserVerified it).
    + unfold int_add. rewrite wrap64_small by (unfold max_int in *; lia).
      rewrite IH by lia. lia.
    + rewrite IH by lia. lia.
Qed.

Lemma sum_counts_empty : sum_counts ∅ = 0.
Proof. apply map_fold_empty. Qed.

Lemma sum_counts_insert_fresh k c (m : gmap string Z) :
  m !! k = None -> sum_counts (<[k := c]> m) = c + sum_counts m.
Proof.
  intros H. unfold sum_counts.
  rewrite map_fold_insert_L; [done| intros; lia | done].
Qed.

Lemma sum_counts_lookup k c (m : gmap string Z) :
  m !! k = Some c -> sum_counts m = c + sum_counts (delete k m).
Proof.
  intros H. rewrite <- (insert_delete_id m k c) at 1 by done.
  apply sum_counts_insert_fresh, lookup_delete_eq.
Qed.

Lemma sum_counts_insert k c (m : gmap string Z) :
  sum_counts (<[k := c]> m) = c + sum_counts m - default 0 (m !! k).
Proof.
  destruct (m !! k) as [c0|] eqn:E; simpl.
  - rewrite <- insert_delete_eq.
    rewrite sum_counts_insert_fresh by apply lookup_delete_eq.
    rewrite (sum_counts_lookup k c0 m E). lia.
  - rewrite sum_counts_insert_fresh by done. lia.
Qed.

Lemma sum_counts_nonneg (m : gmap string Z) :
  (forall k c, m !! k = Some c -> 0 <= c) -> 0 <= sum_counts m.
Proof.
  induction m as [|k c m Hk IH] using map_ind; intros H.
  - rewrite sum_counts_empty. lia.
  - rewrite sum_counts_insert_fresh by done.
    assert (0 <= c) by (apply (H k); apply lookup_insert_eq).
    assert (0 <= sum_counts m); [|lia].
    apply IH. intros k' c' Hk'. apply (H k').
    rewrite lookup_insert_ne; [done|]. intros ->. congruence.
Qed.

Lemma count_le_sum k c (m : gmap string Z) :
  (forall k c, m !! k = Some c -> 0 <= c) ->
  m !! k = Some c -> c <= sum_counts m.
Proof.
  intros Hpos Hk. rewrite (sum_counts_lookup k c m Hk).
  assert (0 <= sum_counts (delete k m)); [|lia].
  apply sum_counts_nonneg. intros k' c' H'.
  apply lookup_delete_Some in H' as [_ H']. eauto.
Qed.

Lemma scan_label_fold ds (m : gmap string Z) :
  (forall k c, m !! k = Some c -> 1 <= c) ->
  sum_counts m + len ds <= max_int ->
  sum_counts (foldl scan_label m ds) = sum_counts m + len ds /\
  (forall k c, foldl scan_label m ds !! k = Some c -> 1 <= c).
Proof.
  revert m. induction ds as [|it ds IH]; intros m Hpos Hlen; simpl.
  - unfold len. simpl. split; [lia|done].
  - rewrite len_cons in Hlen.
    assert (Hnn : forall k c, m !! k = Some c -> 0 <= c).
    { intros k c H. apply Hpos in H. lia. }
    pose proof (sum_counts_nonneg m Hnn) as Hsum.
    pose proof (len_nonneg ds) as Hds.
    assert (Hold : 0 <= default 0 (m !! Label it) <= sum_counts m).
    { destruct (m !! Label it) as [c|] eqn:E; simpl; [|lia].
      split; [by eapply Hnn | by eapply count_le_sum]. }
    assert (Hstep : scan_label m it
                    = <[Label it := default 0 (m !! Label it) + 1]> m).
    { unfold scan_label, incr, int_add.
      rewrite wrap64_small; [done | unfold max_int in *; lia]. }
    assert (Hs1 : sum_counts (scan_label m it) = sum_counts m + 1).
    { rewrite Hstep, sum_counts_insert. lia. }
    destruct (IH (scan_label m it)) as [IH1 IH2].
    + intros k c. rewrite Hstep.
      destruct (decide (k = Label it)) as [->|Hne].
      * rewrite lookup_insert_eq. intros [= <-]. lia.
      * rewrite lookup_insert_ne by done. apply Hpos.
    + rewrite Hs1. lia.
    + split; [|done]. rewrite IH1, Hs1, len_cons. lia.
Qed.

(** The keys of the three maps are the values seen in the items. *)
Lemma scan_label_keys ds (m : gmap string Z) k :
  is_Some (foldl scan_label m ds !! k) <->
  is_Some (m !! k) \/ exists it, it ∈ ds /\ Label it = k.
Proof.
  revert m. induction ds as [|it ds IH]; intros m; simpl.
  - split; [auto|]. intros [H|(it & H & _)]; [done|]. by apply elem_of_nil in H.
  - rewrite IH. unfold scan_label, incr.
    rewrite lookup_insert_is_Some. split.
    + intros [[Heq|[_ H]]|(it' & Hin & Hl)].
      * right. exists it. split; [apply elem_of_cons; auto|done].
      * by left.
      * right. exists it'. split; [apply elem_of_cons; auto|done].
    + intros [H|(it' & Hin & Hl)].
      * left. destruct (decide (Label it = k)); auto.
      * apply elem_of_cons in Hin as [->|Hin]; [auto|eauto].
Qed.

Lemma scan_category_keys ds (m : gmap string bool) k :
  is_Some (foldl scan_category m ds !! k) <->
  is_Some (m !! k) \/ exists it, it ∈ ds /\ Category it = k.
Proof.
  revert m. induction ds as [|it ds IH]; intros m; simpl.
  - split; [auto|]. intros [H|(it & H & _)]; [done|]. by apply elem_of_nil in H.
  - rewrite IH. unfold scan_category.
    rewrite lookup_insert_is_Some. split.
    + intros [[Heq|[_ H]]|(it' & Hin & Hl)].
      * right. exists it. split; [apply elem_of_cons; auto|done].
      * by left.
      * right. exists it'. split; [apply elem_of_cons; auto|done].
    + intros [H|(it' & Hin & Hl)].
      * left. destruct (decide (Category it = k)); auto.
      * apply elem_of_cons in Hin as [->|Hin]; [auto|eauto].
Qed.

Lemma insert_tags_keys (tags : list string) (m : gmap string bool) k :
  is_Some (foldl (fun t tag => <[tag := true]> t) m tags !! k) <->
  is_Some (m !! k) \/ k ∈ tags.
Proof.
  revert m. induction tags as [|tag tags IH]; intros m; simpl.
  - split; [auto|]. intros [H|H]; [done|]. by apply elem_of_nil in H.
  - rewrite IH, lookup_insert_is_Some, elem_of_cons. split.
    + intros [[->|[_ H]]|H]; auto.
    + intros [H|[->|H]]; auto.
      left. destruct (decide (tag = k)); auto.
Qed.

Lemma scan_tags_keys ds (m : gmap string bool) k :
  is_Some (foldl scan_tags m ds !! k) <->
  is_Some (m !! k) \/ exists it, it ∈ ds /\ k ∈ Tags it.
Proof.
  revert m. induction ds as [|it ds IH]; intros m; simpl.
  - split; [auto|]. intros [H|(it & H & _)]; [done|]. by apply elem_of_nil in H.
  - rewrite IH. unfold scan_tags. rewrite insert_tags_keys. split.
    + intros [[H|H]|(it' & Hin & H)].
      * by left.
      * right. exists it. split; [apply elem_of_cons; auto|done].
      * right. exists it'. split; [apply elem_of_cons; auto|done].
    + intros [H|(it' & Hin & H)]; [auto|].
      apply elem_of_cons in Hin as [->|Hin]; [auto|eauto].
Qed.

(** ** States with recomputed metadata and metrics *)

Lemma recomputed_inv range opaque w' :
  recomputed range opaque w' -> exists w, w' = UpdateMetadata range w.
Proof.
  intros [w|lower reader w w1 H|index updates w w1 H].
  - by exists w.
  - unfold ImportCSV in H.
    destruct reader as [|[headers|] rows]; try discriminate.
    destruct (import_rows range (length headers) (build_headerMap lower headers) rows w)
      as [[e|] w2|p w2]; try discriminate.
    injection H as <-. by exists w2.
  - unfold UpdateItem in H.
    destruct (slice_get (Dataset (dm w)) index) as [oldItem|]; [|discriminate].
    destruct (apply_updates opaque (CurrentUser (dm w)) oldItem
                (range GoValue updates) oldItem (clock w)) as [[[p|] item] t];
      [discriminate|].
    simpl in H. injection H as <-. eauto.
Qed.

Lemma UpdateMetadata_Dataset range w :
  Dataset (dm (UpdateMetadata range w)) = Dataset (dm w).
Proof.
  unfold UpdateMetadata. simpl.
  destruct (foldl scan_item (0, ∅, ∅, ∅) (Dataset (dm w))) as [[[v lc] c] t].
  reflexivity.
Qed.

Lemma UpdateMetadata_Metadata range w :
  Metadata (dm (UpdateMetadata range w)) =
  {| Name := Name (Metadata (dm w));
     MetaVersion := MetaVersion (Metadata (dm w));
     LastModified := clock w;
     TotalItems := len (Dataset (dm w));
     VerifiedItems := foldl scan_verified 0 (Dataset (dm w));
     Labels := mapKeys range (foldl scan_label ∅ (Dataset (dm w)));
     Categories := mapKeys range (foldl scan_category ∅ (Dataset (dm w)));
     MetaTags := mapKeys range (foldl scan_tags ∅ (Dataset (dm w))) |}.
Proof.
  unfold UpdateMetadata. simpl. rewrite scan_split. reflexivity.
Qed.

Lemma UpdateMetadata_Metrics range w :
  Metrics (dm (UpdateMetadata range w)) =
  let ds := Dataset (dm w) in
  let labelCounts := foldl scan_label ∅ ds in
  let verifiedPct :=
    (float64 (foldl scan_verified 0%Z ds) / float64 (len ds) * 100)%float in
  {| Accuracy := Accuracy (Metrics (dm w));
     F1Score := F1Score (Metrics (dm w));
     DatasetSize := len ds;
     VerifiedPct := verifiedPct;
     LabelDistribution := labelCounts;
     QualityScore :=
       ((verifiedPct + calculateDistributionScore range labelCounts) / 2)%float;
     BiasMetrics := calculateBiasMetrics range ds |}.
Proof.
  unfold UpdateMetadata. simpl. rewrite scan_split. reflexivity.
Qed.

Lemma mapKeys_sorted_set range {V} (m : gmap string V) (P : string -> Prop) :
  enumerates range ->
  (forall k, is_Some (m !! k) <-> P k) ->
  sorted_set_of (mapKeys range m) P.
Proof.
  intros Hr HP. split; [by apply mapKeys_sorted|].
  split; [by apply mapKeys_NoDup|].
  intros s. rewrite mapKeys_elem by done. apply HP.
Qed.

(** C5: once metadata and metrics have been recomputed, [verifiedItems]
    is the number of items with [userVerified] set, and the counts of
    [labelDistribution] sum to [totalItems], the number of items, each
    item counting once under its label, the empty label included.  The
    bound on the length is one every Go slice meets. *)
Theorem recomputed_counts_consistent range opaque w :
  recomputed range opaque w ->
  len (Dataset (dm w)) <= max_int ->
  counts_consistent (dm w).
Proof.
  intros [w0 ->]%recomputed_inv. rewrite UpdateMetadata_Dataset.
  intros Hlen. unfold counts_consistent.
  rewrite UpdateMetadata_Metadata, UpdateMetadata_Metrics,
    UpdateMetadata_Dataset. simpl.
  split; [|split; [|split; [done|]]].
  - rewrite scan_verified_fold; [lia | lia | lia].
  - destruct (scan_label_fold (Dataset (dm w0)) ∅) as [H _].
    + intros k c. by rewrite lookup_empty.
    + rewrite sum_counts_empty. lia.
    + rewrite H, sum_counts_empty. lia.
  - intros l. rewrite scan_label_keys, lookup_empty. split; [|auto].
    intros [[? [=]]|H]; done.
Qed.

Lemma recomputed_counts_consistent_witness :
  let w := UpdateMetadata (fun V m => map_to_list m)
             {| dm := set_Dataset
                        [set_Label "pos" (new_item 1 0); new_item 2 0]
                        (dm (NewDataManager 0));
                clock := 1 |} in
  counts_consistent (dm w).
Proof.
  intros w.
  apply (recomputed_counts_consistent (fun V m => map_to_list m) (fun _ => "") w).
  - apply recomputed_UpdateMetadata.
  - vm_compute. discriminate.
Defined.

(** C9: after a recomputation of the metadata, [labels], [categories]
    and [tags] each hold exactly the distinct values found in the items,
    without repetition, in ascending lexicographic order. *)
Theorem recomputed_derived_sets range opaque w :
  enumerates range ->
  recomputed range opaque w ->
  let md := Metadata (dm w) in
  let ds := Dataset (dm w) in
  sorted_set_of (Labels md) (fun s => exists it, it ∈ ds /\ Label it = s) /\
  sorted_set_of (Categories md) (fun s => exists it, it ∈ ds /\ Category it = s) /\
  sorted_set_of (MetaTags md) (fun s => exists it, it ∈ ds /\ s ∈ Tags it).
Proof.
  intros Hr [w0 ->]%recomputed_inv. simpl.
  rewrite UpdateMetadata_Metadata, UpdateMetadata_Dataset. simpl.
  split; [|split]; apply mapKeys_sorted_set; try done; intros k.
  - rewrite scan_label_keys, lookup_empty. split; [|auto].
    intros [[? [=]]|H]; done.
  - rewrite scan_category_keys, lookup_empty. split; [|auto].
    intros [[? [=]]|H]; done.
  - rewrite scan_tags_keys, lookup_empty. split; [|auto].
    intros [[? [=]]|H]; done.
Qed.

Lemma recomputed_derived_sets_witness :
  let w := UpdateMetadata (fun V m => map_to_list m)
             {| dm := set_Dataset
                        [set_Tags ["x"; "a"] (set_Label "pos" (new_item 1 0));
                         set_Tags ["a"] (new_item 2 0)]
                        (dm (NewDataManager 0));
                clock := 1 |} in
  Labels (Metadata (dm w)) = [""; "pos"] /\
  MetaTags (Metadata (dm w)) = ["a"; "x"] /\
  sorted_set_of (Labels (Metadata (dm w)))
    (fun s => exists it, it ∈ Dataset (dm w) /\ Label it = s).
Proof.
  intros w. split; [reflexivity|]. split; [reflexivity|].
  apply (recomputed_derived_sets (fun V m => map_to_list m) (fun _ => "") w).
  - apply enumerates_map_to_list.
  - apply recomputed_UpdateMetadata.
Defined.

(** ** Import *)

Lemma build_headerMap_acc (lower : string -> string) (headers : list string) i0 (m0 : gmap string Z) k i :
  snd (foldl (fun '(i, m) header =>
                (i + 1, <[ToLower lower (TrimSpace header) := i]> m))
             (i0, m0) headers) !! k = Some i ->
  m0 !! k = Some i \/ i0 <= i < i0 + len headers.
Proof.
  revert i0 m0. induction headers as [|h headers IH]; intros i0 m0; simpl.
  - auto.
  - intros H. apply IH in H. rewrite len_cons.
    pose proof (len_nonneg headers).
    destruct H as [H|H]; [|lia].
    apply lookup_insert_Some in H as [[_ <-]|[_ H]]; [lia|auto].
Qed.

Lemma build_headerMap_bound (lower : string -> string) headers k i :
  build_headerMap lower headers !! k = Some i -> 0 <= i < len headers.
Proof.
  intros H. apply build_headerMap_acc in H as [H|H]; [|lia].
  by rewrite lookup_empty in H.
Qed.

Lemma slice_get_is_Some {A} (s : list A) i :
  0 <= i < len s -> is_Some (slice_get s i).
Proof.
  unfold slice_get, len. intros H.
  destruct (Z.ltb_spec i 0); [lia|].
  apply lookup_lt_is_Some. lia.
Qed.

(** With every column in range, filling the item does not panic. *)
Lemma set_field_total record (entries : list (string * Z)) item :
  Forall (fun e => 0 <= e.2 < len record) entries ->
  is_Some (foldl (set_field record) (Some item) entries).
Proof.
  intros H. revert item.
  induction H as [|[header idx] entries Hidx _ IH]; intros item; simpl.
  - eauto.
  - destruct (slice_get_is_Some record idx Hidx) as [v Hv].
    rewrite Hv. simpl.
    repeat (destruct (String.eqb header _); [apply IH|]). apply IH.
Qed.

Section ImportRows.
Variable range : Range.
Hypothesis range_enum : enumerates range.

Lemma range_headerMap_bound (lower : string -> string) headers :
  Forall (fun e => 0 <= e.2 < len headers)
         (range Z (build_headerMap lower headers)).
Proof.
  rewrite (range_enum Z (build_headerMap lower headers)).
  apply Forall_forall. intros [k i] H%elem_of_map_to_list.
  by apply build_headerMap_bound in H.
Qed.

(** The rows before the first malformed one are appended, one item
    each; the loop then returns the error of that row. *)
Lemma import_rows_malformed (lower : string -> string) headers good bad rest w :
  Forall (well_formed_row (length headers)) good ->
  malformed_row (length headers) bad ->
  exists cause items,
    import_rows range (length headers) (build_headerMap lower headers)
      (good ++ bad :: rest) w =
    Returned (Some (ErrRow cause))
      {| dm := set_Dataset (Dataset (dm w) ++ items) (dm w);
         clock := clock w + len good |} /\
    length items = length good.
Proof.
  intros Hgood Hbad. revert w.
  induction Hgood as [|line good (record & -> & Hrec) _ IH]; intros w.
  - simpl.
    destruct Hbad as [->|(record & -> & Hrec)].
    + exists ErrSyntax, []. simpl. rewrite app_nil_r.
      split; [|done]. destruct w as [[] ?]. simpl.
      unfold len. simpl. by rewrite Z.add_0_r.
    + exists ErrFieldCount, []. simpl.
      apply Nat.eqb_neq in Hrec. rewrite Hrec. simpl. rewrite app_nil_r.
      split; [|done]. destruct w as [[] ?]. simpl.
      unfold len. simpl. by rewrite Z.add_0_r.
  - simpl. rewrite Hrec, Nat.eqb_refl. simpl.
    destruct (set_field_total record (range Z (build_headerMap lower headers))
                (new_item (int_add (len (Dataset (dm w))) 1) (clock w)))
      as [item Hitem].
    { replace (len record) with (len headers) by (unfold len; by rewrite Hrec).
      apply range_headerMap_bound. }
    rewrite Hitem.
    destruct (IH {| dm := set_Dataset (Dataset (dm w) ++ [item]) (dm w);
                    clock := clock w + 1 |}) as (cause & items & -> & Hlen).
    exists cause, (item :: items). simpl. rewrite <- app_assoc. simpl.
    split; [|by rewrite Hlen].
    f_equal. f_equal. rewrite len_cons. lia.
Qed.
End ImportRows.

(** C10: when a data row is malformed, [ImportCSV] returns an error; the
    items of the rows before it stay appended to the store, while
    [Metadata] and [Metrics] are left as they were, so that they do not
    count those items until a later recomputation. *)
Theorem ImportCSV_malformed_row (lower : string -> string) range headers good bad rest w :
  enumerates range ->
  Forall (well_formed_row (length headers)) good ->
  malformed_row (length headers) bad ->
  exists cause items w',
    ImportCSV range lower (Record_ headers :: good ++ bad :: rest) w =
      Returned (Some (ErrRow cause)) w' /\
    Dataset (dm w') = Dataset (dm w) ++ items /\
    length items = length good /\
    Metadata (dm w') = Metadata (dm w) /\
    Metrics (dm w') = Metrics (dm w) /\
    (TotalItems (Metadata (dm w)) = len (Dataset (dm w)) -> good <> [] ->
     TotalItems (Metadata (dm w')) <> len (Dataset (dm w'))) /\
    TotalItems (Metadata (dm (UpdateMetadata range w'))) = len (Dataset (dm w')).
Proof.
  intros Hr Hgood Hbad.
  destruct (import_rows_malformed range Hr lower headers good bad rest w Hgood Hbad)
    as (cause & items & Hrows & Hlen).
  eexists cause, items, _. unfold ImportCSV. rewrite Hrows.
  split; [reflexivity|]. simpl.
  repeat split; try done.
  - intros Hsync Hne. rewrite Hsync. unfold len. rewrite length_app, Hlen.
    destruct good; [done|]. simpl. lia.
  - by rewrite UpdateMetadata_Metadata.
Qed.

Lemma ImportCSV_malformed_row_witness :
  exists cause items w',
    ImportCSV (fun V m => map_to_list m) id
      (Record_ ["text"; "label"] ::
       [Record_ ["a"; "pos"]] ++ Record_ ["b"] :: [Record_ ["c"; "neg"]])
      (NewDataManager 0) =
      Returned (Some (ErrRow cause)) w' /\
    Dataset (dm w') = Dataset (dm (NewDataManager 0)) ++ items /\
    length items = 1%nat /\
    Metadata (dm w') = Metadata (dm (NewDataManager 0)) /\
    Metrics (dm w') = Metrics (dm (NewDataManager 0)) /\
    TotalItems (Metadata (dm w')) <> len (Dataset (dm w')).
Proof.
  destruct (ImportCSV_malformed_row id (fun V m => map_to_list m)
              ["text"; "label"] [Record_ ["a"; "pos"]] (Record_ ["b"])
              [Record_ ["c"; "neg"]] (NewDataManager 0))
    as (cause & items & w' & H1 & H2 & H3 & H4 & H5 & H6 & _).
  - apply enumerates_map_to_list.
  - repeat constructor. by exists ["a"; "pos"].
  - right. exists ["b"]. split; [reflexivity | simpl; lia].
  - exists cause, items, w'.
    split; [exact H1|]. split; [exact H2|]. split; [exact H3|].
    split; [exact H4|]. split; [exact H5|].
    apply H6; [reflexivity | discriminate].
Defined.

(** ** Item update *)

Lemma slice_get_None {A} (s : list A) i :
  slice_get s i = None <-> i < 0 \/ len s <= i.
Proof.
  unfold slice_get, len. destruct (Z.ltb_spec i 0) as [Hi|Hi].
  - split; auto.
  - rewrite lookup_ge_None. lia.
Qed.

Lemma slice_get_Some {A} (s : list A) i x :
  slice_get s i = Some x -> 0 <= i < len s /\ s !! Z.to_nat i = Some x.
Proof.
  unfold slice_get, len. destruct (Z.ltb_spec i 0) as [Hi|Hi]; [done|].
  intros H. split; [|done]. apply lookup_lt_Some in H. lia.
Qed.

Lemma recognized_cases field :
  recognized field = true ->
  field = "label" \/ field = "tags" \/ field = "category".
Proof.
  unfold recognized. rewrite !orb_true_iff, !String.eqb_eq. tauto.
Qed.

Lemma recognized_not_struct_field field :
  recognized field = true -> struct_field field = false.
Proof. intros [->|[->| ->]]%recognized_cases; reflexivity. Qed.

Lemma FieldByName_None it field :
  struct_field field = false -> FieldByName it field = None.
Proof.
  unfold struct_field, field_names, FieldByName. simpl.
  rewrite !orb_false_iff. intros H.
  do 13 (destruct H as [E H]; rewrite E; clear E). reflexivity.
Qed.

Lemma FieldByName_Some it field :
  struct_field field = true -> is_Some (FieldByName it field).
Proof.
  unfold struct_field, field_names, FieldByName. simpl.
  repeat (destruct (String.eqb field _); [eauto|]). discriminate.
Qed.

Lemma struct_field_not_recognized field :
  struct_field field = true -> recognized field = false.
Proof.
  intros H. destruct (recognized field) eqn:E; [|done].
  apply recognized_not_struct_field in E. congruence.
Qed.

Lemma assign_field_unrecognized field value item :
  recognized field = false -> assign_field field value item = Some item.
Proof.
  unfold recognized, assign_field. rewrite !orb_false_iff.
  intros [[-> ->] ->]. reflexivity.
Qed.

(** The assignments of the [switch] do not touch the audit trail. *)
Lemma assign_field_trail field value item item' :
  assign_field field value item = Some item' -> same_trail item' item.
Proof.
  unfold assign_field, same_trail.
  repeat (destruct (String.eqb field _);
          [destruct value; intros [= <-]; done|]).
  by intros [= <-].
Qed.

(** An update whose first field is not the name of a struct field stops
    there with a panic, before any change record is appended. *)
Lemma apply_updates_first_panics opaque user oldItem field value rest item t :
  struct_field field = false ->
  exists p item' t',
    apply_updates opaque user oldItem ((field, value) :: rest) item t =
      (Some p, item', t') /\
    same_trail item' item /\
    (recognized field = false -> item' = item /\ p = ReflectZeroValue).
Proof.
  intros Hf. simpl.
  destruct (assign_field field value item) as [item1|] eqn:Ha.
  - rewrite (FieldByName_None oldItem field Hf).
    exists ReflectZeroValue, item1, (t + 1). split; [done|].
    split; [by eapply assign_field_trail|].
    intros Hr. rewrite assign_field_unrecognized in Ha by done.
    by injection Ha as <-.
  - exists TypeAssertion, item, t. split; [done|]. split; [done|].
    intros Hr. rewrite assign_field_unrecognized in Ha by done. done.
Qed.

(** Updates that all name struct fields run to the end: one record each,
    no value changed. *)
Lemma apply_updates_struct_fields opaque user oldItem updates item t :
  Forall (fun e => struct_field e.1 = true) updates ->
  exists item' records,
    apply_updates opaque user oldItem updates item t =
      (None, item', t + len updates) /\
    same_values item' item /\
    Version item' = Version item /\
    LastUpdated item' = LastUpdated item /\
    History item' = History item ++ records /\
    Field <$> records = updates.*1.
Proof.
  intros H. revert item t.
  induction H as [|[field value] updates Hf _ IH]; intros item t; simpl in *.
  - exists item, []. unfold len. simpl. rewrite Z.add_0_r, app_nil_r.
    repeat split.
  - rewrite assign_field_unrecognized by by apply struct_field_not_recognized.
    destruct (FieldByName_Some oldItem field Hf) as [old ->].
    set (record := {| Timestamp := t; User := user; Field := field;
                      OldValue := Sprint opaque old;
                      NewValue := Sprint opaque value |}).
    destruct (IH (set_History (History item ++ [record]) item) (t + 1))
      as (item' & records & -> & Hv & Hver & Hlu & Hh & Hf').
    exists item', (record :: records). simpl in *.
    rewrite len_cons. split; [f_equal; lia|].
    split; [exact Hv|]. split; [exact Hver|]. split; [exact Hlu|].
    split; [by rewrite Hh, <- app_assoc | by f_equal].
Qed.

Lemma slice_get_insert {A} (s : list A) i old x :
  slice_get s i = Some old -> slice_get (<[Z.to_nat i := x]> s) i = Some x.
Proof.
  intros [Hi Hl]%slice_get_Some. unfold slice_get.
  destruct (Z.ltb_spec i 0) as [H|H]; [lia|].
  apply list_lookup_insert_eq. unfold len in Hi. lia.
Qed.

Lemma set_Dataset_id d : set_Dataset (Dataset d) d = d.
Proof. by destruct d. Qed.

Lemma range_first (range : Range) {V} (m : gmap string V) :
  enumerates range -> m <> ∅ ->
  exists k v rest, range V m = (k, v) :: rest /\ m !! k = Some v.
Proof.
  intros Hr Hm. destruct (range V m) as [|[k v] rest] eqn:E.
  - exfalso. apply Hm, map_to_list_empty_iff.
    apply Permutation_nil_r. by rewrite <- (Hr V m), E.
  - exists k, v, rest. split; [done|].
    apply elem_of_map_to_list. rewrite <- (Hr V m), E. apply elem_of_cons. auto.
Qed.

Lemma range_length (range : Range) {V} (m : gmap string V) :
  enumerates range -> length (range V m) = size m.
Proof. intros Hr. by rewrite (Hr V m), length_map_to_list. Qed.

Lemma range_singleton (range : Range) {V} k (v : V) :
  enumerates range -> range V {[k := v]} = [(k, v)].
Proof.
  intros Hr. apply Permutation_singleton_r.
  by rewrite (Hr V {[k := v]}), map_to_list_singleton.
Qed.

Lemma UpdateItem_panicked (range : Range) opaque index updates w oldItem p item' t' :
  slice_get (Dataset (dm w)) index = Some oldItem ->
  apply_updates opaque (CurrentUser (dm w)) oldItem (range GoValue updates)
    oldItem (clock w) = (Some p, item', t') ->
  UpdateItem range opaque index updates w =
  Panicked p
    {| dm := set_Dataset (<[Z.to_nat index := item']> (Dataset (dm w))) (dm w);
       clock := t' |}.
Proof. intros Hget Hloop. unfold UpdateItem. by rewrite Hget, Hloop. Qed.

Lemma UpdateItem_returned (range : Range) opaque index updates w oldItem item' t' :
  slice_get (Dataset (dm w)) index = Some oldItem ->
  apply_updates opaque (CurrentUser (dm w)) oldItem (range GoValue updates)
    oldItem (clock w) = (None, item', t') ->
  UpdateItem range opaque index updates w =
  Returned tt
    (UpdateMetadata range
       {| dm := set_Dataset
                  (<[Z.to_nat index :=
                       set_Version (int_add (Version item') 1)
                         (set_LastUpdated t' item')]> (Dataset (dm w)))
                  (dm w);
          clock := t' + 1 |}).
Proof. intros Hget Hloop. unfold UpdateItem. by rewrite Hget, Hloop. Qed.

(** C3: the specification's invariant of [UpdateItem] on recognized
    fields (version up by one, one history entry more per field) is not
    what the code does: on every non-empty update over recognized fields
    the call panics instead of returning, with the version and the
    history of the item as they were. *)
Theorem UpdateItem_recognized_never_returns
    range opaque index updates w oldItem :
  enumerates range ->
  slice_get (Dataset (dm w)) index = Some oldItem ->
  updates <> ∅ ->
  (forall k, is_Some (updates !! k) -> recognized k = true) ->
  exists p w' item',
    UpdateItem range opaque index updates w = Panicked p w' /\
    slice_get (Dataset (dm w')) index = Some item' /\
    Version item' = Version oldItem /\
    History item' = History oldItem /\
    Metadata (dm w') = Metadata (dm w).
Proof.
  intros Hr Hget Hne Hrec.
  destruct (range_first range updates Hr Hne) as (k & v & rest & Hrange & Hk).
  assert (Hs : struct_field k = false).
  { apply recognized_not_struct_field, Hrec. eauto. }
  destruct (apply_updates_first_panics opaque (CurrentUser (dm w)) oldItem
              k v rest oldItem (clock w) Hs)
    as (p & item' & t' & Hloop & (Hh & Hv & _) & _).
  rewrite <- Hrange in Hloop.
  eexists p, _, item'. split; [by eapply UpdateItem_panicked|]. simpl.
  split; [by eapply slice_get_insert|]. done.
Qed.

Lemma UpdateItem_recognized_never_returns_witness :
  let w := {| dm := set_Dataset [set_Label "pos" (new_item 1 0)]
                      (dm (NewDataManager 0));
              clock := 1 |} in
  exists p w' item',
    UpdateItem (fun V m => map_to_list m) (fun _ => "") 0
      {["label" := VString "neg"; "category" := VString "news"]} w
      = Panicked p w' /\
    slice_get (Dataset (dm w')) 0 = Some item' /\
    Version item' = 0 /\
    History item' = [] /\
    Metadata (dm w') = Metadata (dm w).
Proof.
  intros w.
  apply (UpdateItem_recognized_never_returns (fun V m => map_to_list m)
           (fun _ => "") 0
           {["label" := VString "neg"; "category" := VString "news"]} w
           (set_Label "pos" (new_item 1 0))).
  - apply enumerates_map_to_list.
  - reflexivity.
  - intros H. apply (f_equal (fun m => m !! "label")) in H.
    vm_compute in H. discriminate.
  - intros k [v Hk].
    apply lookup_insert_Some in Hk as [[<- _]|[_ Hk]]; [reflexivity|].
    apply lookup_singleton_Some in Hk as [<- _]. reflexivity.
Defined.

(** C4: capturing the change record does not succeed for the recognized
    field names: [FieldByName] finds no struct field called [label],
    [tags] or [category], and the call panics.  When the new value has
    the type the field expects, the field has then already taken it, yet
    no change record is appended, the version is not bumped and
    [lastUpdated] is not set. *)
Theorem UpdateItem_record_capture_panics
    range opaque index field value w oldItem :
  enumerates range ->
  slice_get (Dataset (dm w)) index = Some oldItem ->
  recognized field = true ->
  exists p w' item',
    UpdateItem range opaque index {[field := value]} w = Panicked p w' /\
    slice_get (Dataset (dm w')) index = Some item' /\
    same_trail item' oldItem /\
    match assign_field field value oldItem with
    | Some assigned => p = ReflectZeroValue /\ item' = assigned
    | None => p = TypeAssertion /\ item' = oldItem
    end.
Proof.
  intros Hr Hget Hrec.
  pose proof (recognized_not_struct_field field Hrec) as Hs.
  assert (Hloop :
    apply_updates opaque (CurrentUser (dm w)) oldItem
      (range GoValue {[field := value]}) oldItem (clock w) =
    match assign_field field value oldItem with
    | Some assigned => (Some ReflectZeroValue, assigned, clock w + 1)
    | None => (Some TypeAssertion, oldItem, clock w)
    end).
  { rewrite (range_singleton range field value Hr). simpl.
    destruct (assign_field field value oldItem); [|done].
    by rewrite (FieldByName_None oldItem field Hs). }
  destruct (assign_field field value oldItem) as [assigned|] eqn:Ha.
  - eexists ReflectZeroValue, _, assigned.
    split; [by eapply UpdateItem_panicked|]. simpl.
    split; [by eapply slice_get_insert|].
    split; [by eapply assign_field_trail|done].
  - eexists TypeAssertion, _, oldItem.
    split; [by eapply UpdateItem_panicked|]. simpl.
    split; [by eapply slice_get_insert|]. done.
Qed.

Lemma UpdateItem_record_capture_panics_witness :
  let w := {| dm := set_Dataset [set_Label "pos" (new_item 1 0)]
                      (dm (NewDataManager 0));
              clock := 1 |} in
  exists w' item',
    UpdateItem (fun V m => map_to_list m) (fun _ => "") 0
      {["label" := VString "neg"]} w = Panicked ReflectZeroValue w' /\
    slice_get (Dataset (dm w')) 0 = Some item' /\
    Label item' = "neg" /\ History item' = [] /\ Version item' = 0 /\
    LastUpdated item' = 0.
Proof.
  intros w.
  destruct (UpdateItem_record_capture_panics (fun V m => map_to_list m)
              (fun _ => "") 0 "label" (VString "neg") w
              (set_Label "pos" (new_item 1 0)))
    as (p & w' & item' & Hout & Hget & (Hh & Hv & Hl) & Hp & Hi).
  - apply enumerates_map_to_list.
  - reflexivity.
  - reflexivity.
  - exists w', item'. rewrite Hout, Hp, Hget, Hh, Hv, Hl, Hi.
    repeat split.
Defined.

Lemma same_values_refl item : same_values item item.
Proof. repeat split. Qed.

(** Over names outside the recognized set the loop assigns nothing: it
    appends one record per name that is a field of the struct, and
    panics at the first name that is none. *)
Lemma apply_updates_unrecognized opaque user oldItem updates item t :
  Forall (fun e => recognized e.1 = false) updates ->
  exists item' t' records,
    apply_updates opaque user oldItem updates item t =
      (if forallb struct_field updates.*1 then None
       else Some ReflectZeroValue, item', t') /\
    same_values item' item /\
    Version item' = Version item /\
    LastUpdated item' = LastUpdated item /\
    History item' = History item ++ records /\
    Field <$> records = struct_prefix updates.*1 /\
    Forall (records_update opaque user oldItem updates) records.
Proof.
  intros H. revert item t.
  induction H as [|[field value] updates Hf _ IH]; intros item t.
  - exists item, t, []. rewrite app_nil_r. simpl.
    split; [done|]. split; [apply same_values_refl|]. done.
  - cbn [apply_updates fmap list_fmap forallb struct_prefix fst] in *.
    rewrite assign_field_unrecognized by done. cbn [time_Now].
    destruct (struct_field field) eqn:Hs; cbn [andb].
    + destruct (FieldByName_Some oldItem field Hs) as [old Hold].
      rewrite Hold.
      set (record := {| Timestamp := t; User := user; Field := field;
                        OldValue := Sprint opaque old;
                        NewValue := Sprint opaque value |}).
      destruct (IH (set_History (History item ++ [record]) item) (t + 1))
        as (item' & t' & records & -> & Hv & Hver & Hlu & Hh & Hfs & Hrec).
      exists item', t', (record :: records).
      split; [done|]. split; [exact Hv|]. split; [exact Hver|].
      split; [exact Hlu|].
      split; [rewrite Hh; cbn [History set_History]; by rewrite <- app_assoc|].
      split; [rewrite fmap_cons; cbn [Field]; by rewrite Hfs|].
      constructor.
      * split; [done|]. exists value, old. cbn [Field OldValue NewValue].
        split; [apply elem_of_cons; by left|done].
      * eapply Forall_impl; [exact Hrec|].
        intros r (Hu & v & o & Hin & Ho & Hov & Hnv). split; [done|].
        exists v, o. split; [apply elem_of_cons; by right|done].
    + rewrite (FieldByName_None oldItem field Hs).
      exists item, (t + 1), []. rewrite app_nil_r.
      split; [done|]. split; [apply same_values_refl|]. done.
Qed.

(** C2: [UpdateItem] has no error for an unknown field, and does not
    reject in full.  With an index that is no position of the store it
    panics (index out of range) and nothing is changed.  With a valid
    index and an update whose names are all outside the recognized set,
    it visits the names in the order of the map: for each name that is,
    letter for letter, a field of the item struct ([Label], say) it
    appends a change record from the old value to the new one, although
    its [switch] has assigned nothing and every value of the item is as
    before; at the first name that is no field of the struct it panics
    in the reflective lookup, leaving the records appended so far.
    When no such name comes it returns, with the version incremented. *)
Theorem UpdateItem_unknown_fields (range : Range) opaque index updates w :
  enumerates range ->
  (index < 0 \/ len (Dataset (dm w)) <= index ->
   UpdateItem range opaque index updates w = Panicked IndexOutOfRange w) /\
  (forall oldItem,
     slice_get (Dataset (dm w)) index = Some oldItem ->
     (forall k, is_Some (updates !! k) -> recognized k = false) ->
     let keys := (range GoValue updates).*1 in
     exists w' item' records,
       UpdateItem range opaque index updates w =
         (if forallb struct_field keys then Returned tt w'
          else Panicked ReflectZeroValue w') /\
       slice_get (Dataset (dm w')) index = Some item' /\
       same_values item' oldItem /\
       History item' = History oldItem ++ records /\
       Field <$> records = struct_prefix keys /\
       Forall (records_update opaque (CurrentUser (dm w)) oldItem
                 (range GoValue updates)) records /\
       Version item' =
         (if forallb struct_field keys then int_add (Version oldItem) 1
          else Version oldItem)).
Proof.
  intros Hr. split.
  - intros Hidx. apply slice_get_None in Hidx.
    unfold UpdateItem. by rewrite Hidx.
  - intros oldItem Hget Hunrec. cbv zeta.
    destruct (apply_updates_unrecognized opaque (CurrentUser (dm w)) oldItem
                (range GoValue updates) oldItem (clock w))
      as (item' & t' & records & Hloop & Hv & Hver & Hlu & Hh & Hf & Hrec).
    { apply Forall_forall. intros [k v] Hin. simpl. apply Hunrec.
      rewrite (Hr GoValue updates) in Hin.
      apply elem_of_map_to_list in Hin. eauto. }
    destruct (forallb struct_field (range GoValue updates).*1).
    + eexists _, _, records.
      split; [by eapply UpdateItem_returned|].
      rewrite UpdateMetadata_Dataset. cbn [dm Dataset set_Dataset].
      split; [by eapply slice_get_insert|].
      split; [exact Hv|]. split; [exact Hh|]. split; [exact Hf|].
      split; [exact Hrec|]. cbn. by rewrite Hver.
    + eexists _, item', records.
      split; [by eapply UpdateItem_panicked|].
      cbn [dm Dataset set_Dataset].
      split; [by eapply slice_get_insert|].
      split; [exact Hv|]. split; [exact Hh|]. split; [exact Hf|].
      split; [exact Hrec|exact Hver].
Qed.

Lemma UpdateItem_unknown_fields_witness :
  (exists w',
     UpdateItem (fun V m => map_to_list m) (fun _ => "") 0
       {["Label" := VString "neg"]}
       {| dm := set_Dataset [set_Label "pos" (new_item 1 0)]
                  (dm (NewDataManager 0));
          clock := 1 |} = Returned tt w' /\
     Dataset (dm w') =
       [set_Version 1
          (set_LastUpdated 2
             (set_History
                [{| Timestamp := 1; User := ""; Field := "Label";
                    OldValue := "pos"; NewValue := "neg" |}]
                (set_Label "pos" (new_item 1 0))))]) /\
  (exists w',
     UpdateItem (fun V m => reverse (map_to_list m)) (fun _ => "") 0
       {["Label" := VString "x"; "colour" := VString "red"]}
       {| dm := set_Dataset [set_Label "pos" (new_item 1 0)]
                  (dm (NewDataManager 0));
          clock := 1 |} = Panicked ReflectZeroValue w' /\
     Dataset (dm w') =
       [set_History
          [{| Timestamp := 1; User := ""; Field := "Label";
              OldValue := "pos"; NewValue := "x" |}]
          (set_Label "pos" (new_item 1 0))]).
Proof.
  split.
  - destruct (proj2 (UpdateItem_unknown_fields (fun V m => map_to_list m)
                       (fun _ => "") 0 {["Label" := VString "neg"]}
                       {| dm := set_Dataset [set_Label "pos" (new_item 1 0)]
                                  (dm (NewDataManager 0));
                          clock := 1 |} enumerates_map_to_list)
                (set_Label "pos" (new_item 1 0)) eq_refl)
      as (w' & item' & records & Hw & _).
    + intros k [v Hk]. apply lookup_singleton_Some in Hk as [<- _].
      reflexivity.
    + exists w'. pose proof Hw as Hw'. vm_compute in Hw'.
      injection Hw' as <-. split; [exact Hw|]. vm_compute. reflexivity.
  - destruct (proj2 (UpdateItem_unknown_fields
                       (fun V m => reverse (map_to_list m))
                       (fun _ => "") 0
                       {["Label" := VString "x"; "colour" := VString "red"]}
                       {| dm := set_Dataset [set_Label "pos" (new_item 1 0)]
                                  (dm (NewDataManager 0));
                          clock := 1 |}
                       ltac:(intros V m; apply reverse_Permutation))
                (set_Label "pos" (new_item 1 0)) eq_refl)
      as (w' & item' & records & Hw & _).
    + intros k [v Hk].
      apply lookup_insert_Some in Hk as [[<- _]|[_ Hk]]; [reflexivity|].
      apply lookup_singleton_Some in Hk as [<- _]. reflexivity.
    + exists w'. pose proof Hw as Hw'. vm_compute in Hw'.
      injection Hw' as <-. split; [exact Hw|]. vm_compute. reflexivity.
Defined.

(** ** Metrics *)

Lemma range_empty (range : Range) {V} :
  enumerates range -> range V ∅ = [].
Proof.
  intros Hr. apply Permutation_nil_r.
  rewrite <- (map_to_list_empty (A := V)). apply (Hr V ∅).
Qed.

(** C1: on an empty store the specification wants [verifiedPct] to be 0,
    the other metrics not to be computed and the bias map to be empty.
    The code divides by zero instead: [verifiedPct] and the quality
    score are NaN, and the bias map holds [distribution_bias], NaN too. *)
Theorem UpdateMetadata_empty_store (range : Range) w :
  enumerates range ->
  Dataset (dm w) = [] ->
  let m := Metrics (dm (UpdateMetadata range w)) in
  VerifiedPct m = nan /\
  BiasMetrics m = {["distribution_bias" := nan]} /\
  QualityScore m = nan /\
  VerifiedPct m <> 0%float /\
  BiasMetrics m <> ∅.
Proof.
  intros Hr Hds. rewrite UpdateMetadata_Metrics, Hds. simpl.
  assert (Hbias : calculateBiasMetrics range [] = {["distribution_bias" := nan]}).
  { unfold calculateBiasMetrics. simpl. by rewrite (range_empty range Hr). }
  rewrite Hbias. unfold calculateDistributionScore. rewrite map_size_empty.
  simpl. repeat split.
  - vm_compute. discriminate.
  - intros H. apply (f_equal (fun m => m !! "distribution_bias")) in H.
    rewrite lookup_singleton_eq, lookup_empty in H. discriminate.
Qed.

Lemma UpdateMetadata_empty_store_witness :
  let m := Metrics (dm (UpdateMetadata (fun V m => map_to_list m)
                          (NewDataManager 0))) in
  VerifiedPct m = nan /\ BiasMetrics m = {["distribution_bias" := nan]}.
Proof.
  intros m.
  destruct (UpdateMetadata_empty_store (fun V m => map_to_list m)
              (NewDataManager 0) enumerates_map_to_list eq_refl)
    as (H1 & H2 & _).
  split; [exact H1 | exact H2].
Defined.

(** *** The distribution-balance score *)

Lemma sum_list_perm l1 l2 : l1 ≡ₚ l2 -> sum_list l1 = sum_list l2.
Proof.
  unfold sum_list. induction 1; simpl; lia.
Qed.

Lemma sum_counts_list (m : gmap string Z) :
  sum_counts m = sum_list (map_to_list m).*2.
Proof.
  unfold sum_counts, sum_list. rewrite map_fold_foldr.
  induction (map_to_list m) as [|[k c] l IH]; simpl; [done|]. by rewrite IH.
Qed.

Lemma sum_list_cons c l : sum_list (c :: l) = c + sum_list l.
Proof. reflexivity. Qed.

Lemma sum_list_nonneg (entries : list (string * Z)) :
  Forall (fun e => 0 <= e.2) entries -> 0 <= sum_list entries.*2.
Proof.
  induction 1 as [|[k c] l Hc _ IH].
  - unfold sum_list. simpl. lia.
  - rewrite fmap_cons, sum_list_cons. cbn [snd] in *. lia.
Qed.

(** Without overflow the loop that totals the counts adds them up. *)
Lemma total_fold (entries : list (string * Z)) (total : Z) :
  Forall (fun e => 0 <= e.2) entries ->
  0 <= total -> total + sum_list entries.*2 <= max_int ->
  foldl (fun total '(_, count) => int_add total count) total entries =
  total + sum_list entries.*2.
Proof.
  intros H. revert total.
  induction H as [|[k c] entries Hc Hall IH]; intros total Ht Hmax.
  - unfold sum_list. simpl. lia.
  - rewrite fmap_cons, sum_list_cons in *. cbn [snd] in *.
    pose proof (sum_list_nonneg entries Hall) as Hnn.
    cbn [foldl]. unfold int_add.
    rewrite wrap64_small by (unfold max_int in *; lia).
    rewrite IH; lia.
Qed.

Lemma deviation_fold expected (entries : list (string * Z)) (acc : float) :
  foldl (fun deviation '(_, count) =>
           let diff := (float64 count - expected)%float in
           (deviation + diff * diff)%float) acc entries =
  foldl PrimFloat.add acc
    ((fun c => (float64 c - expected) * (float64 c - expected))%float
       <$> entries.*2).
Proof.
  revert acc. induction entries as [|[k c] entries IH]; intros acc; simpl.
  - done.
  - by rewrite IH.
Qed.

(** C6: the distribution-balance score of a non-empty label-count map is
    [(1 - variance / expected^2) * 100], with [expected] the mean count
    and [variance] the population variance of the counts around it; the
    score of the empty map is 0. *)
Theorem calculateDistributionScore_spec (range : Range) (counts : gmap string Z) :
  enumerates range ->
  (forall k c, counts !! k = Some c -> 0 <= c) ->
  sum_counts counts <= max_int ->
  calculateDistributionScore range counts = balance_score (range Z counts).*2 /\
  (counts = ∅ -> calculateDistributionScore range counts = 0%float) /\
  (counts <> ∅ ->
   let visited := (range Z counts).*2 in
   let expected :=
     (float64 (sum_counts counts) / float64 (Z.of_nat (size counts)))%float in
   calculateDistributionScore range counts =
   ((1 - population_variance expected visited / (expected * expected))
    * 100)%float).
Proof.
  intros Hr Hpos Hmax.
  assert (Hlen : len (range Z counts).*2 = Z.of_nat (size counts)).
  { unfold len. by rewrite length_fmap, (range_length range counts Hr). }
  assert (Hsum : sum_list (range Z counts).*2 = sum_counts counts).
  { rewrite sum_counts_list. apply sum_list_perm. by rewrite (Hr Z counts). }
  assert (Htotal :
    foldl (fun total '(_, count) => int_add total count) 0 (range Z counts)
    = sum_counts counts).
  { rewrite total_fold; [lia| |lia|lia].
    apply Forall_forall. intros [k c] Hin. simpl. apply (Hpos k).
    rewrite (Hr Z counts) in Hin. by apply elem_of_map_to_list in Hin. }
  assert (Hne : counts <> ∅ ->
    calculateDistributionScore range counts =
    ((1 - population_variance
            (float64 (sum_counts counts) / float64 (Z.of_nat (size counts)))
            (range Z counts).*2
          / (float64 (sum_counts counts) / float64 (Z.of_nat (size counts))
             * (float64 (sum_counts counts) / float64 (Z.of_nat (size counts)))))
     * 100)%float).
  { intros Hm. unfold calculateDistributionScore.
    apply map_size_non_empty_iff in Hm.
    destruct (Z.eqb_spec (Z.of_nat (size counts)) 0) as [E|_]; [lia|].
    rewrite Htotal, deviation_fold.
    unfold population_variance, fsum. by rewrite Hlen. }
  assert (Hempty : counts = ∅ -> calculateDistributionScore range counts = 0%float).
  { intros ->. unfold calculateDistributionScore. by rewrite map_size_empty. }
  split; [|split; [exact Hempty | exact Hne]].
  destruct (decide (counts = ∅)) as [->|Hm].
  - rewrite Hempty by done. by rewrite (range_empty range Hr).
  - rewrite (Hne Hm). unfold balance_score, mean_count.
    destruct ((range Z counts).*2) as [|c l] eqn:E.
    + exfalso. apply map_size_non_empty_iff in Hm.
      unfold len in Hlen. simpl in Hlen. lia.
    + by rewrite Hsum, Hlen.
Qed.

Lemma calculateDistributionScore_spec_witness :
  let counts : gmap string Z := {["pos" := 3; "neg" := 1]} in
  calculateDistributionScore (fun V m => map_to_list m) counts =
    balance_score (map_to_list counts).*2 /\
  calculateDistributionScore (fun V m => map_to_list m) counts = 75%float.
Proof.
  intros counts. split; [|vm_compute; reflexivity].
  refine (proj1 (calculateDistributionScore_spec (fun V m => map_to_list m)
                   counts enumerates_map_to_list _ _)).
  - intros k c Hk.
    apply lookup_insert_Some in Hk as [[_ <-]|[_ Hk]]; [lia|].
    apply lookup_singleton_Some in Hk as [_ <-]. lia.
  - vm_compute. discriminate.
Defined.

(** *** Scenario A *)

Lemma perm_pair {A} (l : list A) a b :
  l ≡ₚ [a; b] -> l = [a; b] \/ l = [b; a].
Proof.
  intros H. pose proof (Permutation_length H) as Hlen.
  destruct l as [|x [|y [|z l]]]; try discriminate.
  assert (Hx : x ∈ [a; b]) by (rewrite <- H; apply elem_of_cons; auto).
  apply elem_of_cons in Hx as [->|Hx].
  - apply Permutation_cons_inv, Permutation_singleton_r in H. left. congruence.
  - apply list_elem_of_singleton in Hx as ->.
    rewrite (perm_swap b a []) in H.
    apply Permutation_cons_inv, Permutation_singleton_r in H. right. congruence.
Qed.

(** C7: importing the two rows [a,pos] and [b,neg] into an empty store
    gives the label distribution [{pos: 1, neg: 1}], a distribution
    score of 100 and a verified percentage of 0. *)
Theorem scenario_A_metrics (lower : string -> string) (range : Range) t :
  enumerates range ->
  exists w,
    ImportCSV range lower scenario_A (NewDataManager t) = Returned None w /\
    (Text <$> Dataset (dm w)) = ["a"; "b"] /\
    (Label <$> Dataset (dm w)) = ["pos"; "neg"] /\
    (UserVerified <$> Dataset (dm w)) = [false; false] /\
    LabelDistribution (Metrics (dm w)) = {["pos" := 1; "neg" := 1]} /\
    calculateDistributionScore range (LabelDistribution (Metrics (dm w)))
      = 100%float /\
    VerifiedPct (Metrics (dm w)) = 0%float.
Proof.
  intros Hr.
  pose proof (Hr Z (build_headerMap lower ["text"; "label"])) as Hhm.
  replace (map_to_list (build_headerMap lower ["text"; "label"]))
    with [("label", 1); ("text", 0)] in Hhm by (vm_compute; reflexivity).
  pose proof (Hr Z {["pos" := 1; "neg" := 1]}) as Hlc.
  replace (map_to_list ({["pos" := 1; "neg" := 1]} : gmap string Z))
    with [("neg", 1); ("pos", 1)] in Hlc by (vm_compute; reflexivity).
  assert (Hscore :
    calculateDistributionScore range {["pos" := 1; "neg" := 1]} = 100%float).
  { unfold calculateDistributionScore.
    replace (size ({["pos" := 1; "neg" := 1]} : gmap string Z)) with 2%nat
      by (vm_compute; reflexivity).
    apply perm_pair in Hlc as [-> | ->]; vm_compute; reflexivity. }
  remember (build_headerMap lower ["text"; "label"]) as hm eqn:Ehm.
  unfold ImportCSV, scenario_A. rewrite <- Ehm. cbn [length].
  assert (Hrows : exists i1 i2 c,
    import_rows range 2 hm [Record_ ["a"; "pos"]; Record_ ["b"; "neg"]]
      (NewDataManager t) =
    Returned None
      {| dm := set_Dataset [i1; i2] (dm (NewDataManager t)); clock := c |} /\
    Text <$> [i1; i2] = ["a"; "b"] /\ Label <$> [i1; i2] = ["pos"; "neg"] /\
    UserVerified <$> [i1; i2] = [false; false]).
  { cbn [import_rows length Nat.eqb negb NewDataManager time_Now dm clock
           Dataset set_Dataset app].
    apply perm_pair in Hhm as [-> | ->];
      (eexists _, _, _; split; [cbn; reflexivity | repeat split; reflexivity]). }
  destruct Hrows as (i1 & i2 & c & -> & HT & HL & HV).
  eexists. split; [reflexivity|].
  rewrite UpdateMetadata_Dataset, UpdateMetadata_Metrics.
  cbn [dm Dataset set_Dataset LabelDistribution VerifiedPct].
  pose proof HL as HL'. injection HL' as HL1 HL2.
  pose proof HV as HV'. injection HV' as HV1 HV2.
  assert (Hlabels : foldl scan_label ∅ [i1; i2] = {["pos" := 1; "neg" := 1]}).
  { cbn [foldl]. unfold scan_label. rewrite HL1, HL2.
    vm_compute. reflexivity. }
  assert (Hverified : foldl scan_verified 0 [i1; i2] = 0).
  { cbn [foldl]. unfold scan_verified. by rewrite HV1, HV2. }
  rewrite Hlabels, Hverified, Hscore.
  split; [exact HT|]. split; [exact HL|]. split; [exact HV|].
  split; [reflexivity|]. split; [reflexivity|].
  vm_compute. reflexivity.
Qed.

Lemma scenario_A_metrics_witness :
  exists w,
    ImportCSV (fun V m => map_to_list m) id scenario_A (NewDataManager 0)
      = Returned None w /\
    LabelDistribution (Metrics (dm w)) = {["pos" := 1; "neg" := 1]} /\
    QualityScore (Metrics (dm w)) = 50%float.
Proof.
  destruct (scenario_A_metrics id (fun V m => map_to_list m) 0
              enumerates_map_to_list)
    as (w & Hw & _ & _ & _ & Hl & _ & _).
  exists w. split; [exact Hw|]. split; [exact Hl|].
  vm_compute in Hw. injection Hw as <-. vm_compute. reflexivity.
Defined.

(** ** Facts of binary64 arithmetic *)

Lemma shr_1_m mrs : 0 <= shr_m mrs -> shr_m (shr_1 mrs) = shr_m mrs / 2.
Proof.
  destruct mrs as [m r s]. cbn [shr_m]. intros Hm.
  destruct m as [|[p|p|]|p]; cbn [shr_1 shr_m]; [| | | |lia].
  - reflexivity.
  - apply Z.div_unique with 1; lia.
  - apply Z.div_unique with 0; lia.
  - reflexivity.
Qed.

Lemma pow2_pos k : 0 <= k -> 0 < 2 ^ k.
Proof. intros. apply Z.pow_pos_nonneg; lia. Qed.

Lemma iter_shr_1_m p mrs :
  0 <= shr_m mrs ->
  shr_m (SpecFloat.iter_pos shr_1 p mrs) = shr_m mrs / 2 ^ Zpos p.
Proof.
  revert mrs.
  induction p as [p IH|p IH|]; intros mrs Hm; cbn [SpecFloat.iter_pos].
  - pose proof (pow2_pos (Zpos p) ltac:(lia)) as Hp.
    assert (H1 : 0 <= shr_m (shr_1 mrs)).
    { rewrite shr_1_m by done. apply Z.div_pos; lia. }
    assert (H2 : 0 <= shr_m (SpecFloat.iter_pos shr_1 p (shr_1 mrs))).
    { rewrite IH by done. apply Z.div_pos; lia. }
    rewrite IH, IH, shr_1_m by done.
    rewrite !Z.div_div by lia. f_equal.
    replace (Zpos p~1) with (1 + Zpos p + Zpos p) by lia.
    rewrite !Z.pow_add_r, Z.pow_1_r by lia. lia.
  - pose proof (pow2_pos (Zpos p) ltac:(lia)) as Hp.
    assert (H2 : 0 <= shr_m (SpecFloat.iter_pos shr_1 p mrs)).
    { rewrite IH by done. apply Z.div_pos; lia. }
    rewrite IH, IH by done.
    rewrite !Z.div_div by lia. f_equal.
    replace (Zpos p~0) with (Zpos p + Zpos p) by lia.
    rewrite !Z.pow_add_r by lia. lia.
  - rewrite shr_1_m by done. by rewrite Z.pow_1_r.
Qed.

Lemma digits2_pos_size p : digits2_pos p = Pos.size p.
Proof. induction p as [p IH|p IH|]; simpl; congruence. Qed.

Lemma digits2_pos_log2 p : Zpos (digits2_pos p) = Z.log2 (Zpos p) + 1.
Proof.
  rewrite digits2_pos_size.
  destruct p as [p|p|]; simpl Z.log2; simpl Pos.size;
    rewrite ?Pos2Z.inj_succ; lia.
Qed.

Lemma Zdigits2_log2 m : 0 < m -> Zdigits2 m = Z.log2 m + 1.
Proof.
  destruct m as [|p|p]; [lia| |lia]. intros _. apply digits2_pos_log2.
Qed.

Lemma shr_record_of_loc_m m l : shr_m (shr_record_of_loc m l) = m.
Proof. by destruct l as [|[]]. Qed.

(** What [shr_fexp] does to a positive mantissa whose exponent is not
    below the least one: it drops the bits beyond the 53rd. *)
Lemma shr_fexp_m m e l mrs' e' :
  0 < m -> -1074 <= e ->
  shr_fexp prec emax m e l = (mrs', e') ->
  let k := Z.max (Z.log2 m - 52) 0 in
  shr_m mrs' = m / 2 ^ k /\ e' = e + k.
Proof.
  intros Hm He. unfold shr_fexp, fexp, emin, prec, emax.
  rewrite (Zdigits2_log2 m Hm). unfold shr.
  destruct (Z.max (Z.log2 m + 1 + e - 53) (3 - 1024 - 53) - e) as [|p|p] eqn:E;
    intros [= <- <-]; simpl.
  - rewrite shr_record_of_loc_m.
    replace (Z.max (Z.log2 m - 52) 0) with 0 by lia.
    rewrite Z.div_1_r. lia.
  - rewrite iter_shr_1_m by (rewrite shr_record_of_loc_m; lia).
    rewrite shr_record_of_loc_m.
    replace (Z.max (Z.log2 m - 52) 0) with (Zpos p) by lia.
    split; [done|lia].
  - rewrite shr_record_of_loc_m.
    replace (Z.max (Z.log2 m - 52) 0) with 0 by lia.
    rewrite Z.div_1_r. lia.
Qed.

Lemma shifted_pos m : 0 < m -> 0 < m / 2 ^ Z.max (Z.log2 m - 52) 0.
Proof.
  intros Hm. pose proof (Z.log2_nonneg m) as Hl.
  apply Z.div_str_pos. split; [apply Z.pow_pos_nonneg; lia|].
  transitivity (2 ^ Z.log2 m).
  - apply Z.pow_le_mono_r; lia.
  - by apply Z.log2_spec.
Qed.

Lemma round_nearest_even_bounds m l :
  m <= round_nearest_even m l <= m + 1.
Proof.
  destruct l as [|[]]; simpl; try lia. destruct (Z.even m); lia.
Qed.

(** Rounding a positive mantissa with a moderate exponent gives a finite,
    non-zero number. *)
Lemma binary_round_aux_finite sx m e l :
  0 < m -> -1074 <= e -> e + 2 * Z.log2 m <= 800 ->
  exists m' e', binary_round_aux prec emax sx m e l = S754_finite sx m' e'.
Proof.
  intros Hm He Hbound. unfold binary_round_aux.
  destruct (shr_fexp prec emax m e l) as [mrs1 e1] eqn:E1.
  destruct (shr_fexp_m m e l mrs1 e1 Hm He E1) as [Hm1 He1].
  pose proof (shifted_pos m Hm) as Hpos1. rewrite <- Hm1 in Hpos1.
  pose proof (round_nearest_even_bounds (shr_m mrs1) (loc_of_shr_record mrs1))
    as Hround.
  set (m2 := round_nearest_even (shr_m mrs1) (loc_of_shr_record mrs1)) in *.
  assert (Hm2 : 0 < m2) by lia.
  assert (Hle : shr_m mrs1 <= m).
  { rewrite Hm1.
    pose proof (pow2_pos (Z.max (Z.log2 m - 52) 0) ltac:(lia)) as Hp.
    apply Z.div_le_upper_bound; [lia | nia]. }
  destruct (shr_fexp prec emax m2 e1 loc_Exact) as [mrs2 e2] eqn:E2.
  destruct (shr_fexp_m m2 e1 loc_Exact mrs2 e2 Hm2 ltac:(lia) E2) as [Hm3 He2].
  pose proof (shifted_pos m2 Hm2) as Hpos3. rewrite <- Hm3 in Hpos3.
  assert (Hlog : Z.log2 m2 <= Z.log2 m + 1).
  { transitivity (Z.log2 (Z.succ m)).
    - apply Z.log2_le_mono. lia.
    - pose proof (Z.log2_succ_le m). lia. }
  pose proof (Z.log2_nonneg m). pose proof (Z.log2_nonneg m2).
  destruct (shr_m mrs2) as [|p|p]; [lia| |lia].
  assert (Hfin : (e2 <=? emax - prec) = true).
  { apply Z.leb_le. unfold emax, prec. lia. }
  rewrite Hfin. eauto.
Qed.

Lemma iter_xO_pow2 p s : Zpos (Pos.iter xO p s) = Zpos p * 2 ^ Zpos s.
Proof.
  induction s as [|s IH] using Pos.peano_ind.
  - simpl. lia.
  - rewrite Pos.iter_succ, Pos2Z.inj_xO, IH, Pos2Z.inj_succ, Z.pow_succ_r; lia.
Qed.

(** The conversion of a positive [int] is finite and not zero. *)
Lemma binary_normalize_finite p :
  Zpos p < 2 ^ 63 ->
  exists m e, binary_normalize prec emax (Zpos p) 0 false = S754_finite false m e.
Proof.
  intros Hp. unfold binary_normalize, binary_round, shl_align.
  assert (Hlog : 0 <= Z.log2 (Zpos p) < 63).
  { split; [apply Z.log2_nonneg|]. apply Z.log2_lt_pow2; lia. }
  rewrite digits2_pos_log2. unfold fexp, emin, prec, emax.
  destruct (Z.max (Z.log2 (Zpos p) + 1 + 0 - 53) (3 - 1024 - 53) - 0)
    as [|s|s] eqn:E.
  - apply binary_round_aux_finite; lia.
  - apply binary_round_aux_finite; lia.
  - apply binary_round_aux_finite; [lia|lia|].
    rewrite iter_xO_pow2, Z.log2_mul_pow2 by lia. lia.
Qed.

Lemma float64_Prim2SF n :
  0 <= n <= max_int ->
  Prim2SF (float64 n) = binary_normalize prec emax n 0 false.
Proof.
  intros Hn. unfold float64. apply Prim2SF_SF2Prim.
  replace n with (Uint63.to_Z (Uint63.of_Z n)).
  - rewrite <- of_uint63_spec. apply Prim2SF_valid.
  - rewrite Uint63.of_Z_spec. apply Z.mod_small.
    unfold max_int in Hn. change Uint63.wB with (2 ^ 63). lia.
Qed.

Lemma float64_finite n :
  1 <= n <= max_int ->
  exists m e, Prim2SF (float64 n) = S754_finite false m e.
Proof.
  intros Hn. rewrite float64_Prim2SF by lia.
  destruct n as [|p|p]; [lia| |lia].
  apply binary_normalize_finite. unfold max_int in Hn. lia.
Qed.

(** A finite non-zero float divided by itself is exactly 1. *)
Lemma float_div_self (x : float) s m e :
  Prim2SF x = S754_finite s m e -> (x / x)%float = 1%float.
Proof.
  intros Hx. apply Prim2SF_inj. rewrite div_spec, Hx.
  unfold SF64div, SFdiv, SFdiv_core_binary.
  replace (Zdigits2 (Zpos m) + e - (Zdigits2 (Zpos m) + e)) with 0 by lia.
  replace (e - e) with 0 by lia.
  change (Z.min (fexp prec emax 0) 0) with (-53).
  change (0 - -53) with 53.
  assert (Hdiv : Z.div_eucl (Z.shiftl (Zpos m) 53) (Zpos m) = (2 ^ 53, 0)).
  { rewrite Z.shiftl_mul_pow2 by lia.
    pose proof (Z.div_eucl_eq (Zpos m * 2 ^ 53) (Zpos m) ltac:(lia)) as Heq.
    pose proof (Z.mod_pos_bound (Zpos m * 2 ^ 53) (Zpos m) ltac:(lia)) as Hmod.
    unfold Z.modulo in Hmod.
    destruct (Z.div_eucl (Zpos m * 2 ^ 53) (Zpos m)) as [q r].
    assert (r = 0 /\ q = 2 ^ 53) as [-> ->]; [|done].
    assert (Zpos m * (2 ^ 53 - q) = r) by lia.
    assert (2 ^ 53 - q = 0) by nia. lia. }
  cbv iota. change IntDef.Z.div_eucl with Z.div_eucl.
  rewrite Hdiv.
  assert (Hloc : new_location (Zpos m) 0 = loc_Exact).
  { unfold new_location. by destruct (Z.even (Zpos m)). }
  rewrite Hloc. destruct s; vm_compute; reflexivity.
Qed.

Lemma float64_div_self n :
  1 <= n <= max_int -> (float64 n / float64 n)%float = 1%float.
Proof.
  intros Hn. destruct (float64_finite n Hn) as (m & e & H).
  by eapply float_div_self.
Qed.

(** *** Bias metrics and alerts *)

Lemma lengths_fold (entries : list (string * float)) (acc : list float) :
  foldl (fun lengths '(key, value) =>
           if HasPrefix key "text_length_" then lengths ++ [value] else lengths)
        acc entries = acc ++ text_lengths entries.
Proof.
  revert acc. unfold text_lengths.
  induction entries as [|[k v] entries IH]; intros acc; simpl.
  - by rewrite app_nil_r.
  - rewrite IH. destruct (HasPrefix k "text_length_"); simpl; [|done].
    by rewrite <- app_assoc.
Qed.

Lemma text_lengths_perm l1 l2 :
  l1 ≡ₚ l2 -> length (text_lengths l1) = length (text_lengths l2).
Proof.
  unfold text_lengths. rewrite !length_fmap.
  induction 1 as [|x l l' _ IH|x y l|l l' l'' _ IH1 _ IH2]; simpl.
  - done.
  - destruct (HasPrefix x.1 "text_length_"); simpl; lia.
  - destruct (HasPrefix x.1 "text_length_"), (HasPrefix y.1 "text_length_");
      simpl; lia.
  - lia.
Qed.

Lemma detectSignificantBias_cases (range : Range) metrics :
  detectSignificantBias range metrics =
  if (bias_threshold <? default 0 (metrics !! "distribution_bias"))%float
  then msg_imbalance
  else if (1 <? len (text_lengths (range float metrics))) &&
          (let '(mn, mx) := minMax (text_lengths (range float metrics)) in
           (2 <? mx / mn)%float)
       then msg_lengths else "".
Proof. unfold detectSignificantBias. by rewrite lengths_fold. Qed.

Lemma HasPrefix_text_length label :
  HasPrefix ("text_length_" +:+ label) "text_length_" = true.
Proof.
  unfold HasPrefix. simpl. repeat (destruct (ascii_dec _ _); [|done]).
  by destruct label.
Qed.

Lemma bias_scan_fold ds (acc : gmap string Z * gmap string float) :
  foldl (fun '(lc, tl) item =>
           (incr (Label item) lc,
            add_float (Label item)
              (float64 (Z.of_nat (String.length (Text item)))) tl))
        acc ds = foldl bias_scan acc ds.
Proof.
  revert acc. induction ds as [|it ds IH]; intros [lc tl]; simpl; [done|].
  by rewrite IH.
Qed.

Lemma bias_scan_single_label l ds c x :
  (forall it, it ∈ ds -> Label it = l) ->
  0 <= c -> c + len ds <= max_int ->
  exists x', foldl bias_scan ({[l := c]}, {[l := x]}) ds
             = ({[l := c + len ds]}, {[l := x']}).
Proof.
  revert c x. induction ds as [|it ds IH]; intros c x Hl Hc Hmax; simpl.
  - exists x. unfold len. simpl. by rewrite Z.add_0_r.
  - rewrite len_cons in Hmax. pose proof (len_nonneg ds).
    assert (Hit : Label it = l) by (apply Hl, elem_of_cons; auto).
    unfold bias_scan at 2. simpl. rewrite Hit.
    unfold incr, add_float. rewrite !lookup_singleton_eq. simpl.
    rewrite !insert_singleton_eq. unfold int_add.
    rewrite wrap64_small by (unfold max_int in *; lia).
    destruct (IH (c + 1) (x + float64 (Z.of_nat (String.length (Text it))))%float)
      as [x' ->].
    + intros it' Hin. apply Hl, elem_of_cons. auto.
    + lia.
    + lia.
    + exists x'. rewrite len_cons. do 2 f_equal. lia.
Qed.

(** On a non-empty dataset whose items all bear one label, the bias map
    holds the average length of that label and a bias of 0. *)
Lemma calculateBiasMetrics_single_label (range : Range) ds l :
  enumerates range ->
  ds <> [] -> len ds <= max_int ->
  (forall it, it ∈ ds -> Label it = l) ->
  exists avg,
    calculateBiasMetrics range ds =
    <["distribution_bias" := 0%float]> {["text_length_" +:+ l := avg]}.
Proof.
  intros Hr Hne Hmax Hl. unfold calculateBiasMetrics.
  rewrite bias_scan_fold.
  destruct ds as [|it ds]; [done|]. clear Hne.
  rewrite len_cons in *. pose proof (len_nonneg ds) as Hds.
  assert (Hit : Label it = l) by (apply Hl, elem_of_cons; auto).
  cbn [foldl]. unfold bias_scan at 2. cbn [fst snd]. rewrite Hit.
  unfold incr, add_float. rewrite !lookup_empty. cbn [default].
  rewrite !insert_empty.
  change (int_add 0 1) with 1.
  destruct (bias_scan_single_label l ds 1
              (0 + float64 (Z.of_nat (String.length (Text it))))%float)
    as [x' ->]; [|lia|lia|].
  { intros it' Hin. apply Hl, elem_of_cons. auto. }
  rewrite map_size_singleton, (range_singleton range l (1 + len ds) Hr).
  cbn [foldl]. rewrite float64_div_self by lia.
  destruct (Z.ltb_spec 0 (1 + len ds)) as [_|H]; [|lia].
  rewrite lookup_singleton_eq. cbn [default]. rewrite insert_empty.
  eexists. f_equal.
Qed.

(** C8, as the specification states it, fails: in the dataset below the
    average text lengths of the two labels are 1 and 3, so that max/min
    exceeds 2, yet the length-variation alert is not what is flagged:
    the imbalance alert, checked first, is returned instead. *)
Lemma length_alert_masked :
  let ds := replicate 9 (set_Text "a" (set_Label "pos" (new_item 1 0)))
            ++ [set_Text "bbb" (set_Label "neg" (new_item 2 0))] in
  let metrics := calculateBiasMetrics (fun V m => map_to_list m) ds in
  metrics !! "text_length_pos" = Some 1%float /\
  metrics !! "text_length_neg" = Some 3%float /\
  (2 <? 3 / 1)%float = true /\
  detectSignificantBias (fun V m => map_to_list m) metrics = msg_imbalance /\
  detectSignificantBias (fun V m => map_to_list m) metrics <> msg_lengths.
Proof.
  vm_compute. repeat split; discriminate.
Qed.

Lemma single_label_no_length_alert (range : Range) avg :
  enumerates range ->
  forall l,
  detectSignificantBias range
    (<["distribution_bias" := 0%float]> {["text_length_" +:+ l := avg]}) = "".
Proof.
  intros Hr l. rewrite detectSignificantBias_cases.
  rewrite lookup_insert_eq. cbn [default].
  change (bias_threshold <? 0)%float with false. cbv iota.
  set (M := <["distribution_bias" := 0%float]> {["text_length_" +:+ l := avg]}).
  assert (Hlen : length (text_lengths (range float M)) = 1%nat).
  { rewrite (text_lengths_perm _ _ (Hr float M)). unfold M.
    rewrite (text_lengths_perm _ [("distribution_bias", 0%float);
                                  ("text_length_" +:+ l, avg)]).
    - unfold text_lengths. cbn [List.filter fst].
      rewrite HasPrefix_text_length.
      change (HasPrefix "distribution_bias" "text_length_") with false.
      reflexivity.
    - rewrite map_to_list_insert, map_to_list_singleton; [done|].
      apply lookup_singleton_ne. simpl. discriminate. }
  unfold len. rewrite Hlen. reflexivity.
Qed.


(** * Further properties of the code *)

(** ** Import: what a row becomes *)

Lemma set_field_None record entries :
  foldl (set_field record) None entries = None.
Proof. induction entries as [|[h i] entries IH]; simpl; [done|exact IH]. Qed.

Lemma set_field_same_record record it entry it' :
  set_field record (Some it) entry = Some it' -> same_record it' it.
Proof.
  destruct entry as [h idx]. unfold set_field. simpl.
  repeat (destruct (String.eqb h _);
          [destruct (slice_get record idx); simpl; intros [= <-];
           repeat split|]).
  intros [= <-]. repeat split.
Qed.

Lemma set_field_observe_other record it h' idx it' h :
  set_field record (Some it) (h', idx) = Some it' ->
  h <> h' -> observe h it' = observe h it.
Proof.
  unfold set_field, observe. simpl. intros Hset Hne.
  destruct (String.eqb_spec h' "text") as [->|_];
    [destruct (slice_get record idx); simpl in Hset; [|done];
     injection Hset as <-;
     by destruct (String.eqb_spec h "text")|].
  destruct (String.eqb_spec h' "category") as [->|_];
    [destruct (slice_get record idx); simpl in Hset; [|done];
     injection Hset as <-;
     destruct (String.eqb_spec h "text"); [done|];
     by destruct (String.eqb_spec h "category")|].
  destruct (String.eqb_spec h' "label") as [->|_];
    [destruct (slice_get record idx); simpl in Hset; [|done];
     injection Hset as <-;
     destruct (String.eqb_spec h "text"); [done|];
     destruct (String.eqb_spec h "category"); [done|];
     by destruct (String.eqb_spec h "label")|].
  destruct (String.eqb_spec h' "tags") as [->|_];
    [destruct (slice_get record idx); simpl in Hset; [|done];
     injection Hset as <-;
     destruct (String.eqb_spec h "text"); [done|];
     destruct (String.eqb_spec h "category"); [done|];
     destruct (String.eqb_spec h "label"); [done|];
     by destruct (String.eqb_spec h "tags")|].
  by injection Hset as <-.
Qed.

Lemma set_field_observe_same record it h idx it' v :
  set_field record (Some it) (h, idx) = Some it' ->
  is_column h = true -> slice_get record idx = Some v ->
  observe h it' = cell_value h v.
Proof.
  unfold set_field, observe, cell_value, is_column. simpl.
  intros Hset Hcol Hv. rewrite Hv in Hset. simpl in Hset.
  destruct (String.eqb_spec h "text") as [->|_];
    [by injection Hset as <-|].
  destruct (String.eqb_spec h "category") as [->|_];
    [by injection Hset as <-|].
  destruct (String.eqb_spec h "label") as [->|_];
    [by injection Hset as <-|].
  destruct (String.eqb_spec h "tags") as [->|_];
    [by injection Hset as <-|].
  discriminate.
Qed.

(** Over entries with distinct headers, each column decides its part of
    the item, in whatever order the entries come. *)
Lemma set_field_fold record entries it it' :
  NoDup entries.*1 ->
  foldl (set_field record) (Some it) entries = Some it' ->
  same_record it' it /\
  (forall h, h ∉ entries.*1 -> observe h it' = observe h it) /\
  (forall h idx v, (h, idx) ∈ entries -> is_column h = true ->
                   slice_get record idx = Some v ->
                   observe h it' = cell_value h v).
Proof.
  revert it. induction entries as [|[h0 i0] entries IH]; intros it Hnd Hfold.
  - simpl in Hfold. injection Hfold as <-.
    split; [repeat split|]. split; [done|].
    intros h idx v Hin. by apply elem_of_nil in Hin.
  - rewrite fmap_cons in Hnd. apply NoDup_cons in Hnd as [Hh0 Hnd].
    cbn [foldl] in Hfold.
    destruct (set_field record (Some it) (h0, i0)) as [it1|] eqn:E1;
      [|by rewrite set_field_None in Hfold].
    destruct (IH it1 Hnd Hfold) as (Hrec & Hother & Hsame).
    pose proof (set_field_same_record record it (h0, i0) it1 E1) as Hrec1.
    split; [|split].
    + unfold same_record in *. intuition congruence.
    + intros h Hh. rewrite fmap_cons, not_elem_of_cons in Hh.
      destruct Hh as [Hne Hh]. rewrite Hother by done.
      by eapply set_field_observe_other.
    + intros h idx v Hin Hcol Hv.
      apply elem_of_cons in Hin as [[= -> ->]|Hin].
      * rewrite Hother by done. by eapply set_field_observe_same.
      * by eapply Hsame.
Qed.

Lemma set_Dataset_twice ds1 ds2 d :
  set_Dataset ds2 (set_Dataset ds1 d) = set_Dataset ds2 d.
Proof. reflexivity. Qed.

Lemma world_eta w :
  {| dm := set_Dataset (Dataset (dm w) ++ []) (dm w); clock := clock w |} = w.
Proof. destruct w as [[] ?]. simpl. by rewrite app_nil_r. Qed.

Section ImportOutcome.
Variable range : Range.
Hypothesis range_enum : enumerates range.
Variable lower : string -> string.
Variable headers : list string.

Lemma import_item_total record id now :
  length record = length headers ->
  is_Some (import_item range (build_headerMap lower headers) record id now).
Proof.
  intros Hlen. apply set_field_total.
  replace (len record) with (len headers) by (unfold len; by rewrite Hlen).
  by apply range_headerMap_bound.
Qed.

(** The loop over the rows never panics; it returns no error exactly
    when every row has as many fields as the header. *)
Lemma import_rows_outcome rows w :
  exists e items c,
    import_rows range (length headers) (build_headerMap lower headers) rows w =
      Returned e {| dm := set_Dataset (Dataset (dm w) ++ items) (dm w);
                    clock := c |} /\
    (e = None <-> Forall (well_formed_row (length headers)) rows).
Proof.
  revert w. induction rows as [|[record|] rows IH]; intros w.
  - exists None, [], (clock w). simpl. by rewrite world_eta.
  - cbn [import_rows].
    destruct (Nat.eqb_spec (length record) (length headers)) as [Hlen|Hlen];
      cbn [negb].
    + destruct (import_item_total record
                  (int_add (len (Dataset (dm w))) 1) (clock w) Hlen)
        as [item Hitem].
      unfold import_item in Hitem. cbn [time_Now]. rewrite Hitem.
      destruct (IH {| dm := set_Dataset (Dataset (dm w) ++ [item]) (dm w);
                      clock := clock w + 1 |}) as (e & items & c & -> & He).
      exists e, (item :: items), c. cbn [dm clock Dataset set_Dataset].
      rewrite <- app_assoc. split; [done|].
      rewrite He, Forall_cons. split; [|tauto].
      intros H. split; [|done]. by exists record.
    + exists (Some (ErrRow ErrFieldCount)), [], (clock w).
      rewrite world_eta. split; [done|]. split; [done|].
      intros [(r & [= <-] & Hr) _]%Forall_cons. done.
  - exists (Some (ErrRow ErrSyntax)), [], (clock w). simpl.
    rewrite world_eta. split; [done|]. split; [done|].
    intros [(r & [=] & _) _]%Forall_cons.
Qed.

(** Rows of the right length are all imported, one item each. *)
Lemma import_rows_records records w :
  Forall (fun record => length record = length headers) records ->
  exists items,
    import_rows range (length headers) (build_headerMap lower headers)
      (Record_ <$> records) w =
      Returned None {| dm := set_Dataset (Dataset (dm w) ++ items) (dm w);
                       clock := clock w + len records |} /\
    imported range (build_headerMap lower headers) (len (Dataset (dm w))) (clock w)
      records items.
Proof.
  intros H. revert w. induction H as [|record records Hlen _ IH]; intros w.
  - exists []. simpl. unfold len. simpl. rewrite Z.add_0_r.
    by rewrite world_eta.
  - rewrite fmap_cons. cbn [import_rows].
    rewrite Hlen, Nat.eqb_refl. cbn [negb time_Now].
    destruct (import_item_total record
                (int_add (len (Dataset (dm w))) 1) (clock w) Hlen)
      as [item Hitem].
    pose proof Hitem as Hitem'. unfold import_item in Hitem'. rewrite Hitem'.
    destruct (IH {| dm := set_Dataset (Dataset (dm w) ++ [item]) (dm w);
                    clock := clock w + 1 |}) as (items & -> & Himp).
    exists (item :: items). cbn [dm clock Dataset set_Dataset] in *.
    rewrite <- app_assoc, len_cons. split.
    + do 2 f_equal. lia.
    + cbn [imported]. split; [done|].
      replace (len (Dataset (dm w)) + 1) with (len (Dataset (dm w) ++ [item]));
        [done|].
      unfold len. rewrite length_app. simpl. lia.
Qed.
End ImportOutcome.

(** X1: [ImportCSV] never panics: it always returns, the items the store
    held are kept in place before whatever was appended, and when it
    returns an error the metadata and the metrics are those of before. *)
Theorem ImportCSV_never_panics (lower : string -> string) (range : Range) reader w :
  enumerates range ->
  exists e w' items,
    ImportCSV range lower reader w = Returned e w' /\
    Dataset (dm w') = Dataset (dm w) ++ items /\
    BackupPath (dm w') = BackupPath (dm w) /\
    CurrentUser (dm w') = CurrentUser (dm w) /\
    (e <> None ->
     Metadata (dm w') = Metadata (dm w) /\ Metrics (dm w') = Metrics (dm w)).
Proof.
  intros Hr. unfold ImportCSV.
  destruct reader as [|[headers|] rows].
  - exists (Some (ErrHeaders ErrEOF)), w, []. by rewrite app_nil_r.
  - destruct (import_rows_outcome range Hr lower headers rows w)
      as (e & items & c & -> & _).
    destruct e as [err|].
    + eexists _, _, items. split; [reflexivity|]. done.
    + eexists _, _, items. split; [reflexivity|].
      rewrite UpdateMetadata_Dataset. simpl.
      unfold UpdateMetadata. simpl.
      destruct (foldl scan_item _ _) as [[[v lc] c'] t]. done.
  - exists (Some (ErrHeaders ErrSyntax)), w, []. by rewrite app_nil_r.
Qed.

Lemma ImportCSV_never_panics_witness :
  exists e w' items,
    ImportCSV (fun V m => map_to_list m) id
      [Record_ ["text"; "label"]; Record_ ["a"; "pos"]; SyntaxError]
      (NewDataManager 0) = Returned e w' /\
    Dataset (dm w') = [] ++ items /\ e <> None.
Proof.
  destruct (ImportCSV_never_panics id (fun V m => map_to_list m)
              [Record_ ["text"; "label"]; Record_ ["a"; "pos"]; SyntaxError]
              (NewDataManager 0) enumerates_map_to_list)
    as (e & w' & items & He & Hds & _).
  exists e, w', items. split; [exact He|]. split; [exact Hds|].
  vm_compute in He. injection He as <- _. discriminate.
Defined.

(** X2: [ImportCSV] returns no error exactly when the header can be read and
    every data row has as many fields as the header. *)
Theorem ImportCSV_succeeds_iff (lower : string -> string) (range : Range) reader w :
  enumerates range ->
  (exists w', ImportCSV range lower reader w = Returned None w') <->
  (exists headers rows,
     reader = Record_ headers :: rows /\
     Forall (well_formed_row (length headers)) rows).
Proof.
  intros Hr. unfold ImportCSV.
  destruct reader as [|[headers|] rows].
  - split; [intros [w' [=]] | intros (h & r & [=] & _)].
  - destruct (import_rows_outcome range Hr lower headers rows w)
      as (e & items & c & -> & He).
    split.
    + intros [w' Hw']. exists headers, rows. split; [done|]. apply He.
      by destruct e.
    + intros (h & r & [= <- <-] & Hall). apply He in Hall as ->. eauto.
  - split; [intros [w' [=]] | intros (h & r & [=] & _)].
Qed.

Lemma ImportCSV_succeeds_iff_witness :
  (exists w', ImportCSV (fun V m => map_to_list m) id scenario_A
                (NewDataManager 0) = Returned None w') /\
  ~ (exists w', ImportCSV (fun V m => map_to_list m) id
                  [Record_ ["text"; "label"]; Record_ ["a"]]
                  (NewDataManager 0) = Returned None w').
Proof.
  split.
  - apply (ImportCSV_succeeds_iff id (fun V m => map_to_list m) scenario_A
             (NewDataManager 0) enumerates_map_to_list).
    exists ["text"; "label"], [Record_ ["a"; "pos"]; Record_ ["b"; "neg"]].
    split; [reflexivity|].
    repeat constructor; eexists; (split; [reflexivity|reflexivity]).
  - intros H.
    apply (ImportCSV_succeeds_iff id (fun V m => map_to_list m)
             [Record_ ["text"; "label"]; Record_ ["a"]]
             (NewDataManager 0) enumerates_map_to_list) in H.
    destruct H as (h & r & [= <- <-] & Hall).
    apply Forall_cons in Hall as [(rec & [= <-] & Hlen) _]. discriminate.
Defined.

Lemma imported_length range hm n t records items :
  imported range hm n t records items -> length items = length records.
Proof.
  revert n t items. induction records as [|record records IH];
    intros n t [|item items]; simpl; try done.
  intros [_ H]. f_equal. by eapply IH.
Qed.

Lemma imported_lookup range hm n t records items k it :
  imported range hm n t records items ->
  items !! k = Some it ->
  exists record,
    records !! k = Some record /\
    import_item range hm record (int_add (n + Z.of_nat k) 1) (t + Z.of_nat k)
      = Some it.
Proof.
  revert n t items k. induction records as [|record records IH];
    intros n t [|item items] k; simpl; try done.
  intros [Hitem Himp] Hk. destruct k as [|k].
  - simpl in Hk. injection Hk as <-. exists record. split; [done|].
    change (Z.of_nat 0) with 0. by rewrite !Z.add_0_r.
  - simpl in Hk. destruct (IH _ _ _ _ Himp Hk) as (r & Hr & Hi).
    exists r. split; [done|]. rewrite Nat2Z.inj_succ.
    replace (n + Z.succ (Z.of_nat k)) with (n + 1 + Z.of_nat k) by lia.
    replace (t + Z.succ (Z.of_nat k)) with (t + 1 + Z.of_nat k) by lia.
    done.
Qed.

Lemma concat_cons_char c w ws :
  String.concat "," (String c w :: ws) = String c (String.concat "," (w :: ws)).
Proof. by destruct ws. Qed.

Lemma Split_concat s : String.concat "," (Split s ",") = s /\ Split s "," <> [].
Proof.
  induction s as [|c s [IH Hne]]; [done|]. cbn [Split].
  destruct (Split s ",") as [|w ws] eqn:E; [done|].
  destruct (Ascii.eqb_spec c ",") as [->|Hc].
  - split; [|done].
    change (String.concat "," ("" :: w :: ws))
      with (String "," (String.concat "," (w :: ws))).
    by rewrite IH.
  - split; [|done]. by rewrite concat_cons_char, IH.
Qed.

Section ImportItem.
Variable range : Range.
Hypothesis range_enum : enumerates range.

Lemma range_NoDup_keys {V} (m : gmap string V) : NoDup (range V m).*1.
Proof. rewrite (range_enum V m). apply NoDup_fst_map_to_list. Qed.

Lemma range_elem {V} (m : gmap string V) k v :
  (k, v) ∈ range V m <-> m !! k = Some v.
Proof. rewrite (range_enum V m). apply elem_of_map_to_list. Qed.

Lemma range_not_key {V} (m : gmap string V) k :
  k ∉ (range V m).*1 <-> m !! k = None.
Proof.
  rewrite list_elem_of_fmap. split.
  - intros H. destruct (m !! k) as [v|] eqn:E; [|done].
    exfalso. apply H. exists (k, v). split; [done|]. by apply range_elem.
  - intros Hk ([k' v] & -> & Hin%range_elem). simpl in Hk. congruence.
Qed.

(** The item of a row: a fresh record, with each of the four columns
    the header has read from the row. *)
Lemma import_item_spec headerMap record id now it :
  import_item range headerMap record id now = Some it ->
  same_record it (new_item id now) /\
  (forall name,
     is_column name = true ->
     match headerMap !! name with
     | Some idx =>
         forall v, slice_get record idx = Some v ->
                   observe name it = cell_value name v
     | None => observe name it = observe name (new_item id now)
     end).
Proof.
  intros Hitem. unfold import_item in Hitem.
  destruct (set_field_fold record (range Z headerMap) _ _
              (range_NoDup_keys headerMap) Hitem) as (Hrec & Hother & Hsame).
  split; [done|]. intros name Hcol.
  destruct (headerMap !! name) as [idx|] eqn:E.
  - intros v Hv. eapply Hsame; [|done..]. by apply range_elem.
  - apply Hother. by apply range_not_key.
Qed.
End ImportItem.

(** X3: A successful import appends one item per data row, in order, after
    the items the store held.  The new items are numbered on from the
    size of the store, carry the time of their creation, and start
    unverified at version 0 with no history and no prediction; the
    metadata then counts them. *)
Theorem ImportCSV_appends (lower : string -> string) (range : Range) headers records w :
  enumerates range ->
  Forall (fun record => length record = length headers) records ->
  len (Dataset (dm w)) + len records <= max_int ->
  exists items w',
    ImportCSV range lower (Record_ headers :: (Record_ <$> records)) w
      = Returned None w' /\
    Dataset (dm w') = Dataset (dm w) ++ items /\
    length items = length records /\
    TotalItems (Metadata (dm w')) = len (Dataset (dm w)) + len records /\
    forall k it,
      items !! k = Some it ->
      ID it = len (Dataset (dm w)) + Z.of_nat k + 1 /\
      LastUpdated it = clock w + Z.of_nat k /\
      Version it = 0 /\ History it = [] /\ UserVerified it = false /\
      ModelPreds it = ∅.
Proof.
  intros Hr Hlen Hmax.
  destruct (import_rows_records range Hr lower headers records w Hlen)
    as (items & Hrows & Himp).
  pose proof (imported_length _ _ _ _ _ _ Himp) as Hitems.
  eexists items, _. unfold ImportCSV. rewrite Hrows.
  split; [reflexivity|]. rewrite UpdateMetadata_Dataset, UpdateMetadata_Metadata.
  cbn [dm Dataset set_Dataset TotalItems].
  split; [done|]. split; [done|]. split.
  { unfold len. rewrite length_app, Hitems. lia. }
  intros k it Hk.
  destruct (imported_lookup _ _ _ _ _ _ _ _ Himp Hk) as (record & Hrec & Hitem).
  apply (import_item_spec range Hr) in Hitem as [Hsame _].
  destruct Hsame as (HID & _ & HV & HP & HL & HVer & _ & _ & HH).
  pose proof (lookup_lt_Some _ _ _ Hrec) as Hklt.
  pose proof (len_nonneg (Dataset (dm w))).
  rewrite HID, HL, HVer, HH, HV, HP. cbn [ID new_item]. unfold int_add.
  rewrite wrap64_small by (unfold len, max_int in *; lia).
  repeat split; lia.
Qed.

Lemma ImportCSV_appends_witness :
  exists items w',
    ImportCSV (fun V m => map_to_list m) id
      (Record_ ["text"; "label"] :: (Record_ <$> [["a"; "pos"]; ["b"; "neg"]]))
      (NewDataManager 0) = Returned None w' /\
    Dataset (dm w') = [] ++ items /\
    ID <$> items = [1; 2] /\
    TotalItems (Metadata (dm w')) = 2.
Proof.
  destruct (ImportCSV_appends id (fun V m => map_to_list m) ["text"; "label"]
              [["a"; "pos"]; ["b"; "neg"]] (NewDataManager 0)
              enumerates_map_to_list)
    as (items & w' & Hw & Hds & Hlen & Htot & Hitems).
  - repeat constructor.
  - vm_compute. discriminate.
  - exists items, w'. split; [exact Hw|]. split; [exact Hds|].
    split; [|exact Htot].
    clear Hw Hds Htot.
    destruct items as [|i1 [|i2 [|i3 items]]]; try (simpl in Hlen; lia).
    destruct (Hitems 0%nat i1 eq_refl) as [H1 _].
    destruct (Hitems 1%nat i2 eq_refl) as [H2 _].
    simpl. by rewrite H1, H2.
Defined.

(** X4: The fields of an imported item are the cells of its row under the
    columns named text, category, label and tags (names compared after
    trimming the white space Unicode defines and lower-casing, by the
    library's tables where a name is not ASCII), whatever the order in
    which the header map is visited; a field whose column the header
    lacks stays empty.
    The tags cell is split at commas without trimming, so that joining
    the tags with commas gives the cell back, and even an empty cell
    gives one (empty) tag. *)
Theorem ImportCSV_columns (lower : string -> string) (range : Range) headers records w :
  enumerates range ->
  Forall (fun record => length record = length headers) records ->
  exists items w',
    ImportCSV range lower (Record_ headers :: (Record_ <$> records)) w
      = Returned None w' /\
    Dataset (dm w') = Dataset (dm w) ++ items /\
    forall k it,
      items !! k = Some it ->
      exists record,
        records !! k = Some record /\
        let cell := column (build_headerMap lower headers) record in
        Text it = default "" (cell "text") /\
        Category it = default "" (cell "category") /\
        Label it = default "" (cell "label") /\
        Tags it = default [] ((fun v => Split v ",") <$> cell "tags") /\
        (forall v, cell "tags" = Some v ->
                   String.concat "," (Tags it) = v /\ Tags it <> []).
Proof.
  intros Hr Hlen.
  destruct (import_rows_records range Hr lower headers records w Hlen)
    as (items & Hrows & Himp).
  eexists items, _. unfold ImportCSV. rewrite Hrows.
  split; [reflexivity|]. rewrite UpdateMetadata_Dataset.
  cbn [dm Dataset set_Dataset]. split; [done|].
  intros k it Hk.
  destruct (imported_lookup _ _ _ _ _ _ _ _ Himp Hk) as (record & Hrec & Hitem).
  exists record. split; [done|].
  apply (import_item_spec range Hr) in Hitem as [_ Hcols].
  assert (Hreclen : length record = length headers).
  { rewrite Forall_forall in Hlen. apply Hlen. by eapply list_elem_of_lookup_2. }
  assert (Hcell : forall name,
    is_column name = true ->
    observe name it =
    match column (build_headerMap lower headers) record name with
    | Some v => cell_value name v
    | None => observe name (new_item 0 0)
    end).
  { intros name Hcol. specialize (Hcols name Hcol). unfold column.
    destruct (build_headerMap lower headers !! name) as [idx|] eqn:E; simpl.
    - destruct (slice_get_is_Some record idx) as [v Hv].
      { apply build_headerMap_bound in E. unfold len in *. lia. }
      rewrite Hv. by apply Hcols.
    - by rewrite Hcols. }
  pose proof (Hcell "text" eq_refl) as HT.
  pose proof (Hcell "category" eq_refl) as HC.
  pose proof (Hcell "label" eq_refl) as HL.
  pose proof (Hcell "tags" eq_refl) as HG.
  cbv zeta.
  split.
  { destruct (column (build_headerMap lower headers) record "text") as [x|];
      cbn in HT |- *; by injection HT. }
  split.
  { destruct (column (build_headerMap lower headers) record "category") as [x|];
      cbn in HC |- *; by injection HC. }
  split.
  { destruct (column (build_headerMap lower headers) record "label") as [x|];
      cbn in HL |- *; by injection HL. }
  split.
  { destruct (column (build_headerMap lower headers) record "tags") as [x|];
      cbn in HG |- *; exact HG. }
  intros x Hx. rewrite Hx in HG. cbn in HG. rewrite HG. apply Split_concat.
Qed.

Lemma ImportCSV_columns_witness :
  exists items w',
    ImportCSV (fun V m => map_to_list m) id
      (Record_ ["label" +:+ no_break_space; em_space +:+ "TEXT "; "TAGS";
                "note"]
       :: (Record_ <$> [["L1"; "T1"; "x, y,"; "ignored"]]))
      (NewDataManager 0) = Returned None w' /\
    Dataset (dm w') = [] ++ items /\
    (Text <$> items) = ["T1"] /\ (Label <$> items) = ["L1"] /\
    (Category <$> items) = [""] /\
    (Tags <$> items) = [["x"; " y"; ""]].
Proof.
  destruct (ImportCSV_columns id (fun V m => map_to_list m)
              ["label" +:+ no_break_space; em_space +:+ "TEXT "; "TAGS";
               "note"]
              [["L1"; "T1"; "x, y,"; "ignored"]]
              (NewDataManager 0) enumerates_map_to_list)
    as (items & w' & Hw & Hds & Hitems).
  - repeat constructor.
  - exists items, w'. split; [exact Hw|]. split; [exact Hds|].
    vm_compute in Hw. injection Hw as <-. vm_compute in Hds.
    rewrite <- Hds. vm_compute.
    split; [reflexivity|]. split; [reflexivity|]. split; reflexivity.
Defined.

Lemma headerMap_fold_fst (lower : string -> string) (headers : list string) i0 (m0 : gmap string Z) :
  fst (foldl (fun '(i, m) header =>
                (i + 1, <[ToLower lower (TrimSpace header) := i]> m))
             (i0, m0) headers) = i0 + len headers.
Proof.
  revert i0 m0. induction headers as [|h headers IH]; intros i0 m0.
  - unfold len. simpl. lia.
  - cbn [foldl]. rewrite IH, len_cons. lia.
Qed.

Lemma build_headerMap_snoc (lower : string -> string) headers h :
  build_headerMap lower (headers ++ [h]) =
  <[normalize lower h := len headers]> (build_headerMap lower headers).
Proof.
  unfold build_headerMap. rewrite foldl_app. cbn [foldl].
  pose proof (headerMap_fold_fst lower headers 0 ∅) as Hfst.
  destruct (foldl _ (0, ∅) headers) as [i m]. simpl in *. by subst i.
Qed.

Lemma last_column_snoc_same (lower : string -> string) headers h i :
  last_column lower (headers ++ [h]) (normalize lower h) i <-> i = len headers.
Proof.
  unfold last_column. rewrite fmap_app. cbn [fmap list_fmap].
  split.
  - intros (n & -> & Hn & Hlast). unfold len. f_equal.
    pose proof (lookup_lt_Some _ _ _ Hn) as Hlt.
    rewrite length_app, length_fmap in Hlt. simpl in Hlt.
    destruct (decide (n = length headers)) as [|Hne]; [done|].
    exfalso. apply (Hlast (length headers)); [lia|].
    rewrite lookup_app_r by (rewrite length_fmap; lia).
    by rewrite length_fmap, Nat.sub_diag.
  - intros ->. exists (length headers). split; [done|]. split.
    + rewrite lookup_app_r by (rewrite length_fmap; lia).
      by rewrite length_fmap, Nat.sub_diag.
    + intros j Hj. rewrite lookup_ge_None_2; [done|].
      rewrite length_app, length_fmap. simpl. lia.
Qed.

Lemma last_column_snoc_other (lower : string -> string) headers h k i :
  normalize lower h <> k ->
  last_column lower (headers ++ [h]) k i <-> last_column lower headers k i.
Proof.
  intros Hne. unfold last_column. rewrite fmap_app. cbn [fmap list_fmap].
  assert (Hsnoc : forall j,
    (normalize lower <$> headers) !! j = Some k <->
    ((normalize lower <$> headers) ++ [normalize lower h]) !! j = Some k).
  { intros j. destruct (decide (j < length headers)%nat) as [Hj|Hj].
    - by rewrite lookup_app_l by (by rewrite length_fmap).
    - rewrite lookup_ge_None_2 by (rewrite length_fmap; lia).
      rewrite lookup_app_r by (rewrite length_fmap; lia).
      destruct (j - length (normalize lower <$> headers))%nat as [|j']; simpl.
      + split; [done|]. intros [=]. done.
      + by rewrite lookup_nil. }
  split; intros (n & -> & Hn & Hlast); exists n; (split; [done|]); split.
  - by apply Hsnoc.
  - intros j Hj H. apply (Hlast j Hj). by apply Hsnoc.
  - by apply Hsnoc.
  - intros j Hj H. apply (Hlast j Hj). by apply Hsnoc.
Qed.

(** X5: The header map sends a name to the last column that bears it, names
    being compared after trimming the white space Unicode defines and
    lower-casing (by the library's tables where a name is not ASCII);
    a name no column bears has no entry. *)
Theorem build_headerMap_last_column (lower : string -> string) headers k :
  (forall i, build_headerMap lower headers !! k = Some i <-> last_column lower headers k i) /\
  (build_headerMap lower headers !! k = None <-> k ∉ normalize lower <$> headers).
Proof.
  induction headers as [|h headers [IHS IHN]] using rev_ind.
  - split.
    + intros i. unfold build_headerMap. simpl. rewrite lookup_empty.
      split; [done|]. intros (n & _ & Hn & _). by destruct n.
    + unfold build_headerMap. simpl. rewrite lookup_empty.
      split; [|done]. intros _ H. by apply elem_of_nil in H.
  - rewrite build_headerMap_snoc.
    destruct (decide (normalize lower h = k)) as [<-|Hne].
    + split.
      * intros i. rewrite lookup_insert_eq, last_column_snoc_same.
        split; [by intros [= <-] | by intros ->].
      * rewrite lookup_insert_eq. split; [done|]. intros H. exfalso. apply H.
        rewrite fmap_app. apply elem_of_app. right. by apply list_elem_of_singleton.
    + split.
      * intros i. rewrite lookup_insert_ne by done.
        by rewrite last_column_snoc_other.
      * rewrite lookup_insert_ne by done. rewrite IHN, fmap_app.
        rewrite not_elem_of_app. split; [|tauto].
        intros H. split; [done|]. simpl.
        intros H'%list_elem_of_singleton. done.
Qed.

Lemma build_headerMap_last_column_witness :
  build_headerMap id
    [" Text "; "label" +:+ no_break_space; em_space +:+ "TEXT"] !! "text"
    = Some 2 /\
  build_headerMap id
    [" Text "; "label" +:+ no_break_space; em_space +:+ "TEXT"] !! "label"
    = Some 1.
Proof.
  split.
  - apply (proj1 (build_headerMap_last_column id
                    [" Text "; "label" +:+ no_break_space; em_space +:+ "TEXT"]
                    "text")).
    exists 2%nat. split; [reflexivity|]. split; [reflexivity|].
    intros j Hj. destruct j as [|[|[|j]]]; try lia. simpl. discriminate.
  - apply (proj1 (build_headerMap_last_column id
                    [" Text "; "label" +:+ no_break_space; em_space +:+ "TEXT"]
                    "label")).
    exists 1%nat. split; [reflexivity|]. split; [reflexivity|].
    intros j Hj. destruct j as [|[|[|j]]]; try lia.
    + vm_compute. discriminate.
    + simpl. discriminate.
Defined.

(** ** Recomputation: what it depends on *)

Lemma mapKeys_order (range1 range2 : Range) {V} (m : gmap string V) :
  enumerates range1 -> enumerates range2 ->
  mapKeys range1 m = mapKeys range2 m.
Proof.
  intros H1 H2. apply (Sorted_unique String.le).
  - apply sort_Slice_sorted.
  - apply sort_Slice_sorted.
  - by rewrite !mapKeys_perm.
Qed.

Lemma UpdateMetadata_clock range w :
  clock (UpdateMetadata range w) = clock w + 1.
Proof.
  unfold UpdateMetadata. cbn [time_Now].
  by destruct (foldl scan_item _ _) as [[[? ?] ?] ?].
Qed.

Lemma UpdateMetadata_BackupPath range w :
  BackupPath (dm (UpdateMetadata range w)) = BackupPath (dm w).
Proof.
  unfold UpdateMetadata. cbn [time_Now].
  by destruct (foldl scan_item _ _) as [[[? ?] ?] ?].
Qed.

Lemma UpdateMetadata_CurrentUser range w :
  CurrentUser (dm (UpdateMetadata range w)) = CurrentUser (dm w).
Proof.
  unfold UpdateMetadata. cbn [time_Now].
  by destruct (foldl scan_item _ _) as [[[? ?] ?] ?].
Qed.

(** X6: The metadata [UpdateMetadata] computes, and the size, the verified
    percentage and the label distribution among the metrics, do not
    depend on the order in which Go visits the maps: sorting the keys
    makes the three lists of the metadata the same in every run. *)
Theorem UpdateMetadata_order_independent (range1 range2 : Range) w :
  enumerates range1 -> enumerates range2 ->
  let d1 := dm (UpdateMetadata range1 w) in
  let d2 := dm (UpdateMetadata range2 w) in
  Metadata d1 = Metadata d2 /\
  Dataset d1 = Dataset d2 /\
  DatasetSize (Metrics d1) = DatasetSize (Metrics d2) /\
  VerifiedPct (Metrics d1) = VerifiedPct (Metrics d2) /\
  LabelDistribution (Metrics d1) = LabelDistribution (Metrics d2).
Proof.
  intros H1 H2. cbv zeta.
  rewrite !UpdateMetadata_Metadata, !UpdateMetadata_Dataset,
    !UpdateMetadata_Metrics.
  split; [|done].
  f_equal; by apply mapKeys_order.
Qed.

Lemma UpdateMetadata_order_independent_witness :
  Metadata (dm (UpdateMetadata (fun V m => map_to_list m)
                  (NewDataManager 0))) =
  Metadata (dm (UpdateMetadata (fun V m => reverse (map_to_list m))
                  (NewDataManager 0))).
Proof.
  refine (proj1 (UpdateMetadata_order_independent
                   (fun V m => map_to_list m)
                   (fun V m => reverse (map_to_list m))
                   (NewDataManager 0) enumerates_map_to_list _)).
  intros V m. apply reverse_Permutation.
Defined.

(** X7: A second recomputation reproduces what does not depend on the
    order in which the maps are visited, and no more.  Whatever the
    orders of the two calls, the second leaves the items, the metadata
    but for the time stamp, and among the metrics the accuracy, the F1
    score, the size, the verified percentage and the label
    distribution as the first computed them.  The quality score and
    the [distribution_bias] are sums of [float64] taken in the order of
    the map, and a second call that visits the labels in another order
    can change them: on ten items labelled a, b, b and seven times c the
    quality score is 19 after a first call and 19.000000000000007 after
    a second one that visits the labels in the reverse order. *)
Theorem UpdateMetadata_twice :
  (forall (range1 range2 : Range) w,
     enumerates range1 -> enumerates range2 ->
     let once := UpdateMetadata range1 w in
     let twice := UpdateMetadata range2 once in
     Dataset (dm twice) = Dataset (dm once) /\
     LastModified (Metadata (dm twice))
       = LastModified (Metadata (dm once)) + 1 /\
     clock twice = clock once + 1 /\
     Name (Metadata (dm twice)) = Name (Metadata (dm once)) /\
     MetaVersion (Metadata (dm twice)) = MetaVersion (Metadata (dm once)) /\
     TotalItems (Metadata (dm twice)) = TotalItems (Metadata (dm once)) /\
     VerifiedItems (Metadata (dm twice))
       = VerifiedItems (Metadata (dm once)) /\
     Labels (Metadata (dm twice)) = Labels (Metadata (dm once)) /\
     Categories (Metadata (dm twice)) = Categories (Metadata (dm once)) /\
     MetaTags (Metadata (dm twice)) = MetaTags (Metadata (dm once)) /\
     Accuracy (Metrics (dm twice)) = Accuracy (Metrics (dm once)) /\
     F1Score (Metrics (dm twice)) = F1Score (Metrics (dm once)) /\
     DatasetSize (Metrics (dm twice)) = DatasetSize (Metrics (dm once)) /\
     VerifiedPct (Metrics (dm twice)) = VerifiedPct (Metrics (dm once)) /\
     LabelDistribution (Metrics (dm twice))
       = LabelDistribution (Metrics (dm once)) /\
     BackupPath (dm twice) = BackupPath (dm once) /\
     CurrentUser (dm twice) = CurrentUser (dm once)) /\
  (exists (range1 range2 : Range) w,
     enumerates range1 /\ enumerates range2 /\
     let once := UpdateMetadata range1 w in
     let twice := UpdateMetadata range2 once in
     QualityScore (Metrics (dm once)) = 19%float /\
     QualityScore (Metrics (dm twice)) = 0x1.3000000000002p+4%float /\
     QualityScore (Metrics (dm twice)) <> QualityScore (Metrics (dm once)) /\
     BiasMetrics (Metrics (dm twice)) !! "distribution_bias"
       <> BiasMetrics (Metrics (dm once)) !! "distribution_bias").
Proof.
  split.
  - intros range1 range2 w H1 H2. cbv zeta.
    rewrite !UpdateMetadata_Metadata, !UpdateMetadata_Dataset,
      !UpdateMetadata_Metrics.
    cbv zeta.
    rewrite ?UpdateMetadata_Metadata, ?UpdateMetadata_Dataset,
      ?UpdateMetadata_Metrics.
    cbn [Name MetaVersion LastModified TotalItems VerifiedItems Labels
         Categories MetaTags Accuracy F1Score DatasetSize VerifiedPct
         LabelDistribution].
    rewrite !UpdateMetadata_clock, !UpdateMetadata_BackupPath,
      !UpdateMetadata_CurrentUser.
    split; [done|]. split; [done|]. split; [done|]. split; [done|].
    split; [done|]. split; [done|]. split; [done|].
    split; [by apply mapKeys_order|]. split; [by apply mapKeys_order|].
    split; [by apply mapKeys_order|].
    split; [done|]. split; [done|]. split; [done|]. split; [done|].
    split; [done|]. split; done.
  - exists (fun V m => map_to_list m), (fun V m => reverse (map_to_list m)),
      {| dm := set_Dataset
                 ((fun l => set_Label l (new_item 0 0))
                    <$> ["a"; "b"; "b"; "c"; "c"; "c"; "c"; "c"; "c"; "c"])
                 (dm (NewDataManager 0));
         clock := 1 |}.
    split; [apply enumerates_map_to_list|].
    split; [intros V m; apply reverse_Permutation|].
    cbv zeta.
    split; [vm_compute; reflexivity|]. split; [vm_compute; reflexivity|].
    split.
    + intros H. apply (f_equal (fun x => PrimFloat.eqb x 19)) in H.
      vm_compute in H. discriminate.
    + intros H.
      apply (f_equal (fun x => PrimFloat.eqb (default 0%float x)
                                 0x1.f49f49f49f49fp-3)) in H.
      vm_compute in H. discriminate.
Qed.

Lemma UpdateMetadata_twice_witness :
  Labels (Metadata (dm (UpdateMetadata (fun V m => reverse (map_to_list m))
    (UpdateMetadata (fun V m => map_to_list m)
       {| dm := set_Dataset
                  ((fun l => set_Label l (new_item 0 0)) <$> ["b"; "a"; "b"])
                  (dm (NewDataManager 0));
          clock := 1 |})))) = ["a"; "b"].
Proof.
  destruct (proj1 UpdateMetadata_twice
              (fun V m => map_to_list m) (fun V m => reverse (map_to_list m))
              {| dm := set_Dataset
                         ((fun l => set_Label l (new_item 0 0))
                            <$> ["b"; "a"; "b"])
                         (dm (NewDataManager 0));
                 clock := 1 |} enumerates_map_to_list)
    as (_ & _ & _ & _ & _ & _ & _ & H & _).
  - intros V m. apply reverse_Permutation.
  - cbv zeta in H. rewrite H. vm_compute. reflexivity.
Defined.

(** ** The label distribution, label by label *)

Lemma label_count_cons l it ds :
  label_count l (it :: ds) =
  (if String.eqb (Label it) l then 1 else 0) + label_count l ds.
Proof.
  unfold label_count. simpl. destruct (String.eqb (Label it) l); simpl; lia.
Qed.

Lemma label_count_le l ds : 0 <= label_count l ds <= len ds.
Proof.
  unfold label_count, len. split; [lia|].
  apply Nat2Z.inj_le, List.filter_length_le.
Qed.

Lemma label_count_pos l ds :
  1 <= label_count l ds <-> exists it, it ∈ ds /\ Label it = l.
Proof.
  induction ds as [|it ds IH].
  - split; [unfold label_count; simpl; lia|].
    intros (it & H & _). by apply elem_of_nil in H.
  - rewrite label_count_cons. pose proof (label_count_le l ds).
    destruct (String.eqb_spec (Label it) l) as [Heq|Hne].
    + split; [|lia]. intros _. exists it. split; [apply elem_of_cons; auto|done].
    + rewrite Z.add_0_l, IH. split.
      * intros (it' & Hin & Hl). exists it'. split; [|done].
        apply elem_of_cons. auto.
      * intros (it' & [->|Hin]%elem_of_cons & Hl); [done|eauto].
Qed.

Lemma scan_label_count l ds (m : gmap string Z) :
  0 <= default 0 (m !! l) ->
  default 0 (m !! l) + len ds <= max_int ->
  default 0 (foldl scan_label m ds !! l) =
  default 0 (m !! l) + label_count l ds.
Proof.
  revert m. induction ds as [|it ds IH]; intros m H0 Hmax.
  - unfold label_count. simpl. lia.
  - cbn [foldl]. rewrite len_cons in Hmax. rewrite label_count_cons.
    pose proof (len_nonneg ds).
    unfold scan_label at 2. unfold incr.
    destruct (String.eqb_spec (Label it) l) as [Heq|Hne].
    + subst l. assert (Hstep : default 0 (<[Label it :=
                 int_add (default 0 (m !! Label it)) 1]> m !! Label it)
               = default 0 (m !! Label it) + 1).
      { rewrite lookup_insert_eq. cbn [default]. unfold int_add.
        apply wrap64_small. unfold max_int in *. lia. }
      rewrite IH; rewrite Hstep; lia.
    + assert (Hstep : default 0 (<[Label it :=
                 int_add (default 0 (m !! Label it)) 1]> m !! l)
               = default 0 (m !! l)).
      { by rewrite lookup_insert_ne. }
      rewrite IH; rewrite Hstep; lia.
Qed.

(** X8: After a recomputation the label distribution holds, for each label,
    the number of items that bear it, and has no entry for a label no
    item bears: a count of zero is never stored. *)
Theorem UpdateMetadata_label_counts (range : Range) w l :
  len (Dataset (dm w)) <= max_int ->
  LabelDistribution (Metrics (dm (UpdateMetadata range w))) !! l =
  if 1 <=? label_count l (Dataset (dm w))
  then Some (label_count l (Dataset (dm w)))
  else None.
Proof.
  intros Hmax. rewrite UpdateMetadata_Metrics. cbv zeta.
  cbn [LabelDistribution].
  pose proof (scan_label_count l (Dataset (dm w)) ∅) as Hc.
  rewrite lookup_empty in Hc. cbn [default] in Hc.
  specialize (Hc ltac:(lia) ltac:(lia)). rewrite Z.add_0_l in Hc.
  pose proof (scan_label_keys (Dataset (dm w)) ∅ l) as Hk.
  pose proof (label_count_pos l (Dataset (dm w))) as Hp.
  destruct (Z.leb_spec 1 (label_count l (Dataset (dm w)))) as [H1|H1].
  - destruct (foldl scan_label ∅ (Dataset (dm w)) !! l) as [c|] eqn:E.
    + simpl in Hc. by subst c.
    + exfalso. apply (is_Some_None (A:=Z)). apply Hk. right. by apply Hp.
  - destruct (foldl scan_label ∅ (Dataset (dm w)) !! l) as [c|] eqn:E; [|done].
    exfalso. destruct Hk as [Hk _].
    destruct (Hk ltac:(eauto)) as [H|H].
    + rewrite lookup_empty in H. by apply is_Some_None in H.
    + apply Hp in H. lia.
Qed.

Lemma UpdateMetadata_label_counts_witness :
  LabelDistribution
    (Metrics (dm (UpdateMetadata (fun V m => map_to_list m)
       {| dm := set_Dataset [set_Label "pos" (new_item 1 0);
                             set_Label "neg" (new_item 2 1);
                             set_Label "pos" (new_item 3 2)]
                  (dm (NewDataManager 0));
          clock := 4 |}))) !! "pos" = Some 2.
Proof.
  rewrite (UpdateMetadata_label_counts (fun V m => map_to_list m) _ "pos").
  - reflexivity.
  - vm_compute. discriminate.
Defined.

(** ** Item update: what it leaves alone *)

Lemma assign_field_identity field value item item' :
  assign_field field value item = Some item' -> same_identity item' item.
Proof.
  unfold assign_field, same_identity.
  repeat (destruct (String.eqb field _);
          [destruct value; intros [= <-]; done|]).
  by intros [= <-].
Qed.

(** However the loop over the updates ends, it has only assigned the
    label, the tags and the category and appended change records, each
    by the current user for a field of the update. *)
Lemma apply_updates_frame opaque user oldItem updates item t :
  exists p item' t' records,
    apply_updates opaque user oldItem updates item t = (p, item', t') /\
    same_identity item' item /\
    Version item' = Version item /\
    LastUpdated item' = LastUpdated item /\
    History item' = History item ++ records /\
    t <= t' <= t + len updates /\
    (length records <= length updates)%nat /\
    Forall (fun r => User r = user /\ Field r ∈ updates.*1 /\
                     t <= Timestamp r < t') records.
Proof.
  revert item t. induction updates as [|[field value] updates IH];
    intros item t.
  - exists None, item, t, []. rewrite app_nil_r. unfold len. simpl.
    split; [done|]. split; [done|]. split; [done|]. split; [done|].
    split; [done|]. split; [lia|]. split; [lia|constructor].
  - cbn [apply_updates]. rewrite len_cons. pose proof (len_nonneg updates).
    destruct (assign_field field value item) as [item1|] eqn:Ha.
    + pose proof (assign_field_identity _ _ _ _ Ha) as Hid.
      pose proof (assign_field_trail _ _ _ _ Ha) as (Hh & Hv & Hl).
      cbn [time_Now].
      destruct (FieldByName oldItem field) as [old|].
      * set (record := {| Timestamp := t; User := user; Field := field;
                          OldValue := Sprint opaque old;
                          NewValue := Sprint opaque value |}).
        destruct (IH (set_History (History item1 ++ [record]) item1) (t + 1))
          as (p & item' & t' & records & -> & Hid' & Hv' & Hl' & Hh' & Ht
              & Hn & Hr).
        exists p, item', t', (record :: records).
        split; [done|]. cbn [set_History ID Text Confidence UserVerified
          ModelPreds VerifiedBy ReviewStatus Version LastUpdated History] in *.
        split; [unfold same_identity in *; cbn in Hid'; intuition congruence|].
        split; [congruence|]. split; [congruence|].
        split; [by rewrite Hh', Hh, <- app_assoc|]. split; [lia|].
        split; [simpl; lia|].
        constructor.
        -- split; [done|]. split; [|simpl; lia].
           rewrite fmap_cons. apply elem_of_cons. by left.
        -- eapply Forall_impl; [exact Hr|]. intros r (Hu & Hf & Hts).
           split; [done|]. split; [|lia].
           rewrite fmap_cons. apply elem_of_cons. by right.
      * exists (Some ReflectZeroValue), item1, (t + 1), [].
        rewrite app_nil_r. split; [done|]. split; [done|].
        split; [done|]. split; [done|]. split; [done|].
        split; [lia|]. split; [simpl; lia|constructor].
    + exists (Some TypeAssertion), item, t, []. rewrite app_nil_r.
      split; [done|]. split; [done|]. split; [done|]. split; [done|].
      split; [done|]. split; [lia|]. split; [simpl; lia|constructor].
Qed.

(** The store an item update leaves, whether it returned or panicked:
    the items before with the item at [index] replaced. *)
Lemma UpdateItem_outcome (range : Range) opaque index updates w :
  (slice_get (Dataset (dm w)) index = None /\
   outcome_world (UpdateItem range opaque index updates w) = w) \/
  exists oldItem item' records w0 t',
    slice_get (Dataset (dm w)) index = Some oldItem /\
    w0 = {| dm := set_Dataset (<[Z.to_nat index := item']> (Dataset (dm w)))
                    (dm w);
            clock := t' |} /\
    (outcome_world (UpdateItem range opaque index updates w) = w0 \/
     outcome_world (UpdateItem range opaque index updates w)
       = UpdateMetadata range w0) /\
    same_identity item' oldItem /\
    History item' = History oldItem ++ records /\
    (Version item' = Version oldItem \/
     Version item' = int_add (Version oldItem) 1) /\
    clock w <= t' /\
    (length records <= length (range GoValue updates))%nat /\
    Forall (fun r => User r = CurrentUser (dm w) /\
                     Field r ∈ (range GoValue updates).*1 /\
                     clock w <= Timestamp r < t') records.
Proof.
  destruct (slice_get (Dataset (dm w)) index) as [oldItem|] eqn:Hget.
  - right.
    destruct (apply_updates_frame opaque (CurrentUser (dm w)) oldItem
                (range GoValue updates) oldItem (clock w))
      as (p & item' & t' & records & Hloop & Hid & Hv & Hl & Hh & Ht & Hn
          & Hr).
    destruct p as [p|].
    + rewrite (UpdateItem_panicked range opaque index updates w oldItem p
                 item' t' Hget Hloop).
      eexists oldItem, item', records, _, t'.
      split; [done|]. split; [reflexivity|]. split; [by left|].
      split; [done|]. split; [done|]. split; [by left|]. split; [lia|].
      split; [done|done].
    + rewrite (UpdateItem_returned range opaque index updates w oldItem
                 item' t' Hget Hloop).
      eexists oldItem, _, records, _, (t' + 1).
      split; [done|]. split; [reflexivity|]. split; [by right|].
      split; [exact Hid|]. split; [exact Hh|].
      split; [right; cbn; by rewrite Hv|]. split; [lia|]. split; [done|].
      eapply Forall_impl; [exact Hr|]. intros r (Hu & Hf & Hts).
      split; [done|]. split; [done|]. lia.
  - left. split; [done|]. unfold UpdateItem. by rewrite Hget.
Qed.

(** X9: An item update touches one item only, in every outcome, panics
    included: the store keeps its length, every other item, the backup
    path and the current user, and the clock does not go back. *)
Theorem UpdateItem_frame (range : Range) opaque index updates w :
  let w' := outcome_world (UpdateItem range opaque index updates w) in
  length (Dataset (dm w')) = length (Dataset (dm w)) /\
  (forall k, k <> Z.to_nat index ->
             Dataset (dm w') !! k = Dataset (dm w) !! k) /\
  (index < 0 -> Dataset (dm w') = Dataset (dm w)) /\
  BackupPath (dm w') = BackupPath (dm w) /\
  CurrentUser (dm w') = CurrentUser (dm w) /\
  clock w <= clock w'.
Proof.
  cbv zeta.
  destruct (UpdateItem_outcome range opaque index updates w)
    as [[Hget ->]|(oldItem & item' & records & w0 & t' & Hget & Hw0 & Hout
                   & _ & _ & _ & Ht & _ & _)].
  { split; [done|]. split; [done|]. split; [done|]. split; [done|].
    split; [done|]. lia. }
  apply slice_get_Some in Hget as [Hidx _].
  assert (H0 : length (Dataset (dm w0)) = length (Dataset (dm w)) /\
               (forall k, k <> Z.to_nat index ->
                          Dataset (dm w0) !! k = Dataset (dm w) !! k) /\
               (index < 0 -> Dataset (dm w0) = Dataset (dm w)) /\
               BackupPath (dm w0) = BackupPath (dm w) /\
               CurrentUser (dm w0) = CurrentUser (dm w) /\
               clock w <= clock w0).
  { subst w0. cbn [dm clock Dataset set_Dataset BackupPath CurrentUser].
    split; [apply length_insert|].
    split; [intros k Hk; by apply list_lookup_insert_ne|].
    split; [lia|]. split; [done|]. split; [done|]. lia. }
  destruct Hout as [->| ->]; [exact H0|].
  rewrite UpdateMetadata_Dataset, UpdateMetadata_BackupPath,
    UpdateMetadata_CurrentUser, UpdateMetadata_clock.
  destruct H0 as (H1 & H2 & H3 & H4 & H5 & H6).
  split; [done|]. split; [done|]. split; [done|]. split; [done|].
  split; [done|]. lia.
Qed.

Lemma UpdateItem_frame_witness :
  Dataset (dm (outcome_world
    (UpdateItem (fun V m => map_to_list m) (fun _ => "") (-1)
       {[ "label" := VString "pos" ]}
       {| dm := set_Dataset [new_item 1 0] (dm (NewDataManager 0));
          clock := 5 |}))) = [new_item 1 0].
Proof.
  apply (UpdateItem_frame (fun V m => map_to_list m) (fun _ => "") (-1)
           {[ "label" := VString "pos" ]}
           {| dm := set_Dataset [new_item 1 0] (dm (NewDataManager 0));
              clock := 5 |}).
  reflexivity.
Defined.

(** X10: The history of an item only grows, and its identity never changes:
    whatever an item update does and however it ends, each item keeps
    its ID, text, confidence, verification and predictions; its history
    is the one before followed by records, at most one per field of the
    update, each by the current user for a field of the update and
    stamped during the call; its version is the one before or the next. *)
Theorem UpdateItem_append_only (range : Range) opaque index updates w k old new :
  enumerates range ->
  let w' := outcome_world (UpdateItem range opaque index updates w) in
  Dataset (dm w) !! k = Some old ->
  Dataset (dm w') !! k = Some new ->
  same_identity new old /\
  (Version new = Version old \/ Version new = int_add (Version old) 1) /\
  exists records,
    History new = History old ++ records /\
    (length records <= size updates)%nat /\
    Forall (fun r => User r = CurrentUser (dm w) /\
                     is_Some (updates !! Field r) /\
                     clock w <= Timestamp r < clock w') records.
Proof.
  intros Hr. cbv zeta. intros Hold Hnew.
  assert (Hsame : new = old ->
    same_identity new old /\
    (Version new = Version old \/ Version new = int_add (Version old) 1) /\
    exists records,
      History new = History old ++ records /\
      (length records <= size updates)%nat /\
      Forall (fun r => User r = CurrentUser (dm w) /\
                is_Some (updates !! Field r) /\
                clock w <= Timestamp r <
                  clock (outcome_world
                           (UpdateItem range opaque index updates w)))
             records).
  { intros ->. split; [done|]. split; [by left|]. exists [].
    rewrite app_nil_r. split; [done|]. split; [simpl; lia|constructor]. }
  destruct (UpdateItem_outcome range opaque index updates w)
    as [[Hget Hw]|(oldItem & item' & records & w0 & t' & Hget & Hw0 & Hout
                   & Hid & Hh & Hv & Ht & Hn & Hrec)].
  { apply Hsame. rewrite Hw in Hnew. congruence. }
  apply slice_get_Some in Hget as [Hidx Hget].
  assert (Hds : Dataset (dm (outcome_world
                  (UpdateItem range opaque index updates w)))
                = <[Z.to_nat index := item']> (Dataset (dm w))).
  { destruct Hout as [->| ->]; [by subst w0|].
    rewrite UpdateMetadata_Dataset. by subst w0. }
  assert (Hclock : t' <= clock (outcome_world
                            (UpdateItem range opaque index updates w))).
  { destruct Hout as [->| ->]; [subst w0; simpl; lia|].
    rewrite UpdateMetadata_clock. subst w0. simpl. lia. }
  rewrite Hds in Hnew.
  destruct (decide (k = Z.to_nat index)) as [->|Hne].
  - rewrite list_lookup_insert_eq in Hnew
      by (unfold len in Hidx; lia).
    injection Hnew as <-. rewrite Hget in Hold. injection Hold as <-.
    split; [done|]. split; [done|]. exists records. split; [done|].
    split.
    + by rewrite <- (range_length range updates Hr).
    + eapply Forall_impl; [exact Hrec|]. intros r (Hu & Hf & Hts).
      split; [done|]. split; [|lia].
      apply list_elem_of_fmap in Hf as ([f v] & -> & Hin).
      rewrite (Hr GoValue updates) in Hin.
      apply elem_of_map_to_list in Hin. eauto.
  - rewrite list_lookup_insert_ne in Hnew by done.
    apply Hsame. congruence.
Qed.

Lemma UpdateItem_append_only_witness :
  exists new,
    Dataset (dm (outcome_world
      (UpdateItem (fun V m => map_to_list m) (fun _ => "") 0
         {[ "Text" := VString "x" ]}
         {| dm := set_Dataset [new_item 1 0] (dm (NewDataManager 0));
            clock := 5 |})))
      !! 0%nat = Some new /\
    ID new = 1 /\ Text new = "" /\ length (History new) = 1%nat.
Proof.
  eexists. split; [vm_compute; reflexivity|].
  match goal with
  | |- ID ?n = _ /\ _ =>
      destruct (UpdateItem_append_only (fun V m => map_to_list m)
                  (fun _ => "") 0 {[ "Text" := VString "x" ]}
                  {| dm := set_Dataset [new_item 1 0] (dm (NewDataManager 0));
                     clock := 5 |} 0%nat (new_item 1 0) n
                  enumerates_map_to_list eq_refl)
        as ((HID & HT & _) & _ & _)
  end.
  - vm_compute. reflexivity.
  - split; [exact HID|]. split; [exact HT|]. reflexivity.
Defined.

(** ** Item update: when it returns *)

Lemma FieldByName_struct_field it field v :
  FieldByName it field = Some v -> struct_field field = true.
Proof.
  intros H. destruct (struct_field field) eqn:E; [done|].
  by rewrite (FieldByName_None it field E) in H.
Qed.

(** The loop over the updates runs to its end only when every field
    named is a field of the struct. *)
Lemma apply_updates_completes opaque user oldItem updates item t item' t' :
  apply_updates opaque user oldItem updates item t = (None, item', t') ->
  Forall (fun e => struct_field e.1 = true) updates.
Proof.
  revert item t. induction updates as [|[field value] updates IH];
    intros item t H; [constructor|].
  cbn [apply_updates] in H.
  destruct (assign_field field value item) as [item1|]; [|done].
  cbn [time_Now] in H.
  destruct (FieldByName oldItem field) as [old|] eqn:E; [|done].
  constructor; [by eapply FieldByName_struct_field|by eapply IH].
Qed.

(** X11: [UpdateItem] returns exactly when the index is a position of the
    store and every field named in the update is, letter for letter,
    the name of a field of the item struct; the names [label], [tags]
    and [category] that its [switch] assigns are none.  So a call that
    returns has changed no value of any item: label, tags and category
    included, each item is as before but for the audit trail of the one
    updated. *)
Theorem UpdateItem_returns_iff (range : Range) opaque index updates w :
  enumerates range ->
  ((exists w', UpdateItem range opaque index updates w = Returned tt w') <->
   0 <= index < len (Dataset (dm w)) /\
   forall k, is_Some (updates !! k) -> struct_field k = true) /\
  (forall w',
     UpdateItem range opaque index updates w = Returned tt w' ->
     (forall k, is_Some (updates !! k) -> recognized k = false) /\
     forall k old,
       Dataset (dm w) !! k = Some old ->
       exists new, Dataset (dm w') !! k = Some new /\ same_values new old).
Proof.
  intros Hr.
  assert (Hkeys : Forall (fun e => struct_field e.1 = true)
                    (range GoValue updates) <->
                  forall k, is_Some (updates !! k) -> struct_field k = true).
  { rewrite Forall_forall. split.
    - intros H k [v Hk]. apply (H (k, v)). by apply range_elem.
    - intros H [k v] Hin. apply H. exists v. by apply range_elem in Hin. }
  destruct (slice_get (Dataset (dm w)) index) as [oldItem|] eqn:Hget.
  - pose proof (slice_get_Some _ _ _ Hget) as [Hidx Hold].
    destruct (apply_updates opaque (CurrentUser (dm w)) oldItem
                (range GoValue updates) oldItem (clock w))
      as [[p item'] t'] eqn:Hloop.
    destruct p as [p|].
    + rewrite (UpdateItem_panicked range opaque index updates w oldItem p
                 item' t' Hget Hloop).
      split; [|done]. split; [by intros [w' [=]]|].
      intros [_ Hall]. apply Hkeys in Hall.
      destruct (apply_updates_struct_fields opaque (CurrentUser (dm w))
                  oldItem _ oldItem (clock w) Hall) as (i & r & Hi & _).
      rewrite Hi in Hloop. done.
    + rewrite (UpdateItem_returned range opaque index updates w oldItem
                 item' t' Hget Hloop).
      pose proof (apply_updates_completes _ _ _ _ _ _ _ _ Hloop) as Hall.
      split.
      * split; [|eauto]. intros _. split; [done|]. by apply Hkeys.
      * intros w' [= <-]. split.
        { intros k Hk. apply struct_field_not_recognized. by apply Hkeys. }
        rewrite UpdateMetadata_Dataset. cbn [dm Dataset set_Dataset].
        destruct (apply_updates_struct_fields opaque (CurrentUser (dm w))
                    oldItem _ oldItem (clock w) Hall)
          as (i & r & Hi & Hv & _).
        rewrite Hi in Hloop. injection Hloop as <- _.
        intros k old Hk.
        destruct (decide (k = Z.to_nat index)) as [->|Hne].
        -- rewrite list_lookup_insert_eq by (unfold len in Hidx; lia).
           eexists. split; [reflexivity|].
           rewrite Hold in Hk. injection Hk as <-. exact Hv.
        -- rewrite list_lookup_insert_ne by done. exists old.
           split; [done|]. repeat split.
  - apply slice_get_None in Hget as Hout.
    unfold UpdateItem. rewrite Hget. split; [|done].
    split; [by intros [w' [=]]|]. intros [Hidx _]. lia.
Qed.

Lemma UpdateItem_returns_iff_witness :
  exists w',
    UpdateItem (fun V m => map_to_list m) (fun _ => "") 0
      {[ "Text" := VString "x" ]}
      {| dm := set_Dataset [new_item 1 0] (dm (NewDataManager 0));
         clock := 5 |} = Returned tt w'.
Proof.
  apply (proj1 (UpdateItem_returns_iff (fun V m => map_to_list m)
                  (fun _ => "") 0 {[ "Text" := VString "x" ]}
                  {| dm := set_Dataset [new_item 1 0] (dm (NewDataManager 0));
                     clock := 5 |} enumerates_map_to_list)).
  split; [vm_compute; split; [discriminate|reflexivity]|].
  intros k [v Hk]. apply lookup_singleton_Some in Hk as [<- _]. reflexivity.
Defined.

(** ** What the program never does *)

Lemma set_field_fold_same_record record entries it it' :
  foldl (set_field record) (Some it) entries = Some it' -> same_record it' it.
Proof.
  revert it. induction entries as [|e entries IH]; intros it Hfold.
  - simpl in Hfold. injection Hfold as <-. repeat split.
  - cbn [foldl] in Hfold.
    destruct (set_field record (Some it) e) as [it1|] eqn:E1;
      [|by rewrite set_field_None in Hfold].
    pose proof (set_field_same_record record it e it1 E1) as H1.
    pose proof (IH it1 Hfold) as H2.
    unfold same_record in *. intuition congruence.
Qed.

Lemma scan_verified_none ds :
  (forall k it, ds !! k = Some it -> UserVerified it = false) ->
  foldl scan_verified 0 ds = 0.
Proof.
  induction ds as [|it ds IH]; intros H; [done|].
  cbn [foldl]. unfold scan_verified at 2.
  rewrite (H 0%nat it eq_refl). apply IH.
  intros k it' Hk. by apply (H (S k)).
Qed.

Lemma UpdateMetadata_invariant range w :
  items_invariant (dm w) -> store_invariant (dm (UpdateMetadata range w)).
Proof.
  intros (Hit & Hn & Hmv & Ha & Hf & Hb & Hu). unfold store_invariant.
  rewrite UpdateMetadata_Dataset, UpdateMetadata_Metadata,
    UpdateMetadata_Metrics, UpdateMetadata_BackupPath,
    UpdateMetadata_CurrentUser.
  cbv zeta. cbn [VerifiedItems TotalItems DatasetSize Name MetaVersion
                 Accuracy F1Score].
  pose proof (len_nonneg (Dataset (dm w))).
  split; [done|]. split.
  { apply scan_verified_none. intros k it Hk. by apply (Hit k it Hk). }
  split; [lia|]. split; [lia|]. done.
Qed.

Lemma store_items_invariant d : store_invariant d -> items_invariant d.
Proof. unfold store_invariant, items_invariant. tauto. Qed.

(** A store whose items grew or changed under the invariant, with the
    derived state left as it was. *)
Lemma set_Dataset_invariant ds d :
  store_invariant d ->
  (forall k it, ds !! k = Some it -> unreviewed k it) ->
  len (Dataset d) <= len ds ->
  store_invariant (set_Dataset ds d).
Proof.
  intros (_ & Hv & Ht & Hs & Hrest) Hds Hlen. unfold store_invariant.
  cbn [set_Dataset Dataset Metadata Metrics BackupPath CurrentUser].
  split; [done|]. split; [done|]. split; [lia|]. split; [lia|done].
Qed.

Lemma import_rows_invariant range fields headerMap rows w :
  store_invariant (dm w) ->
  store_invariant
    (dm (outcome_world (import_rows range fields headerMap rows w))).
Proof.
  revert w. induction rows as [|[record|] rows IH]; intros w Hinv;
    [done| |done].
  cbn [import_rows].
  destruct (negb (length record =? fields)%nat); [done|].
  cbn [time_Now].
  destruct (foldl (set_field record) _ (range Z headerMap)) as [item|] eqn:E;
    [|done].
  apply IH. cbn [dm].
  apply set_field_fold_same_record in E
    as (HID & HC & HV & HP & _ & _ & HVB & HRS & HH).
  cbn [new_item ID Confidence UserVerified ModelPreds VerifiedBy ReviewStatus
       History] in *.
  apply set_Dataset_invariant; [done| |].
  - intros k it Hk. apply lookup_app_Some in Hk as [Hk|[Hge Hk]].
    + by apply Hinv.
    + apply list_lookup_singleton_Some in Hk as [Hk0 <-].
      assert (k = length (Dataset (dm w))) as -> by lia.
      unfold unreviewed. rewrite HID, HV, HC, HP, HVB, HRS, HH.
      split; [done|]. repeat (split; [done|]). constructor.
  - unfold len. rewrite length_app. simpl. lia.
Qed.

Lemma ImportCSV_invariant (lower : string -> string) range reader w :
  store_invariant (dm w) ->
  store_invariant (dm (outcome_world (ImportCSV range lower reader w))).
Proof.
  intros Hinv. unfold ImportCSV.
  destruct reader as [|[headers|] rows]; [done| |done].
  pose proof (import_rows_invariant range (length headers)
                (build_headerMap lower headers) rows w Hinv) as H.
  destruct (import_rows range (length headers) (build_headerMap lower headers)
              rows w) as [[e|] w'|p w']; [done| |done].
  cbn [outcome_world] in *.
  by apply UpdateMetadata_invariant, store_items_invariant.
Qed.

Lemma UpdateItem_invariant range opaque index updates w :
  store_invariant (dm w) ->
  store_invariant (dm (outcome_world (UpdateItem range opaque index updates w))).
Proof.
  intros Hinv.
  destruct (UpdateItem_outcome range opaque index updates w)
    as [[_ ->]|(oldItem & item' & records & w0 & t' & Hget & Hw0 & Hout
                & Hid & Hh & _ & _ & _ & Hrec)]; [done|].
  apply slice_get_Some in Hget as [Hidx Hget].
  assert (H0 : store_invariant (dm w0)).
  { subst w0. cbn [dm]. apply set_Dataset_invariant; [done| |].
    - intros k it Hk.
      destruct (decide (k = Z.to_nat index)) as [->|Hne].
      + rewrite list_lookup_insert_eq in Hk by (unfold len in Hidx; lia).
        injection Hk as <-.
        destruct Hinv as (Hitems & _ & _ & _ & _ & _ & _ & _ & _ & Huser).
        destruct (Hitems _ _ Hget) as (HID & HV & HC & HP & HVB & HRS & HH).
        destruct Hid as (H1 & _ & H3 & H4 & H5 & H6 & H7).
        unfold unreviewed. rewrite H1, H3, H4, H5, H6, H7, Hh.
        repeat (split; [done|]). apply Forall_app. split; [done|].
        eapply Forall_impl; [exact Hrec|]. intros r (Hu & _). congruence.
      + rewrite list_lookup_insert_ne in Hk by done.
        destruct Hinv as (Hitems & _). by apply Hitems.
    - unfold len. rewrite length_insert. lia. }
  destruct Hout as [->| ->]; [done|].
  by apply UpdateMetadata_invariant, store_items_invariant.
Qed.

(** X12: In every state the program can reach, no item is verified, scored
    or reviewed and the metadata counts no verified item; item [k]
    bears the ID [k + 1]; every change record has an empty user, the
    current user being never set; and the totals of the metadata and of
    the metrics, which a failed call leaves stale, never exceed the
    number of items. *)
Theorem reachable_store_invariant opaque w :
  reachable opaque w -> store_invariant (dm w).
Proof.
  induction 1 as [t|range lower reader w _ IH|range index updates w _ IH
                  |range w _ IH].
  - unfold store_invariant, NewDataManager. cbn.
    split; [intros k it Hk; by rewrite lookup_nil in Hk|].
    unfold len. simpl. repeat split; lia.
  - by apply ImportCSV_invariant.
  - by apply UpdateItem_invariant.
  - by apply UpdateMetadata_invariant, store_items_invariant.
Qed.

Lemma reachable_store_invariant_witness :
  store_invariant
    (dm (outcome_world
           (UpdateItem (fun V m => map_to_list m) (fun _ => "") 0
              {[ "label" := VString "pos" ]}
              (outcome_world
                 (ImportCSV (fun V m => map_to_list m) id scenario_A
                    (NewDataManager 0)))))).
Proof.
  apply (reachable_store_invariant (fun _ => "")).
  apply reachable_UpdateItem, (reachable_ImportCSV _ _ id), reachable_new.
Defined.

(** ** The verified percentage at its two ends *)

Lemma float_zero_div (y : float) m e :
  Prim2SF y = S754_finite false m e -> (0 / y)%float = 0%float.
Proof.
  intros Hy. apply Prim2SF_inj. rewrite div_spec, Hy. reflexivity.
Qed.

Lemma verified_count_all ds :
  Forall (fun it => UserVerified it = true) ds -> verified_count ds = len ds.
Proof.
  induction 1 as [|it ds Hit _ IH].
  - reflexivity.
  - rewrite verified_count_cons, len_cons, Hit, IH. lia.
Qed.

Lemma verified_count_none ds :
  Forall (fun it => UserVerified it = false) ds -> verified_count ds = 0.
Proof.
  induction 1 as [|it ds Hit _ IH].
  - reflexivity.
  - rewrite verified_count_cons, Hit, IH. lia.
Qed.

(** X13: On a store that is not empty, the verified percentage is exactly 0
    when no item is verified and exactly 100 when every item is: the
    conversions to [float64] round the two counts alike, so their
    quotient is 1 even where the count is not representable. *)
Theorem UpdateMetadata_VerifiedPct_extremes (range : Range) w :
  1 <= len (Dataset (dm w)) <= max_int ->
  (Forall (fun it => UserVerified it = false) (Dataset (dm w)) ->
   VerifiedPct (Metrics (dm (UpdateMetadata range w))) = 0%float) /\
  (Forall (fun it => UserVerified it = true) (Dataset (dm w)) ->
   VerifiedPct (Metrics (dm (UpdateMetadata range w))) = 100%float).
Proof.
  intros Hlen. rewrite UpdateMetadata_Metrics. cbv zeta. cbn [VerifiedPct].
  rewrite scan_verified_fold by lia. rewrite Z.add_0_l.
  split; intros Hall.
  - rewrite (verified_count_none _ Hall).
    destruct (float64_finite _ Hlen) as (m & e & Hf).
    replace (float64 0) with 0%float by (vm_compute; reflexivity).
    rewrite (float_zero_div _ m e Hf). vm_compute. reflexivity.
  - rewrite (verified_count_all _ Hall), (float64_div_self _ Hlen).
    vm_compute. reflexivity.
Qed.

Lemma UpdateMetadata_VerifiedPct_extremes_witness :
  VerifiedPct
    (Metrics (dm (UpdateMetadata (fun V m => map_to_list m)
       {| dm := set_Dataset [new_item 1 0; new_item 2 1]
                  (dm (NewDataManager 0));
          clock := 4 |}))) = 0%float.
Proof.
  apply (UpdateMetadata_VerifiedPct_extremes (fun V m => map_to_list m)).
  - vm_compute. split; discriminate.
  - repeat constructor.
Defined.

(** ** The entries of the bias map *)

Lemma bias_scan_fst ds (acc : gmap string Z * gmap string float) :
  (foldl bias_scan acc ds).1 = foldl scan_label acc.1 ds.
Proof.
  revert acc. induction ds as [|it ds IH]; intros acc; [done|].
  cbn [foldl]. by rewrite IH.
Qed.

Lemma bias_scan_snd l ds (acc : gmap string Z * gmap string float) :
  default 0%float ((foldl bias_scan acc ds).2 !! l) =
  foldl PrimFloat.add (default 0%float (acc.2 !! l)) (label_lengths l ds).
Proof.
  revert acc. induction ds as [|it ds IH]; intros acc; [done|].
  cbn [foldl]. rewrite IH. unfold label_lengths. cbn [List.filter].
  unfold bias_scan. cbn [snd]. unfold add_float.
  destruct (String.eqb_spec (Label it) l) as [Heq|Hne].
  - subst l. rewrite lookup_insert_eq. reflexivity.
  - by rewrite lookup_insert_ne.
Qed.

Lemma text_length_key_inj l l' :
  "text_length_" +:+ l = "text_length_" +:+ l' -> l = l'.
Proof. intros H. cbn in H. by simplify_eq. Qed.

Lemma text_length_key_bias l : "text_length_" +:+ l <> "distribution_bias".
Proof. cbn. discriminate. Qed.

Lemma bias_loop_cons tl total e b m l c entries :
  bias_loop tl total e (b, m) ((l, c) :: entries) =
  bias_loop tl total e
    ((b + abs (float64 c / float64 total - e))%float,
     if 0 <? c
     then <["text_length_" +:+ l := (default 0%float (tl !! l) / float64 c)%float]> m
     else m)
    entries.
Proof. reflexivity. Qed.

Lemma bias_loop_other tl total e entries acc k :
  (forall l c, (l, c) ∈ entries -> "text_length_" +:+ l <> k) ->
  (bias_loop tl total e acc entries).2 !! k = acc.2 !! k.
Proof.
  revert acc. induction entries as [|[l c] entries IH]; intros [b m] H;
    [done|].
  rewrite bias_loop_cons, IH.
  - cbn [snd]. destruct (0 <? c); [|done].
    rewrite lookup_insert_ne; [done|]. apply (H l c), elem_of_cons. auto.
  - intros l' c' Hin. apply (H l' c'), elem_of_cons. auto.
Qed.

Lemma bias_loop_entry tl total e entries acc l c :
  NoDup entries.*1 -> (l, c) ∈ entries -> 0 < c ->
  (bias_loop tl total e acc entries).2 !! ("text_length_" +:+ l) =
  Some (default 0%float (tl !! l) / float64 c)%float.
Proof.
  revert acc. induction entries as [|[l0 c0] entries IH];
    intros [b m] Hnd Hin Hc.
  - by apply elem_of_nil in Hin.
  - rewrite fmap_cons in Hnd. apply NoDup_cons in Hnd as [Hl0 Hnd].
    rewrite bias_loop_cons.
    apply elem_of_cons in Hin as [[= <- <-]|Hin].
    + rewrite bias_loop_other.
      * cbn [snd]. destruct (Z.ltb_spec 0 c) as [_|]; [|lia].
        by rewrite lookup_insert_eq.
      * intros l' c' Hin' Heq%text_length_key_inj. subst l'.
        apply Hl0. apply list_elem_of_fmap. by exists (l, c').
    + by apply IH.
Qed.

Lemma bias_loop_keys tl total e entries acc k :
  is_Some ((bias_loop tl total e acc entries).2 !! k) ->
  is_Some (acc.2 !! k) \/
  exists l c, (l, c) ∈ entries /\ 0 < c /\ k = "text_length_" +:+ l.
Proof.
  revert acc. induction entries as [|[l0 c0] entries IH]; intros [b m] H.
  - by left.
  - rewrite bias_loop_cons in H. apply IH in H as [H|H].
    + cbn [snd] in *. destruct (Z.ltb_spec 0 c0) as [Hc|Hc]; [|by left].
      apply lookup_insert_is_Some in H as [<-|[_ H]]; [|by left].
      right. exists l0, c0. split; [apply elem_of_cons; auto|done].
    + right. destruct H as (l & c & Hin & Hc & ->).
      exists l, c. split; [apply elem_of_cons; auto|done].
Qed.

Lemma calculateBiasMetrics_unfold (range : Range) ds :
  calculateBiasMetrics range ds =
  let scanned := foldl bias_scan (∅, ∅) ds in
  let n := float64 (Z.of_nat (size scanned.1)) in
  let looped :=
    bias_loop scanned.2 (len ds) (1 / n)%float (0%float, ∅)
      (range Z scanned.1) in
  <["distribution_bias" := (looped.1 / n)%float]> looped.2.
Proof.
  unfold calculateBiasMetrics. rewrite bias_scan_fold.
  destruct (foldl bias_scan (∅, ∅) ds) as [lc tl]. cbv zeta. cbn [fst snd].
  unfold bias_loop.
  by destruct (foldl _ (0%float, ∅) (range Z lc)) as [b m].
Qed.

(** X14: The bias map has the entry [distribution_bias] and, for each label
    an item bears, the entry [text_length_<label>], and no other; the
    latter holds the sum of the lengths of the texts so labelled, added
    up in the order of the items, divided by their number. *)
Theorem calculateBiasMetrics_entries (range : Range) ds :
  enumerates range -> len ds <= max_int ->
  (forall k, is_Some (calculateBiasMetrics range ds !! k) <->
             k = "distribution_bias" \/
             exists it, it ∈ ds /\ k = "text_length_" +:+ Label it) /\
  (forall it, it ∈ ds ->
     calculateBiasMetrics range ds !! ("text_length_" +:+ Label it) =
     Some (total_length (Label it) ds
           / float64 (label_count (Label it) ds))%float).
Proof.
  intros Hr Hmax. rewrite calculateBiasMetrics_unfold. cbv zeta.
  set (scanned := foldl bias_scan (∅, ∅) ds).
  assert (Hfst : scanned.1 = foldl scan_label ∅ ds) by apply bias_scan_fst.
  assert (Hcount : forall l c, scanned.1 !! l = Some c ->
                               c = label_count l ds /\ 1 <= c /\
                               exists it, it ∈ ds /\ Label it = l).
  { intros l c Hl. rewrite Hfst in Hl.
    pose proof (scan_label_count l ds ∅) as Hc.
    rewrite lookup_empty, Hl in Hc. simpl in Hc.
    assert (Hc' : c = label_count l ds) by lia.
    pose proof (proj1 (scan_label_keys ds ∅ l) ltac:(eauto)) as [H|H].
    { rewrite lookup_empty in H. by apply is_Some_None in H. }
    split; [done|]. split; [|done]. rewrite Hc'. by apply label_count_pos. }
  assert (Hpresent : forall it, it ∈ ds ->
                       scanned.1 !! Label it = Some (label_count (Label it) ds)).
  { intros it Hit.
    destruct (proj2 (scan_label_keys ds ∅ (Label it))) as [c Hc]; [eauto|].
    rewrite <- Hfst in Hc. by destruct (Hcount _ _ Hc) as [<- _]. }
  assert (Hsum : forall l, default 0%float (scanned.2 !! l) = total_length l ds).
  { intros l. unfold scanned. rewrite bias_scan_snd.
    cbn [snd]. by rewrite lookup_empty. }
  split.
  - intros k. rewrite lookup_insert_is_Some. split.
    + intros [<-|[Hne H]]; [by left|]. right.
      apply bias_loop_keys in H as [H|(l & c & Hin & Hc & ->)].
      { cbn [snd] in H. rewrite lookup_empty in H. by apply is_Some_None in H. }
      apply range_elem in Hin; [|done].
      destruct (Hcount _ _ Hin) as (_ & _ & it & Hit & <-). eauto.
    + intros [->|(it & Hit & ->)]; [by left|]. right.
      split; [apply not_eq_sym, text_length_key_bias|].
      rewrite (bias_loop_entry _ _ _ _ _ (Label it)
                 (label_count (Label it) ds)); [eauto| | |].
      * by apply range_NoDup_keys.
      * apply range_elem; [done|]. by apply Hpresent.
      * assert (1 <= label_count (Label it) ds); [|lia].
        apply label_count_pos. eauto.
  - intros it Hit.
    rewrite lookup_insert_ne by (apply not_eq_sym, text_length_key_bias).
    rewrite (bias_loop_entry _ _ _ _ _ (Label it)
               (label_count (Label it) ds)).
    + by rewrite Hsum.
    + by apply range_NoDup_keys.
    + apply range_elem; [done|]. by apply Hpresent.
    + assert (1 <= label_count (Label it) ds); [|lia].
      apply label_count_pos. eauto.
Qed.

Lemma calculateBiasMetrics_entries_witness :
  calculateBiasMetrics (fun V m => map_to_list m)
    [set_Text "ab" (set_Label "pos" (new_item 1 0));
     set_Text "abcd" (set_Label "pos" (new_item 2 1))]
    !! "text_length_pos" = Some 3%float.
Proof.
  destruct (calculateBiasMetrics_entries (fun V m => map_to_list m)
              [set_Text "ab" (set_Label "pos" (new_item 1 0));
               set_Text "abcd" (set_Label "pos" (new_item 2 1))]
              enumerates_map_to_list) as [_ H].
  - vm_compute. discriminate.
  - etransitivity.
    + apply (H (set_Text "ab" (set_Label "pos" (new_item 1 0)))).
      apply elem_of_cons. by left.
    + vm_compute. reflexivity.
Defined.

(** ** The extremes of a slice of floats *)

Lemma SFltb_irrefl x : SFltb x x = false.
Proof.
  unfold SFltb, SFcompare. destruct x as [[]|[]| |[] m e]; try done;
    rewrite Z.compare_refl;
    change (Pcompare m m Eq) with (Pos.compare m m);
    by rewrite Pos.compare_refl.
Qed.

Lemma SFltb_trans x y z :
  SFltb x y = true -> SFltb y z = true -> SFltb x z = true.
Proof.
  unfold SFltb, SFcompare.
  destruct x as [[]|[]| |[] mx ex], y as [[]|[]| |[] my ey],
    z as [[]|[]| |[] mz ez];
    try discriminate; try reflexivity;
    change (Pcompare ?a ?b Eq) with (Pos.compare a b);
    destruct (Z.compare_spec ex ey), (Z.compare_spec ey ez),
      (Z.compare_spec ex ez);
    try discriminate; try reflexivity; try lia;
    destruct (Pos.compare_spec mx my), (Pos.compare_spec my mz),
      (Pos.compare_spec mx mz);
    simpl; try discriminate; try reflexivity; lia.
Qed.

Lemma float_ltb_irrefl (x : float) : (x <? x)%float = false.
Proof. rewrite ltb_spec. apply SFltb_irrefl. Qed.

Lemma float_ltb_trans (x y z : float) :
  (x <? y)%float = true -> (y <? z)%float = true -> (x <? z)%float = true.
Proof. rewrite !ltb_spec. apply SFltb_trans. Qed.

(** The loop of [minMax], from the slice [seen] already visited on:
    the two bounds are values met, no value visited lies below the one
    or above the other. *)
Lemma minMax_fold (v0 : float) (todo seen : list float) mn mx :
  mn ∈ v0 :: seen -> mx ∈ v0 :: seen ->
  (forall u, u ∈ seen -> (u <? mn)%float = false /\ (mx <? u)%float = false) ->
  let r := foldl (fun '(mn, mx) v =>
                    let mn := if (v <? mn)%float then v else mn in
                    let mx := if (mx <? v)%float then v else mx in
                    (mn, mx))
                 (mn, mx) todo in
  r.1 ∈ v0 :: seen ++ todo /\ r.2 ∈ v0 :: seen ++ todo /\
  (forall u, u ∈ seen ++ todo ->
             (u <? r.1)%float = false /\ (r.2 <? u)%float = false).
Proof.
  revert seen mn mx. induction todo as [|v todo IH]; intros seen mn mx Hmn Hmx Hb.
  - cbv zeta. cbn [foldl fst snd]. rewrite app_nil_r. done.
  - cbv zeta. cbn [foldl].
    replace (seen ++ v :: todo) with ((seen ++ [v]) ++ todo)
      by (by rewrite <- app_assoc).
    apply IH.
    + destruct (v <? mn)%float.
      * apply elem_of_cons. right. apply elem_of_app. right.
        by apply list_elem_of_singleton.
      * apply elem_of_cons in Hmn as [->|Hmn]; apply elem_of_cons; [by left|].
        right. apply elem_of_app. by left.
    + destruct (mx <? v)%float.
      * apply elem_of_cons. right. apply elem_of_app. right.
        by apply list_elem_of_singleton.
      * apply elem_of_cons in Hmx as [->|Hmx]; apply elem_of_cons; [by left|].
        right. apply elem_of_app. by left.
    + intros u [Hu|Hu%list_elem_of_singleton]%elem_of_app.
      * destruct (Hb u Hu) as [Hlo Hhi]. split.
        -- destruct (v <? mn)%float eqn:E; [|done].
           destruct (u <? v)%float eqn:E'; [|done].
           by rewrite (float_ltb_trans u v mn E' E) in Hlo.
        -- destruct (mx <? v)%float eqn:E; [|done].
           destruct (v <? u)%float eqn:E'; [|done].
           by rewrite (float_ltb_trans mx v u E E') in Hhi.
      * subst u. split.
        -- destruct (v <? mn)%float eqn:E; [apply float_ltb_irrefl|done].
        -- destruct (mx <? v)%float eqn:E; [apply float_ltb_irrefl|done].
Qed.

(** X15: [minMax] returns two values of the slice, [(0, 0)] for the empty
    one, such that no value of the slice compares below the first or
    above the second.  With a NaN in the slice this makes neither a
    minimum nor a maximum in the usual sense, every comparison with NaN
    being false: a leading NaN is returned as both. *)
Theorem minMax_bounds (values : list float) :
  (values = [] -> minMax values = (0%float, 0%float)) /\
  (values <> [] ->
   (minMax values).1 ∈ values /\ (minMax values).2 ∈ values) /\
  (forall v, v ∈ values ->
     (v <? (minMax values).1)%float = false /\
     ((minMax values).2 <? v)%float = false) /\
  (forall rest, values = nan :: rest -> minMax values = (nan, nan)).
Proof.
  split; [by intros ->|].
  destruct values as [|v0 rest].
  { split; [done|]. split; [|done]. intros v Hv. by apply elem_of_nil in Hv. }
  pose proof (minMax_fold v0 (v0 :: rest) [] v0 v0) as H.
  cbv zeta in H. rewrite app_nil_l in H.
  destruct H as (Hmn & Hmx & Hb).
  { apply elem_of_cons. by left. }
  { apply elem_of_cons. by left. }
  { intros u Hu. by apply elem_of_nil in Hu. }
  unfold minMax. split; [|split].
  - intros _. split.
    + apply elem_of_cons in Hmn as [->|Hmn]; [apply elem_of_cons; by left|done].
    + apply elem_of_cons in Hmx as [->|Hmx]; [apply elem_of_cons; by left|done].
  - exact Hb.
  - intros rest' [= -> ->]. clear.
    assert (Hnan : forall l,
      foldl (fun '(mn, mx) v =>
               let mn := if (v <? mn)%float then v else mn in
               let mx := if (mx <? v)%float then v else mx in
               (mn, mx)) (nan, nan) l = (nan, nan)).
    { induction l as [|v l IH]; [done|]. cbn [foldl]. cbv zeta.
      assert (H1 : (v <? nan)%float = false).
      { rewrite ltb_spec. change (Prim2SF nan) with S754_nan.
        unfold SFltb, SFcompare. by destruct (Prim2SF v) as [[]|[]| |[] ? ?]. }
      assert (H2 : (nan <? v)%float = false).
      { rewrite ltb_spec. change (Prim2SF nan) with S754_nan. done. }
      by rewrite H1, H2. }
    apply Hnan.
Qed.

Lemma minMax_bounds_witness :
  (2 <? (minMax [3; 1; 2]%float).1)%float = false /\
  minMax [nan; 1; 2]%float = (nan, nan).
Proof.
  destruct (minMax_bounds [3; 1; 2]%float) as (_ & _ & H & _).
  destruct (minMax_bounds [nan; 1; 2]%float) as (_ & _ & _ & H').
  split.
  - apply (H 2%float). apply elem_of_cons. right. apply elem_of_cons. right.
    apply elem_of_cons. by left.
  - by apply (H' [1; 2]%float).
Defined.

(** ** The alerts *)

Lemma SFcompare_not_lt x y :
  x <> S754_nan -> y <> S754_nan -> SFltb x y = false -> SFleb y x = true.
Proof.
  unfold SFltb, SFleb, SFcompare.
  destruct x as [[]|[]| |[] mx ex], y as [[]|[]| |[] my ey];
    try done; intros _ _;
    change (Pcompare ?a ?b Eq) with (Pos.compare a b);
    destruct (Z.compare_spec ex ey), (Z.compare_spec ey ex);
    try done; try lia;
    destruct (Pos.compare_spec mx my), (Pos.compare_spec my mx);
    simpl; try done; lia.
Qed.

Lemma is_nan_Prim2SF x : is_nan x = false -> Prim2SF x <> S754_nan.
Proof.
  unfold is_nan. rewrite FloatAxioms.eqb_spec. intros H E. rewrite E in H. done.
Qed.

Lemma float_not_lt_le (x y : float) :
  is_nan x = false -> is_nan y = false ->
  (x <? y)%float = false -> (y <=? x)%float = true.
Proof.
  intros Hx Hy. rewrite FloatAxioms.ltb_spec, FloatAxioms.leb_spec.
  apply SFcompare_not_lt; by apply is_nan_Prim2SF.
Qed.

Lemma nonneg_float_not_nan x : nonneg_float x -> is_nan x = false.
Proof.
  unfold nonneg_float, is_nan. rewrite FloatAxioms.eqb_spec.
  destruct (Prim2SF x) as [[]|[]| |[] m e]; try done; intros _.
  unfold SFeqb, SFcompare. rewrite Z.compare_refl.
  change (Pcompare m m Eq) with (Pos.compare m m).
  by rewrite Pos.compare_refl.
Qed.

(** What [minMax] returns on a slice without NaN: a least and a
    greatest element. *)
Lemma minMax_extremes (values : list float) :
  values <> [] -> Forall (fun v => is_nan v = false) values ->
  is_minimum (minMax values).1 values /\ is_maximum (minMax values).2 values.
Proof.
  intros Hne Hnan. destruct values as [|v0 rest]; [done|].
  pose proof (minMax_fold v0 (v0 :: rest) [] v0 v0) as H.
  cbv zeta in H. rewrite app_nil_l in H.
  destruct H as (Hmn & Hmx & Hb).
  { apply elem_of_cons. by left. }
  { apply elem_of_cons. by left. }
  { intros u Hu. by apply elem_of_nil in Hu. }
  unfold minMax.
  assert (Hmn' : forall x, x ∈ v0 :: v0 :: rest -> x ∈ v0 :: rest).
  { intros x [->|Hx]%elem_of_cons; [apply elem_of_cons; by left|done]. }
  apply Hmn' in Hmn. apply Hmn' in Hmx.
  rewrite Forall_forall in Hnan.
  split; (split; [done|]); intros v Hv; destruct (Hb v Hv) as [Hlo Hhi].
  - apply float_not_lt_le; [by apply Hnan..|done].
  - apply float_not_lt_le; [by apply Hnan..|done].
Qed.

Lemma shr_fexp_nonneg m e l :
  0 <= m -> 0 <= shr_m (shr_fexp prec emax m e l).1.
Proof.
  intros Hm. unfold shr_fexp, shr.
  destruct (fexp prec emax (Zdigits2 m + e) - e) as [|p|p]; cbn [fst].
  - by rewrite shr_record_of_loc_m.
  - rewrite iter_shr_1_m by by rewrite shr_record_of_loc_m.
    rewrite shr_record_of_loc_m. apply Z.div_pos; [done|].
    apply pow2_pos. lia.
  - by rewrite shr_record_of_loc_m.
Qed.

Lemma round_nearest_even_nonneg m l : 0 <= m -> 0 <= round_nearest_even m l.
Proof.
  intros Hm. destruct l as [|[]]; simpl; try lia.
  destruct (Z.even m); lia.
Qed.

(** Rounding a mantissa that is not negative gives a number of the
    sign asked for, zero and infinity included, never NaN. *)
Lemma binary_round_aux_sign sx m e l :
  0 <= m -> has_sign sx (binary_round_aux prec emax sx m e l).
Proof.
  intros Hm. unfold binary_round_aux.
  pose proof (shr_fexp_nonneg m e l Hm) as H1.
  destruct (shr_fexp prec emax m e l) as [mrs' e']. cbn [fst] in H1.
  pose proof (round_nearest_even_nonneg (shr_m mrs') (loc_of_shr_record mrs') H1)
    as H2.
  pose proof (shr_fexp_nonneg _ e' loc_Exact H2) as H3.
  destruct (shr_fexp prec emax _ e' loc_Exact) as [mrs'' e'']. cbn [fst] in H3.
  destruct (shr_m mrs'') as [|q|q]; [done| |lia].
  by destruct (e'' <=? emax - prec).
Qed.

Lemma SFadd_nonneg x y :
  has_sign false x -> has_sign false y ->
  has_sign false (SFadd prec emax x y).
Proof.
  destruct x as [[]|[]| |[] mx ex], y as [[]|[]| |[] my ey]; try done.
  intros _ _. unfold SFadd, binary_normalize, cond_Zopp.
  destruct (shl_align mx ex (Z.min ex ey)) as [mx' ex'].
  destruct (shl_align my ey (Z.min ex ey)) as [my' ey']. cbn [fst].
  change (Zpos mx' + Zpos my') with (Zpos (mx' + my')).
  unfold binary_round.
  destruct (shl_align (mx' + my') (Z.min ex ey) _) as [mz ez].
  by apply binary_round_aux_sign.
Qed.

Lemma SFdiv_nonneg x my ey :
  has_sign false x ->
  has_sign false (SFdiv prec emax x (S754_finite false my ey)).
Proof.
  destruct x as [[]|[]| |[] mx ex]; try done. intros _.
  unfold SFdiv, SFdiv_core_binary.
  set (s := ex - ey - _).
  set (m' := match s with Z0 => Zpos mx | Zpos _ => Z.shiftl (Zpos mx) s
             | Zneg _ => 0 end).
  assert (Hm' : 0 <= m').
  { unfold m'. destruct s; [lia| |lia]. apply Z.shiftl_nonneg. lia. }
  pose proof (Z.div_pos m' (Zpos my) Hm' ltac:(lia)) as Hq.
  unfold Z.div in Hq.
  change IntDef.Z.div_eucl with Z.div_eucl.
  destruct (Z.div_eucl m' (Zpos my)) as [q r].
  by apply binary_round_aux_sign.
Qed.

Lemma nonneg_float_add (x y : float) :
  nonneg_float x -> nonneg_float y -> nonneg_float (x + y).
Proof.
  unfold nonneg_float. rewrite add_spec. intros Hx Hy.
  assert (H : has_sign false (SFadd prec emax (Prim2SF x) (Prim2SF y))).
  { apply SFadd_nonneg.
    - by destruct (Prim2SF x) as [[]|[]| |[] ? ?].
    - by destruct (Prim2SF y) as [[]|[]| |[] ? ?]. }
  unfold SF64add.
  by destruct (SFadd prec emax (Prim2SF x) (Prim2SF y)) as [[]|[]| |[] ? ?].
Qed.

Lemma float64_nonneg n : 0 <= n <= max_int -> nonneg_float (float64 n).
Proof.
  intros Hn. destruct (decide (n = 0)) as [->|Hne].
  - vm_compute. done.
  - destruct (float64_finite n ltac:(lia)) as (m & e & H).
    unfold nonneg_float. by rewrite H.
Qed.

Lemma nonneg_float_div (x : float) n :
  nonneg_float x -> 1 <= n <= max_int -> nonneg_float (x / float64 n).
Proof.
  unfold nonneg_float. rewrite div_spec. intros Hx Hn.
  destruct (float64_finite n Hn) as (m & e & ->).
  assert (H : has_sign false (SFdiv prec emax (Prim2SF x) (S754_finite false m e))).
  { apply SFdiv_nonneg. by destruct (Prim2SF x) as [[]|[]| |[] ? ?]. }
  unfold SF64div.
  by destruct (SFdiv prec emax (Prim2SF x) _) as [[]|[]| |[] ? ?].
Qed.

Lemma fsum_nonneg (xs : list float) (acc : float) :
  nonneg_float acc -> Forall nonneg_float xs ->
  nonneg_float (foldl PrimFloat.add acc xs).
Proof.
  intros Hacc H. revert acc Hacc.
  induction H as [|x xs Hx _ IH]; intros acc Hacc; [done|].
  cbn [foldl]. apply IH. by apply nonneg_float_add.
Qed.

(** ** The per-label averages *)

(** The entries of the bias map other than [distribution_bias] are the
    averages of the labels present. *)
Lemma calculateBiasMetrics_averages (range : Range) ds :
  enumerates range -> len ds <= max_int ->
  (forall it, it ∈ ds ->
     calculateBiasMetrics range ds !! ("text_length_" +:+ Label it) =
     Some (average_length (Label it) ds)) /\
  (forall k v,
     calculateBiasMetrics range ds !! k = Some v ->
     k <> "distribution_bias" ->
     exists it, it ∈ ds /\ k = "text_length_" +:+ Label it /\
                v = average_length (Label it) ds).
Proof.
  intros Hr Hmax. rewrite calculateBiasMetrics_unfold. cbv zeta.
  set (scanned := foldl bias_scan (∅, ∅) ds).
  assert (Hfst : scanned.1 = foldl scan_label ∅ ds) by apply bias_scan_fst.
  assert (Hcount : forall l c, scanned.1 !! l = Some c ->
                               c = label_count l ds /\ 1 <= c /\
                               exists it, it ∈ ds /\ Label it = l).
  { intros l c Hl. rewrite Hfst in Hl.
    pose proof (scan_label_count l ds ∅) as Hc.
    rewrite lookup_empty, Hl in Hc. simpl in Hc.
    assert (Hc' : c = label_count l ds) by lia.
    pose proof (proj1 (scan_label_keys ds ∅ l) ltac:(eauto)) as [H|H].
    { rewrite lookup_empty in H. by apply is_Some_None in H. }
    split; [done|]. split; [|done]. rewrite Hc'. by apply label_count_pos. }
  assert (Hpresent : forall it, it ∈ ds ->
                       scanned.1 !! Label it = Some (label_count (Label it) ds)).
  { intros it Hit.
    destruct (proj2 (scan_label_keys ds ∅ (Label it))) as [c Hc]; [eauto|].
    rewrite <- Hfst in Hc. by destruct (Hcount _ _ Hc) as [<- _]. }
  assert (Hsum : forall l, default 0%float (scanned.2 !! l) = total_length l ds).
  { intros l. unfold scanned. rewrite bias_scan_snd.
    cbn [snd]. by rewrite lookup_empty. }
  assert (Hentry : forall it, it ∈ ds ->
    (bias_loop scanned.2 (len ds)
       (1 / float64 (Z.of_nat (size scanned.1)))%float (0%float, ∅)
       (range Z scanned.1)).2 !! ("text_length_" +:+ Label it) =
    Some (average_length (Label it) ds)).
  { intros it Hit.
    rewrite (bias_loop_entry _ _ _ _ _ (Label it)
               (label_count (Label it) ds)).
    - unfold average_length. by rewrite Hsum.
    - by apply range_NoDup_keys.
    - apply range_elem; [done|]. by apply Hpresent.
    - assert (1 <= label_count (Label it) ds); [|lia].
      apply label_count_pos. eauto. }
  split.
  - intros it Hit.
    rewrite lookup_insert_ne by (apply not_eq_sym, text_length_key_bias).
    by apply Hentry.
  - intros k v Hk Hne. rewrite lookup_insert_ne in Hk by done.
    destruct (bias_loop_keys _ _ _ _ _ k ltac:(eauto))
      as [H|(l & c & Hin & Hc & ->)].
    { cbn [snd] in H. rewrite lookup_empty in H. by apply is_Some_None in H. }
    apply range_elem in Hin; [|done].
    destruct (Hcount _ _ Hin) as (_ & _ & it & Hit & <-).
    exists it. split; [done|]. split; [done|].
    rewrite (Hentry it Hit) in Hk. by injection Hk as <-.
Qed.

Lemma text_lengths_elem (entries : list (string * float)) v :
  v ∈ text_lengths entries <->
  exists k, (k, v) ∈ entries /\ HasPrefix k "text_length_" = true.
Proof.
  unfold text_lengths. rewrite list_elem_of_fmap. split.
  - intros ([k v'] & -> & Hin). apply list_elem_of_In, List.filter_In in Hin.
    destruct Hin as [Hin Hp]. exists k. split; [by apply list_elem_of_In|done].
  - intros (k & Hin & Hp). exists (k, v). split; [done|].
    apply list_elem_of_In, List.filter_In. split; [by apply list_elem_of_In|done].
Qed.

(** The lengths [detectSignificantBias] collects from the bias map of a
    dataset are the averages of the labels present. *)
Lemma bias_lengths_averages (range : Range) ds v :
  enumerates range -> len ds <= max_int ->
  v ∈ text_lengths (range float (calculateBiasMetrics range ds)) <->
  exists it, it ∈ ds /\ v = average_length (Label it) ds.
Proof.
  intros Hr Hmax.
  destruct (calculateBiasMetrics_averages range ds Hr Hmax) as [Hin Hout].
  rewrite text_lengths_elem. split.
  - intros (k & Hk & Hp). apply range_elem in Hk; [|done].
    destruct (Hout k v Hk) as (it & Hit & _ & Hv); [|eauto].
    intros ->. done.
  - intros (it & Hit & ->). exists ("text_length_" +:+ Label it).
    split; [|apply HasPrefix_text_length].
    apply range_elem; [done|]. by apply Hin.
Qed.

Lemma total_length_nonneg l ds :
  Forall (fun it => Z.of_nat (String.length (Text it)) <= max_int) ds ->
  nonneg_float (total_length l ds).
Proof.
  intros Hds. unfold total_length, fsum, label_lengths.
  apply fsum_nonneg; [vm_compute; done|].
  apply Forall_fmap, Forall_forall. intros it Hit.
  apply list_elem_of_In, List.filter_In in Hit as [Hit _].
  rewrite Forall_forall in Hds. apply float64_nonneg.
  split; [lia|]. apply Hds. by apply list_elem_of_In.
Qed.

(** The averages of a dataset are never NaN and never negative. *)
Lemma average_length_nonneg it ds :
  len ds <= max_int ->
  Forall (fun it => Z.of_nat (String.length (Text it)) <= max_int) ds ->
  it ∈ ds -> nonneg_float (average_length (Label it) ds).
Proof.
  intros Hmax Hds Hit. unfold average_length.
  apply nonneg_float_div; [by apply total_length_nonneg|].
  pose proof (label_count_le (Label it) ds).
  split; [apply label_count_pos; eauto|lia].
Qed.

(** What [minMax] returns in any case: two elements of the slice, below
    and above which no element compares. *)
Lemma minMax_bounding (values : list float) :
  (values <> [] ->
   (minMax values).1 ∈ values /\ (minMax values).2 ∈ values) /\
  (forall v, v ∈ values ->
     (v <? (minMax values).1)%float = false /\
     ((minMax values).2 <? v)%float = false).
Proof.
  destruct values as [|v0 rest].
  { split; [done|]. intros v Hv. by apply elem_of_nil in Hv. }
  pose proof (minMax_fold v0 (v0 :: rest) [] v0 v0) as H.
  cbv zeta in H. rewrite app_nil_l in H.
  destruct H as (Hmn & Hmx & Hb).
  { apply elem_of_cons. by left. }
  { apply elem_of_cons. by left. }
  { intros u Hu. by apply elem_of_nil in Hu. }
  unfold minMax. split; [|exact Hb].
  intros _. split.
  - apply elem_of_cons in Hmn as [->|Hmn]; [apply elem_of_cons; by left|done].
  - apply elem_of_cons in Hmx as [->|Hmx]; [apply elem_of_cons; by left|done].
Qed.

(** C8, amended: the imbalance alert is flagged exactly when
    [distribution_bias] exceeds 0.3.  The length-variation alert is
    flagged exactly when the imbalance alert is not, there are at least
    two per-label average lengths and [mx / mn] exceeds 2, where [mn]
    and [mx] are two of the averages below and above which none
    compares: their minimum and their maximum whenever none is NaN, as
    is the case of the averages of every dataset.  The alert is never
    flagged with fewer than two labels.  On a dataset with a single
    label [distribution_bias] is 0, no division by zero occurs and no
    alert is flagged. *)
Theorem bias_alerts (range : Range) :
  enumerates range ->
  (forall metrics,
     detectSignificantBias range metrics = msg_imbalance <->
     (bias_threshold <? default 0 (metrics !! "distribution_bias"))%float = true) /\
  (forall metrics,
     exists mn mx,
       let lengths := text_lengths (range float metrics) in
       (lengths <> [] -> mn ∈ lengths /\ mx ∈ lengths) /\
       (forall v, v ∈ lengths ->
          (v <? mn)%float = false /\ (mx <? v)%float = false) /\
       (lengths <> [] -> Forall (fun v => is_nan v = false) lengths ->
        is_minimum mn lengths /\ is_maximum mx lengths) /\
       (detectSignificantBias range metrics = msg_lengths <->
        (bias_threshold <? default 0 (metrics !! "distribution_bias"))%float
          = false /\
        1 < len lengths /\
        (2 <? mx / mn)%float = true)) /\
  (forall metrics,
     (length (text_lengths (map_to_list metrics)) < 2)%nat ->
     detectSignificantBias range metrics <> msg_lengths) /\
  (forall ds l,
     len ds <= max_int -> (forall it, it ∈ ds -> Label it = l) ->
     detectSignificantBias range (calculateBiasMetrics range ds) <> msg_lengths /\
     (ds <> [] ->
      calculateBiasMetrics range ds !! "distribution_bias" = Some 0%float /\
      detectSignificantBias range (calculateBiasMetrics range ds) = "")) /\
  (forall ds,
     len ds <= max_int ->
     Forall (fun it => Z.of_nat (String.length (Text it)) <= max_int) ds ->
     let metrics := calculateBiasMetrics range ds in
     let lengths := text_lengths (range float metrics) in
     (forall v, v ∈ lengths <->
                exists it, it ∈ ds /\ v = average_length (Label it) ds) /\
     exists mn mx,
       (ds <> [] -> is_minimum mn lengths /\ is_maximum mx lengths) /\
       (detectSignificantBias range metrics = msg_lengths <->
        (bias_threshold <? default 0 (metrics !! "distribution_bias"))%float
          = false /\
        1 < len lengths /\
        (2 <? mx / mn)%float = true)).
Proof.
  intros Hr.
  assert (Hb : forall metrics,
     detectSignificantBias range metrics = msg_lengths <->
     (bias_threshold <? default 0 (metrics !! "distribution_bias"))%float = false /\
     1 < len (text_lengths (range float metrics)) /\
     (2 <? (minMax (text_lengths (range float metrics))).2
           / (minMax (text_lengths (range float metrics))).1)%float = true).
  { intros metrics. rewrite detectSignificantBias_cases.
    destruct (minMax (text_lengths (range float metrics))) as [mn mx].
    cbn [fst snd].
    destruct (bias_threshold <? default 0 (metrics !! "distribution_bias"))%float.
    - split; [discriminate|]. intros [[=] _].
    - rewrite <- Z.ltb_lt, <- andb_true_iff.
      destruct (_ && _).
      + split; [intros _; by split | done].
      + split; [discriminate | intros [_ [=]]]. }
  assert (Hc : forall metrics,
     (length (text_lengths (map_to_list metrics)) < 2)%nat ->
     detectSignificantBias range metrics <> msg_lengths).
  { intros metrics Hfew [_ [Hlen _]]%Hb.
    unfold len in Hlen.
    rewrite (text_lengths_perm _ _ (Hr float metrics)) in Hlen. lia. }
  split; [|split; [|split; [exact Hc|split]]].
  - intros metrics. rewrite detectSignificantBias_cases.
    destruct (bias_threshold <? default 0 (metrics !! "distribution_bias"))%float.
    + done.
    + split; [|discriminate]. destruct (_ && _); discriminate.
  - intros metrics.
    exists (minMax (text_lengths (range float metrics))).1,
           (minMax (text_lengths (range float metrics))).2.
    cbv zeta.
    destruct (minMax_bounding (text_lengths (range float metrics)))
      as [Hmem Hbound].
    split; [exact Hmem|]. split; [exact Hbound|].
    split; [by apply minMax_extremes|]. apply Hb.
  - intros ds l Hmax Hl.
    destruct ds as [|it ds].
    + split; [|done]. apply Hc.
      unfold calculateBiasMetrics. cbn [foldl].
      rewrite (range_empty range Hr). cbn [foldl].
      rewrite insert_empty, map_to_list_singleton. simpl. lia.
    + destruct (calculateBiasMetrics_single_label range (it :: ds) l Hr)
        as [avg ->]; [done..|].
      rewrite single_label_no_length_alert by done.
      split; [discriminate|]. intros _.
      split; [apply lookup_insert_eq | done].
  - intros ds Hmax Htext. cbv zeta.
    split; [intros v; by apply bias_lengths_averages|].
    exists (minMax (text_lengths
                      (range float (calculateBiasMetrics range ds)))).1,
           (minMax (text_lengths
                      (range float (calculateBiasMetrics range ds)))).2.
    split; [|apply Hb].
    intros Hne. apply minMax_extremes.
    + destruct ds as [|it ds]; [done|].
      assert (Hin : average_length (Label it) (it :: ds)
                    ∈ text_lengths (range float
                        (calculateBiasMetrics range (it :: ds)))).
      { apply bias_lengths_averages; [done..|].
        exists it. split; [apply elem_of_cons; by left|done]. }
      intros E. rewrite E in Hin. by apply elem_of_nil in Hin.
    + apply Forall_forall. intros v Hv.
      apply bias_lengths_averages in Hv as (it & Hit & ->); [|done..].
      by apply nonneg_float_not_nan, average_length_nonneg.
Qed.

Lemma bias_alerts_witness :
  detectSignificantBias (fun V m => map_to_list m)
    (calculateBiasMetrics (fun V m => map_to_list m)
       [set_Text "a" (set_Label "pos" (new_item 1 0));
        set_Text "abc" (set_Label "neg" (new_item 2 1))]) = msg_lengths /\
  detectSignificantBias (fun V m => map_to_list m)
    (calculateBiasMetrics (fun V m => map_to_list m)
       [set_Text "ab" (set_Label "pos" (new_item 1 0));
        set_Text "abcd" (set_Label "pos" (new_item 2 1))]) = "".
Proof.
  destruct (bias_alerts (fun V m => map_to_list m) enumerates_map_to_list)
    as (_ & _ & _ & Hsingle & Hds).
  split.
  - destruct (Hds [set_Text "a" (set_Label "pos" (new_item 1 0));
                   set_Text "abc" (set_Label "neg" (new_item 2 1))])
      as (_ & mn & mx & Hext & Hiff).
    + vm_compute. discriminate.
    + repeat constructor; vm_compute; discriminate.
    + destruct Hext as [[Hmn Hmin] [Hmx Hmax]]; [discriminate|].
      assert (Hlengths :
        text_lengths (map_to_list
          (calculateBiasMetrics (fun V m => map_to_list m)
             [set_Text "a" (set_Label "pos" (new_item 1 0));
              set_Text "abc" (set_Label "neg" (new_item 2 1))]))
        = [3%float; 1%float]) by (vm_compute; reflexivity).
      rewrite Hlengths in Hmn, Hmin, Hmx, Hmax.
      assert (Emn : mn = 1%float).
      { apply elem_of_cons in Hmn as [->|Hmn].
        - specialize (Hmin 1%float ltac:(apply elem_of_cons; right;
                                         apply elem_of_cons; by left)).
          vm_compute in Hmin. discriminate Hmin.
        - by apply list_elem_of_singleton in Hmn. }
      assert (Emx : mx = 3%float).
      { apply elem_of_cons in Hmx as [->|Hmx]; [done|].
        apply list_elem_of_singleton in Hmx as ->.
        specialize (Hmax 3%float ltac:(apply elem_of_cons; by left)).
        vm_compute in Hmax. discriminate Hmax. }
      apply Hiff. subst mn mx.
      split; [vm_compute; reflexivity|]. split; [vm_compute; reflexivity|].
      vm_compute. reflexivity.
  - destruct (Hsingle [set_Text "ab" (set_Label "pos" (new_item 1 0));
                       set_Text "abcd" (set_Label "pos" (new_item 2 1))] "pos")
      as [_ Hnone].
    + vm_compute. discriminate.
    + intros it Hin.
      apply elem_of_cons in Hin as [->|Hin]; [reflexivity|].
      apply list_elem_of_singleton in Hin as ->. reflexivity.
    + by apply Hnone.
Defined.

(** * The prototype *)

Lemma Prototype_verified_count_cons it ds :
  Prototype.verified_count (it :: ds) =
  (if Prototype.UserVerified it then 1 else 0) + Prototype.verified_count ds.
Proof.
  unfold Prototype.verified_count. simpl.
  destruct (Prototype.UserVerified it); simpl; lia.
Qed.

Lemma Prototype_verified_count_le ds :
  0 <= Prototype.verified_count ds <= len ds.
Proof.
  unfold Prototype.verified_count, len. split; [lia|].
  apply Nat2Z.inj_le, List.filter_length_le.
Qed.

Lemma Prototype_verified_count_app ds1 ds2 :
  Prototype.verified_count (ds1 ++ ds2) =
  Prototype.verified_count ds1 + Prototype.verified_count ds2.
Proof.
  unfold Prototype.verified_count.
  rewrite List.filter_app, length_app. lia.
Qed.

Lemma Prototype_verified_fold ds v :
  0 <= v -> v + len ds <= max_int ->
  foldl (fun verified item =>
           if Prototype.UserVerified item then int_add verified 1 else verified)
        v ds = v + Prototype.verified_count ds.
Proof.
  revert v. induction ds as [|it ds IH]; intros v Hv Hlen.
  - unfold Prototype.verified_count. simpl. lia.
  - rewrite len_cons in Hlen. rewrite Prototype_verified_count_cons.
    pose proof (Prototype_verified_count_le ds). cbn [foldl].
    destruct (Prototype.UserVerified it).
    + unfold int_add. rewrite wrap64_small by (unfold max_int in *; lia).
      rewrite IH by lia. lia.
    + rewrite IH by lia. lia.
Qed.

Lemma Prototype_verified_count_insert ds k old new :
  ds !! k = Some old ->
  Prototype.verified_count (<[k := new]> ds) =
  Prototype.verified_count ds
  + (if Prototype.UserVerified new then 1 else 0)
  - (if Prototype.UserVerified old then 1 else 0).
Proof.
  intros Hk. pose proof (take_drop_middle ds k old Hk) as Hds.
  rewrite <- Hds at 2. rewrite insert_take_drop by by eapply lookup_lt_Some.
  rewrite !Prototype_verified_count_app, !Prototype_verified_count_cons. lia.
Qed.

(** X16: [setLabel] panics exactly when the index is out of range, and then
    before any write.  Otherwise it sets the label of that item, marks
    it verified and stamps it, and changes nothing else: the other
    items, the other fields, the length and the index on display stay,
    and the number of verified items grows by one if the item was not
    verified before and not at all if it was. *)
Theorem Prototype_setLabel_spec index label s :
  (Prototype.setLabel index label s = None <->
   index < 0 \/ len (Prototype.dataset s) <= index) /\
  forall s', Prototype.setLabel index label s = Some s' ->
    exists old new,
      Prototype.dataset s !! Z.to_nat index = Some old /\
      Prototype.dataset s' = <[Z.to_nat index := new]> (Prototype.dataset s) /\
      Prototype.Label new = label /\
      Prototype.UserVerified new = true /\
      Prototype.LastUpdated new = Prototype.clock s /\
      Prototype.same_example new old /\
      Prototype.Tags new = Prototype.Tags old /\
      Prototype.currentIndex s' = Prototype.currentIndex s /\
      Prototype.clock s' = Prototype.clock s + 1 /\
      Prototype.verified_count (Prototype.dataset s') =
        Prototype.verified_count (Prototype.dataset s)
        + (if Prototype.UserVerified old then 0 else 1).
Proof.
  unfold Prototype.setLabel. split.
  - rewrite <- slice_get_None.
    destruct (slice_get (Prototype.dataset s) index); simpl; split; done.
  - intros s'. destruct (slice_get (Prototype.dataset s) index) as [old|] eqn:E;
      [|done].
    simpl. intros [= <-]. apply slice_get_Some in E as [Hidx Hold].
    eexists old, _. split; [done|]. split; [reflexivity|]. simpl.
    split; [done|]. split; [done|]. split; [done|]. split; [done|].
    split; [done|]. split; [done|]. split; [done|].
    rewrite (Prototype_verified_count_insert _ _ old) by done. simpl.
    destruct (Prototype.UserVerified old); lia.
Qed.

Lemma Prototype_setLabel_spec_witness :
  Prototype.setLabel 1 "negative" (Prototype.initial 0) = None /\
  exists s',
    Prototype.setLabel 0 "negative" (Prototype.initial 0) = Some s' /\
    Prototype.verified_count (Prototype.dataset s') = 1.
Proof.
  split.
  - apply (proj1 (Prototype_setLabel_spec 1 "negative" (Prototype.initial 0))).
    right. vm_compute. discriminate.
  - eexists. split; [reflexivity|].
    destruct (proj2 (Prototype_setLabel_spec 0 "negative" (Prototype.initial 0))
                _ eq_refl)
      as (old & new & Hold & _ & _ & _ & _ & _ & _ & _ & _ & Hcount).
    injection Hold as <-. exact Hcount.
Defined.

(** X17: [flagForReview] panics exactly when the index is out of range, and
    then before any write.  Otherwise it appends the tag [needs_review]
    to the tags of that item and stamps it; the tag is appended whether
    the item bears it already or not, so that flagging twice leaves the
    tag twice.  The label, the verification and the other items stay. *)
Theorem Prototype_flagForReview_spec index s :
  (Prototype.flagForReview index s = None <->
   index < 0 \/ len (Prototype.dataset s) <= index) /\
  (forall s', Prototype.flagForReview index s = Some s' ->
    exists old new,
      Prototype.dataset s !! Z.to_nat index = Some old /\
      Prototype.dataset s' = <[Z.to_nat index := new]> (Prototype.dataset s) /\
      Prototype.Tags new = Prototype.Tags old ++ ["needs_review"] /\
      Prototype.LastUpdated new = Prototype.clock s /\
      Prototype.same_example new old /\
      Prototype.Label new = Prototype.Label old /\
      Prototype.UserVerified new = Prototype.UserVerified old /\
      Prototype.currentIndex s' = Prototype.currentIndex s /\
      Prototype.clock s' = Prototype.clock s + 1) /\
  (forall s1 s2 it,
     Prototype.flagForReview index s = Some s1 ->
     Prototype.flagForReview index s1 = Some s2 ->
     Prototype.dataset s2 !! Z.to_nat index = Some it ->
     exists tags,
       Prototype.Tags it = tags ++ ["needs_review"; "needs_review"]).
Proof.
  unfold Prototype.flagForReview. split; [|split].
  - rewrite <- slice_get_None.
    destruct (slice_get (Prototype.dataset s) index); simpl; split; done.
  - intros s'. destruct (slice_get (Prototype.dataset s) index) as [old|] eqn:E;
      [|done].
    simpl. intros [= <-]. apply slice_get_Some in E as [Hidx Hold].
    eexists old, _. split; [done|]. split; [reflexivity|]. simpl.
    split; [done|]. split; [done|]. split; [done|]. split; [done|].
    split; done.
  - intros s1 s2 it.
    destruct (slice_get (Prototype.dataset s) index) as [old|] eqn:E; [|done].
    simpl. intros [= <-]. simpl.
    rewrite (slice_get_insert _ _ old) by done. simpl. intros [= <-]. simpl.
    apply slice_get_Some in E as [Hidx Hold].
    rewrite list_insert_insert_eq.
    rewrite list_lookup_insert_eq by (unfold len in Hidx; lia).
    intros [= <-]. simpl. exists (Prototype.Tags old).
    by rewrite <- app_assoc.
Qed.

Lemma Prototype_flagForReview_spec_witness :
  exists s1 s2 it,
    Prototype.flagForReview 0 (Prototype.initial 0) = Some s1 /\
    Prototype.flagForReview 0 s1 = Some s2 /\
    Prototype.dataset s2 !! 0%nat = Some it /\
    exists tags, Prototype.Tags it = tags ++ ["needs_review"; "needs_review"].
Proof.
  eexists _, _, _. split; [reflexivity|]. split; [reflexivity|].
  split; [reflexivity|].
  apply (proj2 (proj2 (Prototype_flagForReview_spec 0 (Prototype.initial 0)))
           _ _ _ eq_refl eq_refl eq_refl).
Defined.

(** X18: [calculateMetrics] reports the size of the dataset and the two
    constants; its verified percentage is exactly 100 when every item
    of a dataset that is not empty is verified and exactly 0 when none
    is, and it is NaN on the empty dataset, where the code divides zero
    by zero. *)
Theorem Prototype_calculateMetrics_spec s :
  let m := Prototype.calculateMetrics s in
  let ds := Prototype.dataset s in
  Prototype.DatasetSize m = len ds /\
  (ds = [] -> Prototype.VerifiedPct m = nan) /\
  (1 <= len ds <= max_int ->
   (Forall (fun it => Prototype.UserVerified it = true) ds ->
    Prototype.VerifiedPct m = 100%float) /\
   (Forall (fun it => Prototype.UserVerified it = false) ds ->
    Prototype.VerifiedPct m = 0%float)).
Proof.
  cbv zeta. unfold Prototype.calculateMetrics.
  cbn [Prototype.DatasetSize Prototype.VerifiedPct].
  split; [done|]. split.
  - intros ->. vm_compute. reflexivity.
  - intros Hlen. rewrite Prototype_verified_fold by lia. rewrite Z.add_0_l.
    split; intros Hall.
    + assert (Hc : Prototype.verified_count (Prototype.dataset s)
                   = len (Prototype.dataset s)).
      { induction Hall as [|it ds Hit _ IH]; [done|].
        rewrite Prototype_verified_count_cons, len_cons, Hit.
        destruct ds as [|it' ds'].
        - reflexivity.
        - rewrite IH; [lia|]. rewrite !len_cons in *.
          pose proof (len_nonneg ds'). lia. }
      rewrite Hc, (float64_div_self _ Hlen). vm_compute. reflexivity.
    + assert (Hc : Prototype.verified_count (Prototype.dataset s) = 0).
      { clear Hlen. induction Hall as [|it ds Hit _ IH]; [done|].
        by rewrite Prototype_verified_count_cons, Hit, IH. }
      rewrite Hc. destruct (float64_finite _ Hlen) as (m & e & Hf).
      replace (float64 0) with 0%float by (vm_compute; reflexivity).
      rewrite (float_zero_div _ m e Hf). vm_compute. reflexivity.
Qed.

Lemma Prototype_calculateMetrics_spec_witness :
  Prototype.VerifiedPct (Prototype.calculateMetrics (Prototype.initial 0))
    = 0%float.
Proof.
  apply (Prototype_calculateMetrics_spec (Prototype.initial 0)).
  - vm_compute. split; discriminate.
  - repeat constructor.
Defined.

(** ** The review tab never panics *)

Lemma Prototype_updateDisplay_in_range s :
  Prototype.in_range s ->
  Prototype.updateDisplay (Prototype.currentIndex s) s = Prototype.Returns s.
Proof.
  intros [H _]. unfold Prototype.updateDisplay.
  by destruct (slice_get_is_Some (Prototype.dataset s)
                 (Prototype.currentIndex s) H) as [it ->].
Qed.

Lemma Prototype_kept_refl s : Prototype_kept s s.
Proof.
  split; [done|]. split; [lia|]. intros k old Hk. exists old.
  split; [done|]. split; [done|]. split; [done|done].
Qed.

Lemma Prototype_kept_trans s1 s2 s3 :
  Prototype_kept s1 s2 -> Prototype_kept s2 s3 -> Prototype_kept s1 s3.
Proof.
  intros (Hl1 & Hc1 & H1) (Hl2 & Hc2 & H2).
  split; [congruence|]. split; [lia|]. intros k old Hk.
  destruct (H1 k old Hk) as (mid & Hmid & He1 & Ht1 & Hv1).
  destruct (H2 k mid Hmid) as (new & Hnew & He2 & Ht2 & Hv2).
  exists new. split; [done|]. split.
  { unfold Prototype.same_example in *. intuition congruence. }
  split; [by etrans|auto].
Qed.

Lemma Prototype_kept_insert s index old new t :
  Prototype.dataset s !! index = Some old ->
  Prototype.same_example new old ->
  Prototype.Tags old `prefix_of` Prototype.Tags new ->
  (Prototype.UserVerified old = true -> Prototype.UserVerified new = true) ->
  Prototype.clock s <= t ->
  Prototype_kept s
    {| Prototype.dataset := <[index := new]> (Prototype.dataset s);
       Prototype.currentIndex := Prototype.currentIndex s;
       Prototype.clock := t |}.
Proof.
  intros Hold He Ht Hv Hc. split; [apply length_insert|]. split; [done|].
  intros k it Hk. cbn [Prototype.dataset].
  destruct (decide (k = index)) as [->|Hne].
  - exists new. rewrite list_lookup_insert_eq by by eapply lookup_lt_Some.
    rewrite Hold in Hk. injection Hk as <-. done.
  - exists it. rewrite list_lookup_insert_ne by done.
    split; [done|]. split; [done|]. split; [done|done].
Qed.

Lemma Prototype_handle_safe e s :
  Prototype.in_range s ->
  exists s', Prototype.handle e s = Prototype.Returns s' /\
             Prototype.in_range s' /\ Prototype_kept s s'.
Proof.
  intros Hin. pose proof Hin as [[H0 Hlt] Hmax].
  destruct e as [| |r|label|]; cbn [Prototype.handle].
  - unfold Prototype.prevButton.
    destruct (Z.ltb_spec 0 (Prototype.currentIndex s)) as [Hpos|_].
    + cbv zeta.
      rewrite (Prototype_updateDisplay_in_range (Prototype.set_currentIndex _ s)).
      * eexists. split; [reflexivity|]. split; [|exact (Prototype_kept_refl s)].
        unfold Prototype.in_range. simpl.
        rewrite wrap64_small by (unfold max_int in *; lia). lia.
      * unfold Prototype.in_range. simpl.
        rewrite wrap64_small by (unfold max_int in *; lia). lia.
    + exists s. split; [done|]. split; [done|apply Prototype_kept_refl].
  - unfold Prototype.nextButton.
    rewrite (wrap64_small (len (Prototype.dataset s) - 1))
      by (unfold max_int in *; lia).
    destruct (Z.ltb_spec (Prototype.currentIndex s)
                (len (Prototype.dataset s) - 1)) as [Hnext|_].
    + cbv zeta.
      rewrite (Prototype_updateDisplay_in_range (Prototype.set_currentIndex _ s)).
      * eexists. split; [reflexivity|]. split; [|exact (Prototype_kept_refl s)].
        unfold Prototype.in_range, int_add. simpl.
        rewrite wrap64_small by (unfold max_int in *; lia). lia.
      * unfold Prototype.in_range, int_add. simpl.
        rewrite wrap64_small by (unfold max_int in *; lia). lia.
    + exists s. split; [done|]. split; [done|apply Prototype_kept_refl].
  - unfold Prototype.randomButton, Prototype.Intn.
    destruct (Z.leb_spec (len (Prototype.dataset s)) 0) as [|_]; [lia|].
    cbv zeta.
    pose proof (Z.mod_pos_bound r (len (Prototype.dataset s)) ltac:(lia)).
    rewrite (Prototype_updateDisplay_in_range (Prototype.set_currentIndex _ s)).
    + eexists. split; [reflexivity|]. split; [|exact (Prototype_kept_refl s)].
      unfold Prototype.in_range. simpl. lia.
    + unfold Prototype.in_range. simpl. lia.
  - unfold Prototype.setLabel.
    destruct (slice_get_is_Some (Prototype.dataset s)
                (Prototype.currentIndex s) (proj1 Hin)) as [old Hold].
    rewrite Hold. apply slice_get_Some in Hold as [_ Hold].
    cbn [mbind option_bind time_Now].
    eexists. split; [reflexivity|]. split.
    + unfold Prototype.in_range, len. simpl. rewrite length_insert.
      unfold len in *. lia.
    + apply (Prototype_kept_insert s _ old); [done|done|done|done|lia].
  - unfold Prototype.flagForReview.
    destruct (slice_get_is_Some (Prototype.dataset s)
                (Prototype.currentIndex s) (proj1 Hin)) as [old Hold].
    rewrite Hold. apply slice_get_Some in Hold as [_ Hold].
    cbn [mbind option_bind time_Now].
    eexists. split; [reflexivity|]. split.
    + unfold Prototype.in_range, len. simpl. rewrite length_insert.
      unfold len in *. lia.
    + apply (Prototype_kept_insert s _ old); [done|done| |done|lia].
      simpl. by apply prefix_app_r.
Qed.

(** X19: Once an item of the dataset is on display, nothing the user does in
    the review tab panics: whatever the sequence of navigation, label
    and flag events and whatever the random draws, every handler
    returns and the index on display stays one of the dataset.  The
    dataset keeps its length; no item loses a tag or its verification,
    and what it is an example of (ID, text, category, confidence,
    predictions) never changes. *)
Theorem Prototype_run_safe events s :
  Prototype.in_range s ->
  exists s', Prototype.run events s = Prototype.Returns s' /\
             Prototype.in_range s' /\ Prototype_kept s s'.
Proof.
  revert s. induction events as [|e events IH]; intros s Hin.
  - exists s. split; [done|]. split; [done|apply Prototype_kept_refl].
  - destruct (Prototype_handle_safe e s Hin) as (s1 & H1 & Hin1 & Hk1).
    destruct (IH s1 Hin1) as (s' & H' & Hin' & Hk').
    exists s'. cbn [Prototype.run]. rewrite H1. split; [exact H'|].
    split; [done|]. by eapply Prototype_kept_trans.
Qed.

Lemma Prototype_run_safe_witness :
  exists s',
    Prototype.run
      [Prototype.Next; Prototype.QuickLabel "negative"; Prototype.Random 7;
       Prototype.FlagForReview; Prototype.Previous]
      (Prototype.initial 0) = Prototype.Returns s' /\
    Prototype.in_range s'.
Proof.
  destruct (Prototype_run_safe
    [Prototype.Next; Prototype.QuickLabel "negative"; Prototype.Random 7;
     Prototype.FlagForReview; Prototype.Previous]
    (Prototype.initial 0))
    as (s' & Hrun & Hin & _).
  - vm_compute. split; [split; [discriminate|reflexivity]|discriminate].
  - exists s'. split; [exact Hrun|exact Hin].
Defined.


